(** * Session registry and action handlers of the clicker-game server

    A shallow embedding of the WebSocket server of [src/server/index.js] and
    of its sibling revision [src/unnamed/part_000], with the properties of
    the specification stated over it.

    Conventions of the embedding.
    - A JavaScript string is a [string]: a sequence of code units in the
      Latin-1 range 0..255.  [trim], [toLowerCase] and the regular
      expression [\s] are the ECMAScript ones restricted to that range.
    - A counter column (coins, taps, ...) is a [Z].  The server adds and
      subtracts counters as JavaScript numbers and as SQLite integers, which
      agree with [Z] as long as operands and results stay within
      [MAX_SAFE_INTEGER]; the statements that compute with counters say so
      with [safe].
    - A field of a parsed message is a [jsval]: absent ([JUndefined]), null,
      a boolean, a number, a string, or an array or object.  Numbers, arrays
      and objects are given by what [String] and [||] make of them, which is
      all the handlers look at.
    - [clients] is the [Map] of the source, kept in insertion order.
    - The tables of the SQLite database are finite maps keyed by their
      unique column.
    - A handler returns the next state and the calls it made to [sendTo],
      [broadcast] and [close], in program order; [None] is an uncaught
      [TypeError]. *)

From Stdlib Require Import ZArith String Ascii List Lia.
From stdpp Require Import base tactics option list gmap strings pretty sorting.

Local Open Scope string_scope.
Local Open Scope list_scope.
Local Open Scope Z_scope.

(** ** JavaScript strings *)

Module Js.

(** White space of [String.prototype.trim] and of [\s] below U+0100:
    TAB, LF, VT, FF, CR, SPACE and NO-BREAK SPACE. *)
Definition is_space (c : ascii) : bool :=
  let n := N_of_ascii c in
  ((9 <=? n) && (n <=? 13) || (n =? 32) || (n =? 160))%N.

(** [toLowerCase] on one code unit below U+0100: A-Z, and the accented
    capitals U+00C0..U+00DE except the multiplication sign U+00D7. *)
Definition lower_char (c : ascii) : ascii :=
  let n := N_of_ascii c in
  if ((65 <=? n) && (n <=? 90))%N then ascii_of_N (n + 32)
  else if ((192 <=? n) && (n <=? 222) && negb (n =? 215))%N
       then ascii_of_N (n + 32)
  else c.

Fixpoint toLowerCase (s : string) : string :=
  match s with
  | EmptyString => EmptyString
  | String c s' => String (lower_char c) (toLowerCase s')
  end.

Fixpoint trimStart (s : string) : string :=
  match s with
  | EmptyString => EmptyString
  | String c s' => if is_space c then trimStart s' else s
  end.

Definition trimEnd (s : string) : string :=
  String.rev (trimStart (String.rev s)).

Definition trim (s : string) : string := trimEnd (trimStart s).

(** [s.slice(0, n)] *)
Fixpoint slice_0 (n : nat) (s : string) : string :=
  match n, s with
  | O, _ => EmptyString
  | S _, EmptyString => EmptyString
  | S n', String c s' => String c (slice_0 n' s')
  end.

(** [s.startsWith(p)] *)
Definition startsWith (p s : string) : bool := String.prefix p s.

(** [s.split(/\s+/)]: the pieces between maximal runs of white space.  A
    run at either end leaves an empty piece there, as in JavaScript. *)
Fixpoint split_go (in_run : bool) (cur : string) (s : string) : list string :=
  match s with
  | EmptyString => [String.rev cur]
  | String c s' =>
    if is_space c
    then if in_run then split_go true EmptyString s'
         else String.rev cur :: split_go true EmptyString s'
    else split_go false (String c cur) s'
  end.

Definition split_ws (s : string) : list string :=
  split_go false EmptyString s.

(** *** Values of the fields of a parsed message *)

(** A field of [JSON.parse(raw)].  The handlers convert a field with
    [String], test it with [||] and compare it with [===] to a string, so
    numbers, arrays and objects are given by what these make of them.
    - [JZero] is the number 0 or -0, the falsy number of JSON; [JNumber repr]
      is any other number, [repr] being the decimal form [String] gives it
      ("42", "1.5", "1e+21", ...).
    - [JObject repr] is an array or an object and [repr] the result of
      [String] on it: the elements joined by commas for an array,
      "[object Object]" for an object, and [None] when the conversion throws
      a [TypeError], as it does for an object with an own property
      [toString] (which JSON cannot make callable), alone or as an element
      of an array. *)
Inductive jsval : Type :=
| JUndefined
| JNull
| JBool (b : bool)
| JZero
| JNumber (repr : string)
| JStr (s : string)
| JObject (repr : option string).

#[global] Instance jsval_eq_dec : EqDecision jsval.
Proof. solve_decision. Defined.

(** [String(v)]; [None] when it throws. *)
Definition String_ (v : jsval) : option string :=
  match v with
  | JUndefined => Some "undefined"
  | JNull => Some "null"
  | JBool true => Some "true"
  | JBool false => Some "false"
  | JZero => Some "0"
  | JNumber repr => Some repr
  | JStr s => Some s
  | JObject repr => repr
  end.

(** ToBoolean *)
Definition truthy (v : jsval) : bool :=
  match v with
  | JUndefined | JNull => false
  | JBool b => b
  | JZero => false
  | JNumber _ => true
  | JStr s => negb (bool_decide (s = ""))
  | JObject _ => true
  end.

(** [v || d] *)
Definition or (v d : jsval) : jsval := if truthy v then v else d.

End Js.

Import Js.

(** ** The [Map] of the source, in insertion order *)

Module JsMap.
Section JsMap.
Context {K V : Type} `{EqDecision K}.

Fixpoint get (k : K) (m : list (K * V)) : option V :=
  match m with
  | [] => None
  | (k', v) :: m' => if decide (k = k') then Some v else get k m'
  end.

(** [m.set(k, v)]: an existing key keeps its place, a new one goes last. *)
Fixpoint set (k : K) (v : V) (m : list (K * V)) : list (K * V) :=
  match m with
  | [] => [(k, v)]
  | (k', v') :: m' =>
    if decide (k = k') then (k, v) :: m' else (k', v') :: set k v m'
  end.

(** [m.delete(k)]: no entry for [k] is left. *)
Definition delete (k : K) (m : list (K * V)) : list (K * V) :=
  List.filter (fun e => negb (bool_decide (fst e = k))) m.

(** [Array.from(m.values())] and [m.entries()] *)
Definition values (m : list (K * V)) : list V := List.map snd m.
Definition entries (m : list (K * V)) : list (K * V) := m.

End JsMap.
End JsMap.

(** ** Data model *)

(** A connection ([ws] in the source). *)
Definition conn : Type := nat.

(** A row of [players], without its key [nickname]. *)
Record Player : Type := mkPlayer {
  coins : Z;
  tap_value : Z;
  auto_per_sec : Z;
  taps : Z;
  icon : option string
}.

(** A row of [shop_items], without its key [id]. *)
Record ShopItem : Type := mkItem {
  item_name : string;
  price : Z;
  item_type : string;
  value : Z
}.

(** A row of [chat]. *)
Record ChatRow : Type := mkChat {
  row_nickname : string;
  row_icon : option string;
  row_text : string;
  row_ts : Z
}.

#[global] Instance Player_eq_dec : EqDecision Player.
Proof. solve_decision. Defined.
#[global] Instance ShopItem_eq_dec : EqDecision ShopItem.
Proof. solve_decision. Defined.
#[global] Instance ChatRow_eq_dec : EqDecision ChatRow.
Proof. solve_decision. Defined.

(** The database and the in-memory map [ws -> nickname]. *)
Record State : Type := mkState {
  clients : list (conn * option string);
  players : gmap string Player;
  shop_items : gmap string ShopItem;
  chat : list ChatRow;
  bans : gmap string string
}.

Definition with_clients (c : list (conn * option string)) (s : State) : State :=
  mkState c (players s) (shop_items s) (chat s) (bans s).
Definition with_players (p : gmap string Player) (s : State) : State :=
  mkState (clients s) p (shop_items s) (chat s) (bans s).
Definition with_chat (c : list ChatRow) (s : State) : State :=
  mkState (clients s) (players s) (shop_items s) c (bans s).
Definition with_bans (b : gmap string string) (s : State) : State :=
  mkState (clients s) (players s) (shop_items s) (chat s) b.

(** The [user] object of a successful [buyResult]. *)
Record UserView : Type := mkUser {
  user_nickname : string;
  user_coins : Z;
  user_tap_value : Z;
  user_auto_per_sec : Z
}.

(** A row of the rankings and of the player list: [taps], [coins], [icon]. *)
Record RankRow : Type := mkRank {
  rank_taps : Z;
  rank_coins : Z;
  rank_icon : option string
}.

(** Messages from the server.  The rows of a ranking or of a player list
    come in the order of their query, each with its nickname. *)
Inductive payload : Type :=
| MInit (shop : gmap string ShopItem) (ranks : list (string * RankRow))
        (chats : list ChatRow)
| MSetNameResult (ok : bool) (nickname : option string) (reason : option string)
| MTap (nickname : string) (coins taps tap_value : Z)
| MBuyResult (ok : bool) (user : option UserView) (reason : option string)
| MRanks (ranks players : list (string * RankRow))
| MChat (nickname : string) (icon : option string) (text : string) (ts : Z)
| MSystem (text : string)
| MBanned (nickname : string)
| MError (error : string).

(** Replies of the upload endpoint: the two the handler sends, and the one
    Express sends for a handler that throws. *)
Inductive http_response : Type :=
| Http400 (error : string)
| Http200 (icon : string)
| Http500.

(** What a handler does to the outside, in program order. *)
Inductive effect : Type :=
| SendTo (ws : conn) (m : payload)
| Broadcast (m : payload)
| Close (ws : conn)
| Respond (r : http_response).

(** *** Delivery: [sendTo], [broadcast] and [close] over [wss.clients] *)

Inductive readyState : Type := CONNECTING | OPEN | CLOSING | CLOSED.

Definition is_open (r : readyState) : bool :=
  match r with OPEN => true | _ => false end.

Definition sendTo (socks : list (conn * readyState)) (ws : conn) (m : payload)
  : list (conn * payload) :=
  match JsMap.get ws socks with
  | Some OPEN => [(ws, m)]
  | _ => []
  end.

Definition broadcast (socks : list (conn * readyState)) (m : payload)
  : list (conn * payload) :=
  flat_map (fun e => if is_open (snd e) then [(fst e, m)] else []) socks.

Definition close (socks : list (conn * readyState)) (ws : conn)
  : list (conn * readyState) :=
  match JsMap.get ws socks with
  | Some OPEN => JsMap.set ws CLOSING socks
  | _ => socks
  end.

Fixpoint deliver (socks : list (conn * readyState)) (effs : list effect)
  : list (conn * readyState) * list (conn * payload) :=
  match effs with
  | [] => (socks, [])
  | SendTo ws m :: r =>
    let (k, out) := deliver socks r in (k, sendTo socks ws m ++ out)
  | Broadcast m :: r =>
    let (k, out) := deliver socks r in (k, broadcast socks m ++ out)
  | Close ws :: r => deliver (close socks ws) r
  | Respond _ :: r => deliver socks r
  end.

(** ** Inbound messages and configuration *)

(** The fields the handlers read from [data = JSON.parse(raw)]. *)
Record Data : Type := mkData {
  d_type : jsval;
  d_nickname : jsval;
  d_adminToken : jsval;
  d_itemId : jsval;
  d_text : jsval
}.

(** [JSON.parse(raw)]: a syntax error, the value [null] (reading a field of
    it throws), or a value whose fields can be read. *)
Inductive raw : Type :=
| Unparsable
| ParsedNull
| Parsed (d : Data).

(** The two results of [Date.now()] in the chat handler, in call order:
    for the stored row, then for the broadcast. *)
Record Clock : Type := mkClock {
  now_insert : Z;
  now_send : Z
}.

(** A multipart request to [/upload-icon], as [upload.single('icon')] hands
    it to the handler: the form field [nickname] of [req.body], a string
    when the form has it once and absent when it has none; the extension
    [path.extname(req.file.originalname)] of the uploaded file if there is
    one; and the time and random suffix of the generated file name. *)
Record UploadReq : Type := mkUpload {
  body_nickname : option string;
  file_ext : option string;
  upload_now : Z;
  upload_rnd : string
}.

(** The two revisions of the server. *)
Inductive Variant : Type := ServerIndex | Part000.

#[global] Instance Variant_eq_dec : EqDecision Variant.
Proof. solve_decision. Defined.

Record Config : Type := mkConfig {
  variant : Variant;
  env_ADMIN_TOKEN : option string
}.

(** [process.env.ADMIN_TOKEN || '<default>'] *)
Definition ADMIN_TOKEN (cfg : Config) : string :=
  let default :=
    match variant cfg with
    | ServerIndex => "admin-token-change-me"
    | Part000 => "change-admin-token"
    end in
  match env_ADMIN_TOKEN cfg with
  | Some t => if bool_decide (t = "") then default else t
  | None => default
  end.

(** The seeded catalog; the display names, Japanese in the source, are
    given in ASCII. *)
Definition SHOP_DEFAULTS : list (string * ShopItem) :=
  [ ("cheapUp", mkItem "tap +1" 10 "tap" 1);
    ("midUp", mkItem "tap +5" 45 "tap" 5);
    ("auto1", mkItem "auto +1/s" 30 "auto" 1);
    ("auto5", mkItem "auto +5/s" 130 "auto" 5) ].

(** [INSERT OR IGNORE INTO shop_items] *)
Definition insertItem (it : string * ShopItem) (t : gmap string ShopItem)
  : gmap string ShopItem :=
  match t !! fst it with
  | Some _ => t
  | None => <[fst it := snd it]> t
  end.

(** The state after start-up on an empty database. *)
Definition init_state : State :=
  mkState [] ∅ (fold_left (fun t it => insertItem it t) SHOP_DEFAULTS ∅) [] ∅.

(** ** Prepared statements *)

Definition findPlayer (nickname : string) (s : State) : option Player :=
  players s !! nickname.

Definition createPlayer (nickname : string) (p : Player) (s : State) : State :=
  with_players (<[nickname := p]> (players s)) s.

(** [UPDATE players SET coins=.., tap_value=.., auto_per_sec=.., taps=..,
    icon=.. WHERE nickname=..] *)
Definition updatePlayerCoinsTap (p : Player) (nickname : string) (s : State)
  : State :=
  with_players (alter (fun _ => p) nickname (players s)) s.

(** [UPDATE players SET coins=coins+@val, taps=taps+1 WHERE nickname=..] *)
Definition updatePlayerAfterTap (val : Z) (nickname : string) (s : State)
  : State :=
  with_players
    (alter (fun p => mkPlayer (coins p + val) (tap_value p) (auto_per_sec p)
                              (taps p + 1) (icon p))
           nickname (players s)) s.

(** [UPDATE players SET coins=coins+@val WHERE nickname=..] *)
Definition updatePlayerAfterAuto (val : Z) (nickname : string) (s : State)
  : State :=
  with_players
    (alter (fun p => mkPlayer (coins p + val) (tap_value p) (auto_per_sec p)
                              (taps p) (icon p))
           nickname (players s)) s.

Definition rank_row (p : Player) : RankRow :=
  mkRank (taps p) (coins p) (icon p).

(** The orders of the two queries over the selected rows. *)
Definition by_nickname (a b : string * RankRow) : Prop :=
  String.le (fst a) (fst b).
Definition by_taps_desc (a b : string * RankRow) : Prop :=
  rank_taps (snd b) <= rank_taps (snd a).

#[global] Instance by_nickname_dec : RelDecision by_nickname.
Proof. intros a b. unfold by_nickname. apply _. Defined.
#[global] Instance by_taps_desc_dec : RelDecision by_taps_desc.
Proof. intros a b. unfold by_taps_desc. apply _. Defined.

(** [SELECT nickname, coins, taps, icon FROM players ORDER BY nickname];
    nicknames are compared code unit by code unit. *)
Definition listPlayers (s : State) : list (string * RankRow) :=
  merge_sort by_nickname (map_to_list (rank_row <$> players s)).

(** [SELECT nickname, taps, coins, icon FROM players ORDER BY taps DESC
    LIMIT 100].  SQL leaves the order of rows with equal [taps] open; here
    it is the one the sort gives them, and what is stated of the ranking
    ([top_ranking]) holds for any such order. *)
Definition getTopRank (s : State) : list (string * RankRow) :=
  take 100 (merge_sort by_taps_desc (listPlayers s)).

Definition insertChat (r : ChatRow) (s : State) : State :=
  with_chat (chat s ++ [r]) s.

(** [SELECT .. FROM chat ORDER BY id DESC LIMIT 200]; [chat] is in order of
    insertion, oldest first. *)
Definition recentChats (s : State) : list ChatRow :=
  firstn 200 (rev (chat s)).

Definition findBan (nickname : string) (s : State) : option string :=
  bans s !! nickname.
Definition addBan (nickname reason : string) (s : State) : State :=
  with_bans (<[nickname := reason]> (bans s)) s.
Definition removeBan (nickname : string) (s : State) : State :=
  with_bans (delete nickname (bans s)) s.

Definition shopAll (s : State) : gmap string ShopItem := shop_items s.

Definition broadcastPlayersAndRanks (s : State) : effect :=
  Broadcast (MRanks (getTopRank s) (listPlayers s)).

Definition new_player (icon : option string) : Player :=
  mkPlayer 0 1 0 0 icon.

(** ** Handlers *)

Section Server.
Variable cfg : Config.

(** [wss.on('connection')]: register the socket and send [init]. *)
Definition on_connection (ws : conn) (s : State) : State * list effect :=
  let s1 := with_clients (JsMap.set ws None (clients s)) s in
  let shop := shopAll s1 in
  let ranks := getTopRank s1 in
  let chats := rev (recentChats s1) in
  (s1, [SendTo ws (MInit shop ranks chats)]).

(** The argument of [String(..)] in the [setName] handler:
    [data.nickname] in index.js:116, [data.nickname || ''] in part_000:101. *)
Definition nickname_arg (d : Data) : jsval :=
  match variant cfg with
  | ServerIndex => d_nickname d
  | Part000 => Js.or (d_nickname d) (JStr "")
  end.

Definition inUse (nickname : string) (s : State) : bool :=
  existsb (fun n => bool_decide (n = Some nickname)) (JsMap.values (clients s)).

Definition setName_reject (ws : conn) (reason : string) : effect :=
  SendTo ws (MSetNameResult false None (Some reason)).

(** index.js:117-137, part_000:102-115: the checks on the converted
    [nickname] and the claim.  The [COUNT] query of index.js:126 reads the
    database and its result is not used. *)
Definition setName_checks (ws : conn) (nickname : string) (adminToken : jsval)
    (s : State) : State * list effect :=
  if bool_decide (nickname = "") then (s, [setName_reject ws "empty"])
  else if bool_decide (toLowerCase nickname = "admin")
          && negb (bool_decide (adminToken = JStr (ADMIN_TOKEN cfg)))
  then (s, [setName_reject ws "admin_auth"])
  else
    match findBan nickname s with
    | Some _ => (s, [setName_reject ws "banned"])
    | None =>
      if inUse nickname s then (s, [setName_reject ws "inuse"])
      else
        let s1 :=
          match findPlayer nickname s with
          | Some _ => s
          | None => createPlayer nickname (new_player None) s
          end in
        let s2 := with_clients (JsMap.set ws (Some nickname) (clients s1)) s1 in
        (s2, [SendTo ws (MSetNameResult true (Some nickname) None);
              broadcastPlayersAndRanks s2])
    end.

(** index.js:115-138, part_000:100-116.  The conversion of line 116 (101)
    comes first and may throw. *)
Definition on_setName (ws : conn) (d : Data) (s : State)
  : option (State * list effect) :=
  match String_ (nickname_arg d) with
  | None => None
  | Some raw => Some (setName_checks ws (slice_0 32 (trim raw)) (d_adminToken d) s)
  end.

(** index.js:144-153, part_000:121-128 *)
Definition on_tap (nickname : string) (s : State) : option (State * list effect) :=
  match findPlayer nickname s with
  | None => Some (s, [])
  | Some player =>
    let s1 := updatePlayerAfterTap (tap_value player) nickname s in
    match findPlayer nickname s1 with
    | None => None
    | Some updated =>
      Some (s1, [Broadcast (MTap nickname (coins updated) (taps updated)
                                 (tap_value updated))])
    end
  end.

(** The argument of [String(..)] in the [buy] handler:
    [data.itemId] in index.js:157, [data.itemId || ''] in part_000:131. *)
Definition itemId_arg (d : Data) : jsval :=
  match variant cfg with
  | ServerIndex => d_itemId d
  | Part000 => Js.or (d_itemId d) (JStr "")
  end.

(** index.js:156-171, part_000:130-144 *)
Definition on_buy (ws : conn) (nickname : string) (d : Data) (s : State)
  : option (State * list effect) :=
  match String_ (itemId_arg d) with
  | None => None
  | Some itemId =>
    match shop_items s !! itemId with
    | None => Some (s, [SendTo ws (MBuyResult false None (Some "invalid"))])
    | Some item =>
      match findPlayer nickname s with
      | None => None
      | Some player =>
        if coins player <? price item
        then Some (s, [SendTo ws (MBuyResult false None (Some "not_enough"))])
        else
          let newCoins := coins player - price item in
          let newTap :=
            if bool_decide (item_type item = "tap")
            then tap_value player + value item else tap_value player in
          let newAuto :=
            if bool_decide (item_type item = "auto")
            then auto_per_sec player + value item else auto_per_sec player in
          let s1 :=
            updatePlayerCoinsTap
              (mkPlayer newCoins newTap newAuto (taps player) (icon player))
              nickname s in
          match findPlayer nickname s1 with
          | None => None
          | Some updated =>
            Some (s1,
                  [SendTo ws (MBuyResult true
                     (Some (mkUser nickname (coins updated) (tap_value updated)
                                   (auto_per_sec updated))) None);
                   broadcastPlayersAndRanks s1])
          end
      end
    end
  end.

(** The kick loop of [/ban]: every entry of [clients] holding [target] is
    sent [banned] and closed. *)
Definition kick (target : string) (s : State) : list effect :=
  flat_map
    (fun e => if bool_decide (snd e = Some target)
              then [SendTo (fst e) (MBanned target); Close (fst e)] else [])
    (JsMap.entries (clients s)).

Definition do_ban (target : string) (s : State) : State * list effect :=
  let s1 := addBan target "banned by admin" s in
  (s1, kick target s1 ++ [Broadcast (MSystem (target +:+ " is banned"))]).

Definition do_unban (target : string) (s : State) : State * list effect :=
  let s1 := removeBan target s in
  (s1, [Broadcast (MSystem (target +:+ " is unbanned"))]).

(** "normal chat: record in DB and broadcast" *)
Definition normal_chat (nickname text : string) (clk : Clock) (s : State)
  : State * list effect :=
  let icon :=
    match findPlayer nickname s with
    | Some player => icon player
    | None => None
    end in
  let s1 := insertChat (mkChat nickname icon text (now_insert clk / 1000)) s in
  (s1, [Broadcast (MChat nickname icon text (now_send clk))]).

(** [parts[1]] when it is truthy. *)
Definition target_of (parts : list string) : option string :=
  match nth_error parts 1 with
  | Some t => if bool_decide (t = "") then None else Some t
  | None => None
  end.

(** The admin commands: [Some r] when the handler returns from inside the
    command block, [None] when control reaches the normal chat below it.
    index.js:178-204 returns from a recognised command with or without a
    target; part_000:150-165 returns only when the target is there. *)
Definition admin_command (text : string) (s : State)
  : option (State * list effect) :=
  let parts :=
    match variant cfg with
    | ServerIndex => split_ws text
    | Part000 => split_ws (trim text)
    end in
  let cmd := toLowerCase (nth 0 parts "") in
  match variant cfg with
  | ServerIndex =>
    if bool_decide (cmd = "/ban") then
      match target_of parts with
      | Some target => Some (do_ban target s)
      | None => Some (s, [])
      end
    else if bool_decide (cmd = "/bro") then
      match target_of parts with
      | Some target => Some (do_unban target s)
      | None => Some (s, [])
      end
    else None
  | Part000 =>
    match target_of parts with
    | Some target =>
      if bool_decide (cmd = "/ban") then Some (do_ban target s)
      else if bool_decide (cmd = "/bro") then Some (do_unban target s)
      else None
    | None => None
    end
  end.

(** index.js:176-212, part_000:148-171: the handler once [text] is there. *)
Definition chat_checks (nickname text : string) (clk : Clock) (s : State)
  : State * list effect :=
  if bool_decide (text = "") then (s, [])
  else
    let command :=
      if bool_decide (nickname = "admin") && startsWith "/" text
      then admin_command text s else None in
    match command with
    | Some r => r
    | None => normal_chat nickname text clk s
    end.

(** index.js:174-213, part_000:146-172.  The conversion in
    [String(data.text || '').slice(0,500).trim()] comes first and may
    throw. *)
Definition on_chat (nickname : string) (d : Data) (clk : Clock) (s : State)
  : option (State * list effect) :=
  match String_ (Js.or (d_text d) (JStr "")) with
  | None => None
  | Some raw => Some (chat_checks nickname (trim (slice_0 500 raw)) clk s)
  end.

(** [ws.on('message')] *)
Definition on_message (ws : conn) (r : raw) (clk : Clock) (s : State)
  : option (State * list effect) :=
  match r with
  | Unparsable => Some (s, [])
  | ParsedNull => None
  | Parsed d =>
    if bool_decide (d_type d = JStr "setName") then on_setName ws d s
    else
      let not_named := Some (s, [SendTo ws (MError "not_named")]) in
      match JsMap.get ws (clients s) with
      | Some (Some nickname) =>
        if bool_decide (nickname = "") then not_named
        else if bool_decide (d_type d = JStr "tap") then on_tap nickname s
        else if bool_decide (d_type d = JStr "buy") then on_buy ws nickname d s
        else if bool_decide (d_type d = JStr "chat")
             then on_chat nickname d clk s
        else Some (s, [])
      | _ => not_named
      end
  end.

(** [ws.on('close')] *)
Definition on_close (ws : conn) (s : State) : State * list effect :=
  let s1 := with_clients (JsMap.delete ws (clients s)) s in
  (s1, [broadcastPlayersAndRanks s1]).

(** The auto-income tick: the rows with [auto_per_sec > 0], then one
    update per row, then one broadcast. *)
Definition auto_rows (s : State) : list (string * Z) :=
  omap (fun e => if 0 <? auto_per_sec (snd e)
                 then Some (fst e, auto_per_sec (snd e)) else None)
       (map_to_list (players s)).

Definition on_tick (s : State) : State * list effect :=
  let s1 :=
    fold_left
      (fun acc r => if 0 <? snd r
                    then updatePlayerAfterAuto (snd r) (fst r) acc else acc)
      (auto_rows s) s in
  (s1, [broadcastPlayersAndRanks s1]).

(** [POST /upload-icon] with a multipart body: index.js:61-79 takes the form
    field as it is, part_000:54-77 truncates it to 32 characters and checks
    the extension. *)
Definition on_upload (req : UploadReq) (s : State) : State * list effect :=
  let nickname :=
    match variant cfg with
    | ServerIndex => default "" (body_nickname req)
    | Part000 => slice_0 32 (default "" (body_nickname req))
    end in
  match file_ext req with
  | None => (s, [Respond (Http400 "missing")])
  | Some originalext =>
    if bool_decide (nickname = "") then (s, [Respond (Http400 "missing")])
    else
      let ext :=
        match variant cfg with
        | ServerIndex => originalext
        | Part000 => toLowerCase originalext
        end in
      let allowed :=
        match variant cfg with
        | ServerIndex => true
        | Part000 =>
          bool_decide (ext ∈ [".png"; ".jpg"; ".jpeg"; ".gif"; ""])
        end in
      if negb allowed then (s, [Respond (Http400 "invalid_ext")])
      else
        let newName :=
          pretty (upload_now req) +:+ "-" +:+ upload_rnd req +:+ ext in
        let iconUrl := "/icons/" +:+ newName in
        let s1 :=
          match findPlayer nickname s with
          | Some player =>
            updatePlayerCoinsTap
              (mkPlayer (coins player) (tap_value player) (auto_per_sec player)
                        (taps player) (Some iconUrl))
              nickname s
          | None => createPlayer nickname (new_player (Some iconUrl)) s
          end in
        (s1, [Respond (Http200 iconUrl)])
  end.

(** [POST /upload-icon] without a multipart body: multer passes the request
    on with [req.body] undefined, reading [req.body.nickname] (index.js:62,
    part_000:55) throws, and Express answers 500. *)
Definition on_upload_plain (s : State) : State * list effect :=
  (s, [Respond Http500]).

(** ** The server as a transition system *)

Inductive event : Type :=
| Connection (ws : conn)
| Message (ws : conn) (r : raw) (clk : Clock)
| Closed (ws : conn)
| Tick
| Upload (req : UploadReq)
| UploadPlain.

Definition step (e : event) (s : State) : option (State * list effect) :=
  match e with
  | Connection ws => Some (on_connection ws s)
  | Message ws r clk => on_message ws r clk s
  | Closed ws => Some (on_close ws s)
  | Tick => Some (on_tick s)
  | Upload req => Some (on_upload req s)
  | UploadPlain => Some (on_upload_plain s)
  end.

(** The states the server goes through from an empty database. *)
Inductive reachable : State -> Prop :=
| reachable_init : reachable init_state
| reachable_step e s s' effs :
    reachable s -> step e s = Some (s', effs) -> reachable s'.

(** A run of [setName] requests for one [nickname] field, from the
    connections and with the credentials of [reqs]; the result is the last
    state and the calls of each request. *)
Definition setName_data (nickname token : jsval) : Data :=
  mkData (JStr "setName") nickname token JUndefined JUndefined.

Fixpoint run_setNames (nickname : jsval) (reqs : list (conn * jsval)) (s : State)
  : option (State * list (list effect)) :=
  match reqs with
  | [] => Some (s, [])
  | (ws, token) :: reqs' =>
    match on_setName ws (setName_data nickname token) s with
    | None => None
    | Some (s1, effs) =>
      match run_setNames nickname reqs' s1 with
      | None => None
      | Some (s2, rest) => Some (s2, effs :: rest)
      end
    end
  end.

(** [n] taps in a row from [ws]. *)
Fixpoint run_taps (n : nat) (ws : conn) (d : Data) (clk : Clock) (s : State)
  : option (State * list effect) :=
  match n with
  | O => Some (s, [])
  | S n' =>
    match on_message ws (Parsed d) clk s with
    | None => None
    | Some (s1, effs) =>
      match run_taps n' ws d clk s1 with
      | None => None
      | Some (s2, rest) => Some (s2, effs ++ rest)
      end
    end
  end.

End Server.

(** ** Predicates of the statements *)

(** Connection [ws] has an entry of [clients] with nickname [n]. *)
Definition holds (s : State) (ws : conn) (n : string) : Prop :=
  In (ws, Some n) (JsMap.entries (clients s)).

(** No nickname is held by two connections. *)
Definition sessions_unique (s : State) : Prop :=
  forall c1 c2 n, holds s c1 n -> holds s c2 n -> c1 = c2.

(** The nickname a [setName] message asks for: the trimmed and truncated
    [String(..)] of its field.  It is the empty string when the conversion
    throws and the handler asks for nothing. *)
Definition claimed_name (cfg : Config) (d : Data) : string :=
  match String_ (nickname_arg cfg d) with
  | Some raw => slice_0 32 (trim raw)
  | None => ""
  end.

(** What the handler returns when the conversion does not throw. *)
Definition setName_result (cfg : Config) (ws : conn) (d : Data) (s : State)
  : State * list effect :=
  setName_checks cfg ws (claimed_name cfg d) (d_adminToken d) s.

(** The text of a chat message, [String(data.text || '').slice(0,500).trim()];
    the empty string when the conversion throws. *)
Definition chat_text (d : Data) : string :=
  match String_ (Js.or (d_text d) (JStr "")) with
  | Some raw => trim (slice_0 500 raw)
  | None => ""
  end.

(** What the chat handler returns when the conversion does not throw. *)
Definition chat_result (cfg : Config) (nickname : string) (d : Data)
    (clk : Clock) (s : State) : State * list effect :=
  chat_checks cfg nickname (chat_text d) clk s.

(** A run of [setName] requests none of which throws. *)
Fixpoint run_results (cfg : Config) (nickname : jsval)
    (reqs : list (conn * jsval)) (s : State) : State * list (list effect) :=
  match reqs with
  | [] => (s, [])
  | (ws, token) :: reqs' =>
    let (s1, effs) := setName_result cfg ws (setName_data nickname token) s in
    let (s2, rest) := run_results cfg nickname reqs' s1 in
    (s2, effs :: rest)
  end.

(** The state a handler leaves, [s] itself when it throws. *)
Definition state_after (r : option (State * list effect)) (s : State) : State :=
  match r with
  | Some (s', _) => s'
  | None => s
  end.

(** Integers that JavaScript numbers hold exactly. *)
Definition MAX_SAFE_INTEGER : Z := 2 ^ 53 - 1.

Definition safe (z : Z) : Prop := - MAX_SAFE_INTEGER <= z <= MAX_SAFE_INTEGER.

Definition player_safe (p : Player) : Prop :=
  safe (coins p) /\ safe (tap_value p) /\ safe (auto_per_sec p) /\ safe (taps p).

Definition item_safe (it : ShopItem) : Prop := safe (price it) /\ safe (value it).

(** The credential check of the reserved name passes. *)
Definition credential_ok (cfg : Config) (n : string) (token : jsval) : Prop :=
  toLowerCase n = "admin" -> token = JStr (ADMIN_TOKEN cfg).

(** The first call of a request is the reply [ok: true]. *)
Definition is_accept (effs : list effect) : bool :=
  match effs with
  | SendTo _ (MSetNameResult true _ _) :: _ => true
  | _ => false
  end.

(** Invariant of the player records. *)
Definition player_ok (p : Player) : Prop := 0 <= coins p /\ 1 <= tap_value p.

Definition players_ok (s : State) : Prop :=
  forall n p, players s !! n = Some p -> player_ok p.

(** The catalog has no negative effect magnitude. *)
Definition shop_ok (s : State) : Prop :=
  forall i it, shop_items s !! i = Some it -> 0 <= value it.

(** A held nickname is not the empty string. *)
Definition names_nonempty (s : State) : Prop :=
  forall ws, ~ holds s ws "".

(** The wording of the specification for the text of a chat message:
    "first trimmed and then truncated to 500 characters". *)
Definition chat_text_trim_first (d : Data) : string :=
  match String_ (Js.or (d_text d) (JStr "")) with
  | Some raw => slice_0 500 (trim raw)
  | None => ""
  end.

(** [clients.get(ws)] is the truthy value [nick] (index.js:140-141). *)
Definition named (s : State) (ws : conn) (nick : string) : Prop :=
  JsMap.get ws (clients s) = Some (Some nick) /\ nick <> "".

(** The record after buying [item]. *)
Definition bought (p : Player) (item : ShopItem) : Player :=
  mkPlayer (coins p - price item)
           (if bool_decide (item_type item = "tap")
            then tap_value p + value item else tap_value p)
           (if bool_decide (item_type item = "auto")
            then auto_per_sec p + value item else auto_per_sec p)
           (taps p) (icon p).

(** The icon stored with a chat message of [nick]. *)
Definition icon_of (nick : string) (s : State) : option string :=
  match players s !! nick with
  | Some player => icon player
  | None => None
  end.

(** The five outcomes of the handler, in the order of its checks. *)
Inductive setName_outcome (cfg : Config) (ws : conn) (d : Data) (s : State)
  : State -> list effect -> Prop :=
| Out_empty :
    claimed_name cfg d = "" ->
    setName_outcome cfg ws d s s [setName_reject ws "empty"]
| Out_admin_auth :
    claimed_name cfg d <> "" ->
    toLowerCase (claimed_name cfg d) = "admin" ->
    d_adminToken d <> JStr (ADMIN_TOKEN cfg) ->
    setName_outcome cfg ws d s s [setName_reject ws "admin_auth"]
| Out_banned :
    claimed_name cfg d <> "" ->
    credential_ok cfg (claimed_name cfg d) (d_adminToken d) ->
    is_Some (findBan (claimed_name cfg d) s) ->
    setName_outcome cfg ws d s s [setName_reject ws "banned"]
| Out_inuse :
    claimed_name cfg d <> "" ->
    credential_ok cfg (claimed_name cfg d) (d_adminToken d) ->
    findBan (claimed_name cfg d) s = None ->
    inUse (claimed_name cfg d) s = true ->
    setName_outcome cfg ws d s s [setName_reject ws "inuse"]
| Out_accept s' :
    claimed_name cfg d <> "" ->
    credential_ok cfg (claimed_name cfg d) (d_adminToken d) ->
    findBan (claimed_name cfg d) s = None ->
    inUse (claimed_name cfg d) s = false ->
    clients s' = JsMap.set ws (Some (claimed_name cfg d)) (clients s) ->
    players s' = match players s !! claimed_name cfg d with
                 | Some _ => players s
                 | None => <[claimed_name cfg d := new_player None]> (players s)
                 end ->
    shop_items s' = shop_items s -> chat s' = chat s -> bans s' = bans s ->
    setName_outcome cfg ws d s s'
      [SendTo ws (MSetNameResult true (Some (claimed_name cfg d)) None);
       broadcastPlayersAndRanks s'].

(** The nickname every request of a run asks for. *)
Definition requested (cfg : Config) (nick : jsval) : string :=
  claimed_name cfg (setName_data nick JUndefined).

(** What a request that is not the successful one is answered. *)
Definition rejected_reply (cfg : Config) (nick : jsval)
    (replies : list (list effect)) (j : nat)
    (ws : conn) (token : jsval) : Prop :=
  replies !! j = Some [setName_reject ws "inuse"]
  \/ (replies !! j = Some [setName_reject ws "admin_auth"]
      /\ toLowerCase (requested cfg nick) = "admin"
      /\ token <> JStr (ADMIN_TOKEN cfg)).

(** What the handlers keep true. *)
Record wf (s : State) : Prop := mkWf {
  wf_unique : sessions_unique s;
  wf_named : names_nonempty s;
  wf_players : players_ok s;
  wf_shop : shop_ok s
}.

(** ** States and configurations of the examples *)

Definition cfg_index : Config := mkConfig ServerIndex (Some "secret").
Definition cfg_part : Config := mkConfig Part000 (Some "secret").

(** Two connections, none named. *)
Definition two_connections : State :=
  fst (on_connection 2%nat (fst (on_connection 1%nat init_state))).

(** Connection 1 has claimed "alice". *)
Definition alice_state : State :=
  state_after
    (on_setName cfg_index 1%nat (setName_data (JStr "alice") JUndefined)
       two_connections)
    two_connections.

(** Connection 1 has claimed "admin". *)
Definition admin_state : State :=
  state_after
    (on_setName cfg_index 1%nat (setName_data (JStr "admin") (JStr "secret"))
       two_connections)
    two_connections.

Definition a_clock : Clock := mkClock 1700000000123 1700000000124.

Definition tap_data : Data :=
  mkData (JStr "tap") JUndefined JUndefined JUndefined JUndefined.

(** "alice" after ten taps. *)
Definition alice_ten_taps : State :=
  state_after (run_taps cfg_index 10 1%nat tap_data a_clock alice_state)
    alice_state.

Definition buy_data (itemId : string) : Data :=
  mkData (JStr "buy") JUndefined JUndefined (JStr itemId) JUndefined.

Definition chat_data (text : string) : Data :=
  mkData (JStr "chat") JUndefined JUndefined JUndefined (JStr text).

Fixpoint spaces (n : nat) (s : string) : string :=
  match n with
  | O => s
  | S n' => String " " (spaces n' s)
  end.

(** ** Further predicates *)

(** The first character, if there is one, is not white space. *)
Definition no_leading_space (n : string) : Prop :=
  match n with
  | EmptyString => True
  | String c _ => is_space c = false
  end.

(** The shape of [clients] and of the nicknames in it: one entry per
    connection; a held nickname is not empty, has at most 32 characters,
    does not start with white space and has a row in [players]. *)
Definition sessions_wellformed (s : State) : Prop :=
  List.NoDup (map fst (clients s))
  /\ forall ws n, holds s ws n ->
       n <> "" /\ (String.length n <= 32)%nat /\ no_leading_space n
       /\ is_Some (players s !! n).

(** What one tick does to a row of [players]. *)
Definition credited (p : Player) : Player :=
  if 0 <? auto_per_sec p
  then mkPlayer (coins p + auto_per_sec p) (tap_value p) (auto_per_sec p)
                (taps p) (icon p)
  else p.

(** The three counters that no handler lowers. *)
Definition grows (p p' : Player) : Prop :=
  taps p <= taps p' /\ tap_value p <= tap_value p'
  /\ auto_per_sec p <= auto_per_sec p'.

(** A stored chat row: a sender, and a trimmed text of 1 to 500
    characters. *)
Definition chat_row_ok (r : ChatRow) : Prop :=
  row_nickname r <> "" /\ row_text r <> ""
  /\ (String.length (row_text r) <= 500)%nat
  /\ trim (row_text r) = row_text r.

(** The generated URL of an uploaded icon. *)
Definition icon_url (req : UploadReq) (ext : string) : string :=
  "/icons/" +:+ pretty (upload_now req) +:+ "-" +:+ upload_rnd req +:+ ext.

(** A record with another icon. *)
Definition with_icon (p : Player) (i : option string) : Player :=
  mkPlayer (coins p) (tap_value p) (auto_per_sec p) (taps p) i.

(** A connection named "bob" beside the administrator. *)
Definition admin_and_bob : State :=
  state_after
    (on_setName cfg_index 2%nat (setName_data (JStr "bob") JUndefined)
       admin_state)
    admin_state.

(** No row of [players] is lost and none of its three counters goes down. *)
Definition players_grow (s s' : State) : Prop :=
  forall n p, players s !! n = Some p ->
    exists p', players s' !! n = Some p' /\ grows p p'.

(** The administrator has banned "bob", who was connected. *)
Definition bob_banned : State :=
  state_after
    (on_chat cfg_index "admin" (chat_data "/ban bob") a_clock admin_and_bob)
    admin_and_bob.

(** What the ranking query returns for the table [tbl]: the rows of
    [min 100 (size tbl)] different players, in descending order of [taps],
    no player left out having more taps than one that is listed. *)
Definition top_ranking (tbl : gmap string Player)
    (rows : list (string * RankRow)) : Prop :=
  (length rows = Nat.min 100 (size tbl))%nat
  /\ List.NoDup (map fst rows)
  /\ (forall n r, In (n, r) rows ->
        exists p, tbl !! n = Some p /\ r = rank_row p)
  /\ StronglySorted by_taps_desc rows
  /\ (forall n p, tbl !! n = Some p -> ~ In n (map fst rows) ->
        forall m r, In (m, r) rows -> taps p <= rank_taps r).

(** What the player list query returns: the row of every player, once, in
    the order of the nicknames. *)
Definition player_list (tbl : gmap string Player)
    (rows : list (string * RankRow)) : Prop :=
  List.NoDup (map fst rows)
  /\ (forall n r, In (n, r) rows <->
        exists p, tbl !! n = Some p /\ r = rank_row p)
  /\ StronglySorted by_nickname rows.

(** "alice" with five coins and an income of two per second. *)
Definition alice_earning : State :=
  updatePlayerCoinsTap (mkPlayer 5 1 2 0 None) "alice" alice_state.

(** Some character of the string is white space. *)
Fixpoint has_space (s : string) : bool :=
  match s with
  | EmptyString => false
  | String c s' => is_space c || has_space s'
  end.

(** The string is not empty and its last character is not white space. *)
Fixpoint ends_in_word (s : string) : bool :=
  match s with
  | EmptyString => false
  | String c EmptyString => negb (is_space c)
  | String _ s' => ends_in_word s'
  end.

(** ** The session map *)

Section JsMapFacts.
Context {K V : Type} `{EqDecision K}.
Implicit Types (k : K) (v : V) (m : list (K * V)).

Lemma get_In k v m : JsMap.get k m = Some v -> In (k, v) m.
Proof.
  induction m as [|[k' v'] m IH]; simpl; [discriminate|].
  destruct (decide (k = k')) as [->|Hne].
  - intros [= ->]. now left.
  - intros Hg. right. auto.
Qed.

Lemma get_set_eq k v m : JsMap.get k (JsMap.set k v m) = Some v.
Proof.
  induction m as [|[k' v'] m IH]; simpl.
  - now rewrite decide_True.
  - destruct (decide (k = k')) as [->|Hne]; simpl.
    + now rewrite decide_True.
    + now rewrite decide_False.
Qed.

Lemma get_set_ne k k' v m :
  k <> k' -> JsMap.get k' (JsMap.set k v m) = JsMap.get k' m.
Proof.
  intros Hne. induction m as [|[k0 v0] m IH]; simpl.
  - rewrite decide_False; [reflexivity | congruence].
  - destruct (decide (k = k0)) as [->|Hk]; simpl.
    + rewrite !decide_False; [reflexivity | congruence | congruence].
    + destruct (decide (k' = k0)); [reflexivity | exact IH].
Qed.

Lemma In_set_other k v m k' v' :
  In (k', v') (JsMap.set k v m) -> (k', v') = (k, v) \/ In (k', v') m.
Proof.
  induction m as [|[k0 v0] m IH]; simpl.
  - intros [<-|[]]. now left.
  - destruct (decide (k = k0)) as [->|Hk]; simpl.
    + intros [<-|Hin]; auto.
    + intros [<-|Hin]; auto. destruct (IH Hin); auto.
Qed.

Lemma In_set_here k v m : In (k, v) (JsMap.set k v m).
Proof. apply get_In, get_set_eq. Qed.

Lemma In_delete k m e : In e (JsMap.delete k m) -> In e m /\ fst e <> k.
Proof.
  unfold JsMap.delete. rewrite filter_In. intros [Hin Hb]. split; [exact Hin|].
  apply negb_true_iff, bool_decide_eq_false in Hb. exact Hb.
Qed.

Lemma get_delete_eq k m : JsMap.get k (JsMap.delete k m) = None.
Proof.
  destruct (JsMap.get k (JsMap.delete k m)) as [v|] eqn:Hg; [|reflexivity].
  apply get_In, In_delete in Hg. destruct Hg as [_ Hne]. now elim Hne.
Qed.

Lemma get_delete_ne k k' m :
  k <> k' -> JsMap.get k' (JsMap.delete k m) = JsMap.get k' m.
Proof.
  intros Hne. induction m as [|[k0 v0] m IH]; simpl; [reflexivity|].
  destruct (decide (k' = k0)) as [->|Hk].
  - rewrite bool_decide_eq_false_2 by congruence. simpl.
    now rewrite decide_True.
  - destruct (bool_decide (k0 = k)); simpl; [exact IH|].
    now rewrite decide_False.
Qed.

End JsMapFacts.

(** A reply to an open socket is delivered, and to that socket only. *)
Lemma deliver_reply socks ws m :
  JsMap.get ws socks = Some OPEN ->
  deliver socks [SendTo ws m] = (socks, [(ws, m)]).
Proof. intros Ho. simpl. unfold sendTo. now rewrite Ho. Qed.

Lemma deliver_reply_not_open socks ws m :
  JsMap.get ws socks <> Some OPEN ->
  deliver socks [SendTo ws m] = (socks, []).
Proof.
  intros Ho. simpl. unfold sendTo.
  destruct (JsMap.get ws socks) as [[]|]; try reflexivity. now elim Ho.
Qed.

Lemma get_holds s ws n :
  JsMap.get ws (clients s) = Some (Some n) -> holds s ws n.
Proof. apply get_In. Qed.

Lemma inUse_true n s : inUse n s = true <-> exists ws, holds s ws n.
Proof.
  unfold inUse, holds, JsMap.values, JsMap.entries. rewrite existsb_exists. split.
  - intros (v & Hin & Hv). apply bool_decide_eq_true in Hv. subst v.
    apply in_map_iff in Hin. destruct Hin as ([ws v] & Hv & Hin).
    simpl in Hv. subst v. now exists ws.
  - intros (ws & Hin). exists (Some n). split.
    + apply in_map_iff. now exists (ws, Some n).
    + now apply bool_decide_eq_true.
Qed.

Lemma inUse_false n s : inUse n s = false <-> forall ws, ~ holds s ws n.
Proof.
  rewrite <- not_true_iff_false, inUse_true. split.
  - intros Hn ws Hh. apply Hn. now exists ws.
  - intros Hn (ws & Hh). now apply (Hn ws).
Qed.

(** ** Claiming a nickname *)

Section SetName.
Variable cfg : Config.

(** The state after a successful claim of [n] by [ws]. *)
Lemma accept_state_fields ws n s :
  let s1 := match findPlayer n s with
            | Some _ => s
            | None => createPlayer n (new_player None) s
            end in
  let s2 := with_clients (JsMap.set ws (Some n) (clients s1)) s1 in
  clients s2 = JsMap.set ws (Some n) (clients s)
  /\ players s2 = match players s !! n with
                  | Some _ => players s
                  | None => <[n := new_player None]> (players s)
                  end
  /\ shop_items s2 = shop_items s /\ chat s2 = chat s /\ bans s2 = bans s.
Proof. unfold findPlayer. destruct (players s !! n); simpl; auto. Qed.

Lemma on_setName_outcome ws d s :
  setName_outcome cfg ws d s (fst (setName_result cfg ws d s))
                  (snd (setName_result cfg ws d s)).
Proof.
  unfold setName_result, setName_checks. fold (claimed_name cfg d).
  destruct (bool_decide (claimed_name cfg d = "")) eqn:He.
  { apply bool_decide_eq_true in He. now constructor. }
  apply bool_decide_eq_false in He.
  destruct (bool_decide (toLowerCase (claimed_name cfg d) = "admin")) eqn:Ha;
    destruct (bool_decide (d_adminToken d = JStr (ADMIN_TOKEN cfg))) eqn:Ht;
    simpl.
  2:{ apply bool_decide_eq_true in Ha. apply bool_decide_eq_false in Ht.
      now constructor. }
  all: assert (Hc : credential_ok cfg (claimed_name cfg d) (d_adminToken d))
    by (intros Hl;
        first [ now apply bool_decide_eq_true in Ht
              | apply bool_decide_eq_false in Ha; now elim Ha ]).
  all: destruct (findBan (claimed_name cfg d) s) eqn:Hb;
    [ simpl; apply Out_banned; auto; rewrite Hb; eauto |].
  all: destruct (inUse (claimed_name cfg d) s) eqn:Hu;
    [ simpl; now apply Out_inuse |].
  all: cbv zeta;
    destruct (accept_state_fields ws (claimed_name cfg d) s)
      as (Hcl & Hpl & Hsh & Hch & Hbn);
    cbv zeta in Hcl, Hpl, Hsh, Hch, Hbn; simpl fst; simpl snd;
    now apply Out_accept.
Qed.

End SetName.

Section SetNameRuns.
Variable cfg : Config.
Variable nick : jsval.

Local Abbreviation requested := (requested cfg nick).
Local Abbreviation rejected_reply := (rejected_reply cfg nick).

Lemma run_results_cons ws token reqs s :
  run_results cfg nick ((ws, token) :: reqs) s =
  (fst (run_results cfg nick reqs
          (fst (setName_result cfg ws (setName_data nick token) s))),
   snd (setName_result cfg ws (setName_data nick token) s)
   :: snd (run_results cfg nick reqs
             (fst (setName_result cfg ws (setName_data nick token) s)))).
Proof.
  simpl. destruct (setName_result cfg ws (setName_data nick token) s) as [s1 effs].
  simpl. now destruct (run_results cfg nick reqs s1).
Qed.

Lemma run_results_length reqs s :
  length (snd (run_results cfg nick reqs s)) = length reqs.
Proof.
  revert s. induction reqs as [|[ws token] reqs IH]; intros s; [reflexivity|].
  rewrite run_results_cons. simpl. now rewrite IH.
Qed.

Lemma on_setName_unique ws d s :
  sessions_unique s -> sessions_unique (fst (setName_result cfg ws d s)).
Proof.
  intros Hu. pose proof (on_setName_outcome cfg ws d s) as Ho.
  destruct (setName_result cfg ws d s) as [s1 effs]. simpl in *.
  inversion Ho; subst; try exact Hu.
  match goal with H : inUse _ s = false |- _ => rename H into Hfree end.
  match goal with H : clients s1 = _ |- _ => rename H into Hcl end.
  rewrite inUse_false in Hfree.
  intros c1 c2 n Hc1 Hc2. unfold holds, JsMap.entries in Hc1, Hc2.
  rewrite Hcl in Hc1, Hc2.
  apply In_set_other in Hc1. apply In_set_other in Hc2.
  destruct Hc1 as [E1|Hc1], Hc2 as [E2|Hc2].
  - congruence.
  - injection E1 as -> ->. now elim (Hfree c2).
  - injection E2 as -> ->. now elim (Hfree c1).
  - exact (Hu c1 c2 n Hc1 Hc2).
Qed.

(** Once the name is held, a run leaves the state alone and rejects. *)
Lemma run_results_held reqs s :
  requested <> "" -> findBan requested s = None -> inUse requested s = true ->
  fst (run_results cfg nick reqs s) = s
  /\ forall j ws token, reqs !! j = Some (ws, token) ->
       rejected_reply (snd (run_results cfg nick reqs s)) j ws token.
Proof.
  intros Hne Hban Huse.
  induction reqs as [|[ws0 token0] reqs [IHs IHr]].
  { split; [reflexivity|]. intros j ws token Hj. discriminate. }
  rewrite run_results_cons.
  pose proof (on_setName_outcome cfg ws0 (setName_data nick token0) s) as Ho.
  destruct (setName_result cfg ws0 (setName_data nick token0) s) as [s1 effs].
  simpl in Ho. simpl fst. simpl snd.
  change (claimed_name cfg (setName_data nick token0)) with requested in Ho.
  assert (Hs : s1 = s /\ rejected_reply [effs] 0 ws0 token0).
  { inversion Ho; subst;
      change (claimed_name cfg (setName_data nick token0)) with requested in *;
      try congruence.
    - split; [reflexivity|]. right. auto.
    - match goal with H : is_Some _ |- _ => rewrite Hban in H;
        destruct H; discriminate end.
    - split; [reflexivity|]. now left. }
  destruct Hs as [-> Hr0]. split; [exact IHs|].
  intros [|j] ws token Hj.
  - injection Hj as -> ->. destruct Hr0 as [H|[H ?]]; [left|right]; auto.
  - exact (IHr j ws token Hj).
Qed.

(** A run with a success started with the name free and not banned. *)
Lemma run_results_accept_free reqs s i e :
  snd (run_results cfg nick reqs s) !! i = Some e -> is_accept e = true ->
  requested <> "" /\ findBan requested s = None /\ inUse requested s = false.
Proof.
  revert s i. induction reqs as [|[ws0 token0] reqs IH]; intros s i.
  { discriminate. }
  rewrite run_results_cons.
  pose proof (on_setName_outcome cfg ws0 (setName_data nick token0) s) as Ho.
  destruct (setName_result cfg ws0 (setName_data nick token0) s) as [s1 effs].
  simpl in Ho. simpl fst. simpl snd.
  change (claimed_name cfg (setName_data nick token0)) with requested in Ho.
  intros Hi Hacc.
  inversion Ho; subst;
    change (claimed_name cfg (setName_data nick token0)) with requested in *;
    auto;
    (destruct i as [|i];
     [ injection Hi as <-; discriminate | exact (IH _ _ Hi Hacc) ]).
Qed.

Lemma run_results_prefix_unique reqs s k :
  sessions_unique s ->
  sessions_unique (fst (run_results cfg nick (firstn k reqs) s)).
Proof.
  revert s k. induction reqs as [|[ws0 token0] reqs IH]; intros s k Hu.
  { now destruct k. }
  destruct k as [|k]; [exact Hu|].
  change (firstn (S k) ((ws0, token0) :: reqs))
    with ((ws0, token0) :: firstn k reqs).
  rewrite run_results_cons. simpl fst. apply IH. now apply on_setName_unique.
Qed.

Lemma run_results_others reqs s i e :
  snd (run_results cfg nick reqs s) !! i = Some e -> is_accept e = true ->
  forall j ws token, j <> i -> reqs !! j = Some (ws, token) ->
    rejected_reply (snd (run_results cfg nick reqs s)) j ws token.
Proof.
  revert s i. induction reqs as [|[ws0 token0] reqs IH]; intros s i.
  { discriminate. }
  rewrite run_results_cons.
  pose proof (on_setName_outcome cfg ws0 (setName_data nick token0) s) as Ho.
  destruct (setName_result cfg ws0 (setName_data nick token0) s) as [s1 effs].
  simpl in Ho. simpl fst. simpl snd.
  change (claimed_name cfg (setName_data nick token0)) with requested in Ho.
  intros Hi Hacc j ws token Hji Hj.
  assert (Hrej : forall r, effs = [setName_reject ws0 r] -> s1 = s ->
            (r = "inuse" \/ r = "admin_auth" /\ toLowerCase requested = "admin"
                            /\ token0 <> JStr (ADMIN_TOKEN cfg)
             \/ (i <> 0%nat -> False)) ->
            rejected_reply
              (effs :: snd (run_results cfg nick reqs s1)) j ws token).
  { intros r -> -> Hr. destruct i as [|i].
    { injection Hi as <-. discriminate. }
    destruct j as [|j].
    - injection Hj as -> ->.
      destruct Hr as [->|[(-> & Hl & Ht)|Hr]];
        [now left | right; auto | now elim Hr].
    - assert (Hji' : j <> i) by congruence.
      destruct (IH s i Hi Hacc j ws token Hji' Hj) as [H|[H ?]];
        [left|right]; auto. }
  inversion Ho; subst;
    change (claimed_name cfg (setName_data nick token0)) with requested in *.
  - apply (Hrej "empty"); auto. right. right. intros Hi0.
    destruct i as [|i]; [congruence|].
    destruct (run_results_accept_free _ _ _ _ Hi Hacc) as (Hne & _).
    congruence.
  - apply (Hrej "admin_auth"); auto.
  - apply (Hrej "banned"); auto. right. right. intros Hi0.
    destruct i as [|i]; [congruence|].
    destruct (run_results_accept_free _ _ _ _ Hi Hacc) as (_ & Hb & _).
    match goal with H : is_Some _ |- _ => rewrite Hb in H; destruct H;
      discriminate end.
  - apply (Hrej "inuse"); auto.
  - (* the head request succeeded: the name is held from here on *)
    assert (Huse : inUse requested s1 = true).
    { apply inUse_true. exists ws0. unfold holds, JsMap.entries.
      match goal with H : clients s1 = _ |- _ => rewrite H end.
      apply In_set_here. }
    assert (Hban : findBan requested s1 = None).
    { unfold findBan in *. congruence. }
    destruct (run_results_held reqs s1) as [_ Hheld]; auto.
    destruct j as [|j].
    + destruct i as [|i]; [congruence|]. simpl in Hi.
      assert (Hlt : (i < length reqs)%nat).
      { rewrite <- (run_results_length reqs s1).
        apply lookup_lt_is_Some. eauto. }
      apply lookup_lt_is_Some in Hlt. destruct Hlt as [[wsi ti] Hri].
      destruct (Hheld i wsi ti Hri) as [Hq|[Hq _]];
        rewrite Hq in Hi; injection Hi as <-; discriminate.
    + destruct (Hheld j ws token Hj) as [Hq|[Hq ?]]; [left|right]; auto.
Qed.

End SetNameRuns.

(** ** The conversions that may throw *)

Lemma on_setName_returns cfg ws d s raw :
  String_ (nickname_arg cfg d) = Some raw ->
  on_setName cfg ws d s = Some (setName_result cfg ws d s)
  /\ claimed_name cfg d = slice_0 32 (trim raw).
Proof.
  intros E. unfold on_setName, setName_result, claimed_name. now rewrite E.
Qed.

Lemma on_setName_throws cfg ws d s :
  on_setName cfg ws d s = None <-> String_ (nickname_arg cfg d) = None.
Proof.
  unfold on_setName. destruct (String_ (nickname_arg cfg d)); split;
    congruence.
Qed.

Lemma on_setName_Some cfg ws d s r :
  on_setName cfg ws d s = Some r ->
  r = setName_result cfg ws d s
  /\ exists raw, String_ (nickname_arg cfg d) = Some raw.
Proof.
  unfold on_setName, setName_result, claimed_name.
  destruct (String_ (nickname_arg cfg d)) as [raw|]; [|discriminate].
  intros [= <-]. eauto.
Qed.

Lemma on_setName_fst cfg ws d s s' effs :
  on_setName cfg ws d s = Some (s', effs) ->
  s' = fst (setName_result cfg ws d s).
Proof. intros [<- _]%on_setName_Some. reflexivity. Qed.

Lemma on_setName_snd cfg ws d s s' effs :
  on_setName cfg ws d s = Some (s', effs) ->
  effs = snd (setName_result cfg ws d s).
Proof. intros [<- _]%on_setName_Some. reflexivity. Qed.

Lemma on_chat_returns cfg nick d clk s raw :
  String_ (Js.or (d_text d) (JStr "")) = Some raw ->
  on_chat cfg nick d clk s = Some (chat_result cfg nick d clk s)
  /\ chat_text d = trim (slice_0 500 raw).
Proof.
  intros E. unfold on_chat, chat_result, chat_text. now rewrite E.
Qed.

Lemma on_chat_throws cfg nick d clk s :
  on_chat cfg nick d clk s = None
  <-> String_ (Js.or (d_text d) (JStr "")) = None.
Proof.
  unfold on_chat. destruct (String_ (Js.or (d_text d) (JStr ""))); split;
    congruence.
Qed.

Lemma on_chat_Some cfg nick d clk s r :
  on_chat cfg nick d clk s = Some r ->
  r = chat_result cfg nick d clk s
  /\ exists raw, String_ (Js.or (d_text d) (JStr "")) = Some raw.
Proof.
  unfold on_chat, chat_result, chat_text.
  destruct (String_ (Js.or (d_text d) (JStr ""))) as [raw|]; [|discriminate].
  intros [= <-]. eauto.
Qed.

Lemma on_chat_fst cfg nick d clk s s' effs :
  on_chat cfg nick d clk s = Some (s', effs) ->
  s' = fst (chat_result cfg nick d clk s).
Proof. intros [<- _]%on_chat_Some. reflexivity. Qed.

Lemma on_chat_snd cfg nick d clk s s' effs :
  on_chat cfg nick d clk s = Some (s', effs) ->
  effs = snd (chat_result cfg nick d clk s).
Proof. intros [<- _]%on_chat_Some. reflexivity. Qed.

Lemma run_setNames_Some cfg nick reqs s r :
  run_setNames cfg nick reqs s = Some r -> r = run_results cfg nick reqs s.
Proof.
  revert s r. induction reqs as [|[ws token] reqs IH]; intros s r.
  { now intros [= <-]. }
  cbn [run_setNames run_results].
  destruct (on_setName cfg ws (setName_data nick token) s) as [[s1 effs]|] eqn:E;
    [|discriminate].
  apply on_setName_Some in E as [<- _].
  destruct (run_setNames cfg nick reqs s1) as [[s2 rest]|] eqn:E2; [|discriminate].
  apply IH in E2. rewrite <- E2. now intros [= <-].
Qed.

Lemma run_setNames_returns cfg nick reqs s :
  String_ (nickname_arg cfg (setName_data nick JUndefined)) <> None ->
  run_setNames cfg nick reqs s = Some (run_results cfg nick reqs s).
Proof.
  intros Hc. revert s. induction reqs as [|[ws token] reqs IH]; intros s.
  { reflexivity. }
  cbn [run_setNames run_results].
  destruct (String_ (nickname_arg cfg (setName_data nick JUndefined)))
    as [raw|] eqn:E; [|congruence].
  destruct (on_setName_returns cfg ws (setName_data nick token) s raw E)
    as [-> _].
  destruct (setName_result cfg ws (setName_data nick token) s) as [s1 effs].
  rewrite IH. now destruct (run_results cfg nick reqs s1).
Qed.

(** A text that is not empty comes from a conversion that returned. *)
Lemma chat_text_converted d :
  chat_text d <> "" -> exists raw, String_ (Js.or (d_text d) (JStr "")) = Some raw.
Proof.
  unfold chat_text. destruct (String_ (Js.or (d_text d) (JStr ""))); eauto.
  intros E. now contradiction E.
Qed.

Lemma on_chat_text cfg nick d clk s :
  chat_text d <> "" ->
  on_chat cfg nick d clk s = Some (chat_result cfg nick d clk s).
Proof.
  intros [raw E]%chat_text_converted.
  now destruct (on_chat_returns cfg nick d clk s raw E).
Qed.

Lemma claimed_name_converted cfg d :
  claimed_name cfg d <> "" -> exists raw, String_ (nickname_arg cfg d) = Some raw.
Proof.
  unfold claimed_name. destruct (String_ (nickname_arg cfg d)); eauto.
  intros E. now contradiction E.
Qed.

(** ** Invariants of the reachable states *)

Lemma holds_shrink s s' :
  (forall c n, holds s' c n -> holds s c n) ->
  (sessions_unique s -> sessions_unique s')
  /\ (names_nonempty s -> names_nonempty s').
Proof.
  intros Hsub. split.
  - intros Hu c1 c2 n Hc1 Hc2. eapply Hu; eauto.
  - intros Hn ws Hh. eapply Hn; eauto.
Qed.

Lemma wf_same_sessions s s' :
  clients s' = clients s -> shop_items s' = shop_items s ->
  players_ok s' -> wf s -> wf s'.
Proof.
  intros Hc Hs Hp [Hu Hn _ Hsh].
  destruct (holds_shrink s s') as [H1 H2].
  { unfold holds. now rewrite Hc. }
  split; auto. unfold shop_ok. now rewrite Hs.
Qed.

Lemma players_ok_alter f n s :
  (forall p, players s !! n = Some p -> player_ok p -> player_ok (f p)) ->
  players_ok s -> players_ok (with_players (alter f n (players s)) s).
Proof.
  intros Hf Hp m q. simpl. rewrite lookup_alter. case_decide as Hd.
  - subst m. destruct (players s !! n) as [p|] eqn:Hl; simpl; [|discriminate].
    intros [= <-]. apply Hf; eauto.
  - apply Hp.
Qed.

Lemma players_ok_create n icon s :
  players_ok s -> players_ok (createPlayer n (new_player icon) s).
Proof.
  intros Hp m q. simpl. rewrite lookup_insert. case_decide.
  - intros [= <-]. unfold player_ok. simpl. lia.
  - apply Hp.
Qed.

Lemma wf_init : wf init_state.
Proof.
  split.
  - intros c1 c2 n [].
  - intros ws [].
  - intros n p. simpl. rewrite lookup_empty. discriminate.
  - assert (Hall : map_Forall (fun _ it => 0 <= value it)
                               (shop_items init_state)).
    { apply (bool_decide_unpack _). vm_compute. exact I. }
    intros i it. apply Hall.
Qed.

Lemma total_fst {A B : Type} (x : A * B) (a : A) (b : B) :
  Some x = Some (a, b) -> a = fst x.
Proof. now intros [= ->]. Qed.

Lemma total_snd {A B : Type} (x : A * B) (a : A) (b : B) :
  Some x = Some (a, b) -> b = snd x.
Proof. now intros [= ->]. Qed.

Section Preservation.
Variable cfg : Config.

Lemma on_connection_wf ws s : wf s -> wf (fst (on_connection ws s)).
Proof.
  intros [Hu Hn Hp Hs]. simpl.
  destruct (holds_shrink s (with_clients (JsMap.set ws None (clients s)) s))
    as [H1 H2].
  { intros c n Hh. unfold holds, JsMap.entries in *. simpl in Hh.
    apply In_set_other in Hh. destruct Hh as [Hh|Hh]; [discriminate|exact Hh]. }
  split; auto.
Qed.

Lemma on_close_wf ws s : wf s -> wf (fst (on_close ws s)).
Proof.
  intros [Hu Hn Hp Hs]. simpl.
  destruct (holds_shrink s (with_clients (JsMap.delete ws (clients s)) s))
    as [H1 H2].
  { intros c n Hh. unfold holds, JsMap.entries in *. simpl in Hh.
    now apply In_delete in Hh. }
  split; auto.
Qed.

Lemma on_setName_wf ws d s : wf s -> wf (fst (setName_result cfg ws d s)).
Proof.
  intros Hwf. pose proof (on_setName_unique cfg ws d s (wf_unique _ Hwf)) as Hu.
  pose proof (on_setName_outcome cfg ws d s) as Ho.
  destruct (setName_result cfg ws d s) as [s1 effs]. simpl in *.
  inversion Ho; subst; try exact Hwf.
  destruct Hwf as [_ Hn Hp Hs].
  match goal with H : clients s1 = _ |- _ => rename H into Hcl end.
  match goal with H : players s1 = _ |- _ => rename H into Hpl end.
  match goal with H : shop_items s1 = _ |- _ => rename H into Hsh end.
  match goal with H : claimed_name cfg d <> _ |- _ => rename H into Hne end.
  split; auto.
  - intros c Hh. unfold holds, JsMap.entries in Hh. rewrite Hcl in Hh.
    apply In_set_other in Hh. destruct Hh as [Hh|Hh].
    + injection Hh as _ E. now elim Hne.
    + exact (Hn c Hh).
  - intros m q. rewrite Hpl.
    destruct (players s !! claimed_name cfg d); [apply Hp|].
    rewrite lookup_insert. case_decide; [|apply Hp].
    intros [= <-]. unfold player_ok. simpl. lia.
  - unfold shop_ok. now rewrite Hsh.
Qed.

Lemma on_tap_wf n s s' effs :
  on_tap n s = Some (s', effs) -> wf s -> wf s'.
Proof.
  unfold on_tap. destruct (findPlayer n s) as [player|] eqn:Hf.
  2:{ now intros [= <- <-]. }
  destruct (findPlayer n (updatePlayerAfterTap (tap_value player) n s));
    [|discriminate].
  intros [= <- <-] Hwf. apply (wf_same_sessions s); auto.
  apply players_ok_alter; [|apply Hwf].
  intros q Hq [Hc Ht]. unfold findPlayer in Hf. rewrite Hf in Hq.
  injection Hq as <-. unfold player_ok. simpl. lia.
Qed.

Lemma on_buy_wf ws n d s s' effs :
  on_buy cfg ws n d s = Some (s', effs) -> wf s -> wf s'.
Proof.
  unfold on_buy.
  destruct (String_ (itemId_arg cfg d)) as [itemId|]; [|discriminate].
  destruct (shop_items s !! itemId) as [item|] eqn:Hi.
  2:{ now intros [= <- <-]. }
  destruct (findPlayer n s) as [player|] eqn:Hf; [|discriminate].
  destruct (coins player <? price item) eqn:Hlt.
  { now intros [= <- <-]. }
  match goal with
  | |- context [findPlayer n ?s1] => destruct (findPlayer n s1)
  end; [|discriminate].
  intros [= <- <-] Hwf. apply (wf_same_sessions s); auto.
  apply players_ok_alter; [|apply Hwf].
  intros q _ _. apply Z.ltb_ge in Hlt.
  pose proof (wf_players _ Hwf _ _ Hf) as [Hc Ht].
  pose proof (wf_shop _ Hwf _ _ Hi) as Hv.
  unfold player_ok. simpl. split; [lia|]. case_bool_decide; lia.
Qed.

Lemma on_chat_frame n d clk s :
  clients (fst (chat_result cfg n d clk s)) = clients s
  /\ players (fst (chat_result cfg n d clk s)) = players s
  /\ shop_items (fst (chat_result cfg n d clk s)) = shop_items s.
Proof.
  unfold chat_result, chat_checks. destruct (bool_decide (chat_text d = "")); [auto|].
  destruct (bool_decide (n = "admin") && startsWith "/" (chat_text d));
    [|simpl; auto].
  unfold admin_command.
  destruct (variant cfg); repeat case_bool_decide;
    try match goal with
        | |- context [target_of ?l] => destruct (target_of l)
        end;
    simpl; auto.
Qed.

Lemma on_chat_wf n d clk s : wf s -> wf (fst (chat_result cfg n d clk s)).
Proof.
  intros Hwf. destruct (on_chat_frame n d clk s) as (Hc & Hp & Hs).
  apply (wf_same_sessions s); auto.
  unfold players_ok. rewrite Hp. apply Hwf.
Qed.

Lemma on_message_wf ws r clk s s' effs :
  on_message cfg ws r clk s = Some (s', effs) -> wf s -> wf s'.
Proof.
  unfold on_message. destruct r as [| |d]; [now intros [= <- <-]|discriminate|].
  case_bool_decide.
  { intros E%on_setName_fst. subst s'. apply on_setName_wf. }
  destruct (JsMap.get ws (clients s)) as [[n|]|]; try now intros [= <- <-].
  case_bool_decide; [now intros [= <- <-]|].
  case_bool_decide; [apply on_tap_wf|].
  case_bool_decide; [apply on_buy_wf|].
  case_bool_decide; [|now intros [= <- <-]].
  intros E%on_chat_fst. subst s'. apply on_chat_wf.
Qed.

Lemma auto_loop_wf rows s :
  wf s ->
  wf (fold_left
        (fun acc r => if 0 <? snd r
                      then updatePlayerAfterAuto (snd r) (fst r) acc else acc)
        rows s).
Proof.
  revert s. induction rows as [|[n val] rows IH]; intros s Hwf; [exact Hwf|].
  simpl. apply IH. destruct (0 <? val) eqn:Hpos; [|exact Hwf].
  apply Z.ltb_lt in Hpos. apply (wf_same_sessions s); auto.
  apply players_ok_alter; [|apply Hwf].
  intros q _ [Hc Ht]. unfold player_ok. simpl. lia.
Qed.

Lemma on_tick_wf s : wf s -> wf (fst (on_tick s)).
Proof. intros Hwf. simpl. now apply auto_loop_wf. Qed.

Lemma on_upload_wf req s : wf s -> wf (fst (on_upload cfg req s)).
Proof.
  intros Hwf. unfold on_upload.
  destruct (file_ext req) as [e|]; [|exact Hwf].
  case_bool_decide; [exact Hwf|].
  match goal with |- context [negb ?b] => destruct b end; [|exact Hwf].
  simpl.
  match goal with |- context [findPlayer ?n s] =>
    destruct (findPlayer n s) as [player|] eqn:Hf end.
  - apply (wf_same_sessions s); auto.
    apply players_ok_alter; [|apply Hwf].
    intros q _ _. exact (wf_players _ Hwf _ _ Hf).
  - apply (wf_same_sessions s); auto.
    apply players_ok_create, Hwf.
Qed.

Lemma step_wf e s s' effs : step cfg e s = Some (s', effs) -> wf s -> wf s'.
Proof.
  destruct e as [ws|ws r clk|ws| |req|]; unfold step;
    try apply on_message_wf; intros E%total_fst; subst s'.
  - apply on_connection_wf.
  - apply on_close_wf.
  - apply on_tick_wf.
  - apply on_upload_wf.
  - auto.
Qed.

Lemma reachable_wf s : reachable cfg s -> wf s.
Proof.
  induction 1 as [|e s s' effs _ IH Hstep]; [apply wf_init|].
  eapply step_wf; eauto.
Qed.

End Preservation.

Lemma two_connections_reachable cfg : reachable cfg two_connections.
Proof.
  eapply (reachable_step cfg (Connection 2%nat)); [|reflexivity].
  eapply (reachable_step cfg (Connection 1%nat)); [|reflexivity].
  constructor.
Qed.

Lemma alice_state_reachable : reachable cfg_index alice_state.
Proof.
  eapply (reachable_step cfg_index
            (Message 1%nat (Parsed (setName_data (JStr "alice") JUndefined))
                     a_clock));
    [apply two_connections_reachable | reflexivity].
Qed.

Lemma admin_state_reachable : reachable cfg_index admin_state.
Proof.
  eapply (reachable_step cfg_index
            (Message 1%nat
               (Parsed (setName_data (JStr "admin") (JStr "secret"))) a_clock));
    [apply two_connections_reachable | reflexivity].
Qed.

(** ** C1: one holder per nickname *)

(** C1 (as amended).  From a reachable state, in a run of [setName] requests
    for one nickname: no nickname is held by two connections in any state of
    the run; at most one request is accepted; and when one is, every other
    request is answered [ok: false] with reason [inuse], or with reason
    [admin_auth] when the name is the reserved one and that request's
    credential is not the secret.  The run goes through all its requests
    unless the nickname field cannot be converted to a string, in which case
    the first request throws. *)
Theorem setName_same_nickname_one_holder cfg nick reqs s :
  reachable cfg s ->
  (forall k s' replies,
     run_setNames cfg nick (firstn k reqs) s = Some (s', replies) ->
     sessions_unique s')
  /\ (forall s' replies,
        run_setNames cfg nick reqs s = Some (s', replies) ->
        (forall i j e e',
           replies !! i = Some e -> replies !! j = Some e' ->
           is_accept e = true -> is_accept e' = true -> i = j)
        /\ (forall i e,
              replies !! i = Some e -> is_accept e = true ->
              forall j ws token, j <> i -> reqs !! j = Some (ws, token) ->
                rejected_reply cfg nick replies j ws token))
  /\ (String_ (nickname_arg cfg (setName_data nick JUndefined)) <> None ->
      forall k, is_Some (run_setNames cfg nick (firstn k reqs) s))
  /\ (String_ (nickname_arg cfg (setName_data nick JUndefined)) = None ->
      reqs <> [] -> run_setNames cfg nick reqs s = None).
Proof.
  intros Hr. pose proof (wf_unique _ (reachable_wf cfg s Hr)) as Hu.
  split; [|split; [|split]].
  - intros k s' replies E%run_setNames_Some.
    change s' with (fst (s', replies)). rewrite E.
    now apply run_results_prefix_unique.
  - intros s' replies E%run_setNames_Some.
    change replies with (snd (s', replies)). rewrite E. clear E. split.
    + intros i j e e' Hi Hj Ha Ha'.
      destruct (decide (i = j)) as [|Hne]; [assumption|exfalso].
      assert (Hlt : (j < length reqs)%nat).
      { rewrite <- (run_results_length cfg nick reqs s).
        apply lookup_lt_is_Some. eauto. }
      apply lookup_lt_is_Some in Hlt. destruct Hlt as [[ws token] Hreq].
      assert (Hji : j <> i) by congruence.
      destruct (run_results_others cfg nick reqs s i e Hi Ha j ws token Hji Hreq)
        as [Hq|[Hq _]]; rewrite Hq in Hj; injection Hj as <-; discriminate.
    + intros i e Hi Ha j ws token Hji Hreq.
      now apply (run_results_others cfg nick reqs s i e).
  - intros Hc k. rewrite run_setNames_returns by exact Hc. eauto.
  - intros Hc Hne. destruct reqs as [|[ws token] reqs]; [congruence|].
    cbn [run_setNames].
    now rewrite (proj2 (on_setName_throws cfg ws (setName_data nick token) s) Hc).
Qed.

Lemma setName_same_nickname_one_holder_witness :
  exists s' replies,
    run_setNames cfg_index (JStr "alice")
      [(1%nat, JUndefined); (2%nat, JUndefined)] two_connections
    = Some (s', replies)
    /\ sessions_unique s'
    /\ rejected_reply cfg_index (JStr "alice") replies 1 2%nat JUndefined.
Proof.
  destruct (setName_same_nickname_one_holder cfg_index (JStr "alice")
              [(1%nat, JUndefined); (2%nat, JUndefined)] two_connections
              (two_connections_reachable cfg_index)) as (Hu & Hrun & _).
  eexists _, _. split; [reflexivity|]. split.
  - eapply (Hu 2%nat). reflexivity.
  - destruct (Hrun _ _ eq_refl) as [_ Hrej].
    eapply (Hrej 0%nat); [reflexivity | reflexivity | lia | reflexivity].
Defined.

(** C1 as stated fails for the reserved name: connection 1 claims "admin"
    with the secret and is accepted; connection 2 then asks for the same
    nickname with another credential and is answered [admin_auth], not
    [inuse]. *)
Lemma setName_other_request_not_inuse :
  exists s' replies,
    run_setNames cfg_index (JStr "admin")
      [(1%nat, JStr "secret"); (2%nat, JStr "guess")] two_connections
    = Some (s', replies)
    /\ (exists e, replies !! 0%nat = Some e /\ is_accept e = true)
    /\ replies !! 1%nat = Some [setName_reject 2%nat "admin_auth"]
    /\ replies !! 1%nat <> Some [setName_reject 2%nat "inuse"].
Proof.
  eexists _, _. split; [reflexivity|]. split; [|split].
  - eexists. split; reflexivity.
  - reflexivity.
  - discriminate.
Qed.

(** ** C2: the order of the checks of [setName] *)

Lemma slice_0_length n s : (String.length (slice_0 n s) <= n)%nat.
Proof.
  revert s. induction n as [|n IH]; intros [|c s]; simpl; try lia.
  specialize (IH s). lia.
Qed.

Lemma claimed_name_length cfg d : (String.length (claimed_name cfg d) <= 32)%nat.
Proof.
  unfold claimed_name. destruct (String_ (nickname_arg cfg d)).
  - apply slice_0_length.
  - simpl. lia.
Qed.

Lemma claimed_name_string cfg d raw :
  d_nickname d = JStr raw -> claimed_name cfg d = slice_0 32 (trim raw).
Proof.
  intros Hn. unfold claimed_name, nickname_arg, Js.or. rewrite Hn.
  destruct (variant cfg); [reflexivity|]. simpl.
  case_bool_decide; [now subst raw|reflexivity].
Qed.

Lemma nickname_arg_string cfg d raw :
  d_nickname d = JStr raw -> String_ (nickname_arg cfg d) = Some raw.
Proof.
  intros Hn. unfold nickname_arg, Js.or. rewrite Hn.
  destruct (variant cfg); [reflexivity|]. simpl.
  case_bool_decide; [now subst raw|reflexivity].
Qed.

(** C2 (as amended).  The handler first converts the nickname field to a
    string ([nickname || ''] in part_000), which is the field itself when it
    is a string; if the conversion throws, the handler throws and nothing
    else happens.  Otherwise the name asked for is the converted field
    trimmed and then cut to 32 characters, and the handler answers [empty]
    for an empty name; else [admin_auth] for the reserved name with a
    credential other than the secret; else [banned] for a banned name; else
    [inuse] when any connection, the requester included, holds the name; in
    all four cases the state is unchanged.  Otherwise it creates the player
    record (coins 0, tap value 1, auto income 0, taps 0, no icon) if there
    is none, binds the session and answers [ok: true]. *)
Theorem setName_validation_order cfg ws d s :
  (String_ (nickname_arg cfg d) = None -> on_setName cfg ws d s = None)
  /\ (forall raw, d_nickname d = JStr raw ->
      String_ (nickname_arg cfg d) = Some raw)
  /\ (forall raw, String_ (nickname_arg cfg d) = Some raw ->
      let n := slice_0 32 (trim raw) in
      exists r, on_setName cfg ws d s = Some r
      /\ (String.length n <= 32)%nat
      /\ (n = "" -> r = (s, [setName_reject ws "empty"]))
      /\ (n <> "" -> toLowerCase n = "admin" ->
          d_adminToken d <> JStr (ADMIN_TOKEN cfg) ->
          r = (s, [setName_reject ws "admin_auth"]))
      /\ (n <> "" -> credential_ok cfg n (d_adminToken d) ->
          is_Some (bans s !! n) ->
          r = (s, [setName_reject ws "banned"]))
      /\ (n <> "" -> credential_ok cfg n (d_adminToken d) ->
          bans s !! n = None -> (exists c, holds s c n) ->
          r = (s, [setName_reject ws "inuse"]))
      /\ (n <> "" -> credential_ok cfg n (d_adminToken d) ->
          bans s !! n = None -> (forall c, ~ holds s c n) ->
          r = (fst r, [SendTo ws (MSetNameResult true (Some n) None);
                       broadcastPlayersAndRanks (fst r)])
          /\ clients (fst r) = JsMap.set ws (Some n) (clients s)
          /\ players (fst r) =
               match players s !! n with
               | Some _ => players s
               | None => <[n := mkPlayer 0 1 0 0 None]> (players s)
               end
          /\ shop_items (fst r) = shop_items s
          /\ chat (fst r) = chat s
          /\ bans (fst r) = bans s)).
Proof.
  split; [apply on_setName_throws|].
  split; [apply nickname_arg_string|].
  intros raw E n. destruct (on_setName_returns cfg ws d s raw E) as [-> Hn].
  exists (setName_result cfg ws d s). split; [reflexivity|].
  subst n. rewrite <- Hn. clear raw E Hn.
  pose proof (on_setName_outcome cfg ws d s) as Ho.
  destruct (setName_result cfg ws d s) as [s1 effs]. simpl in Ho. simpl fst.
  split; [apply claimed_name_length|].
  assert (Hcred : forall P : Prop,
            credential_ok cfg (claimed_name cfg d) (d_adminToken d) ->
            toLowerCase (claimed_name cfg d) = "admin" ->
            d_adminToken d <> JStr (ADMIN_TOKEN cfg) -> P).
  { intros P Hc Hl Ht. elim Ht. now apply Hc. }
  assert (Hfree : forall P : Prop,
            inUse (claimed_name cfg d) s = false ->
            (exists c, holds s c (claimed_name cfg d)) -> P).
  { intros P Hf Hex. apply inUse_true in Hex. congruence. }
  assert (Hheld : forall P : Prop,
            inUse (claimed_name cfg d) s = true ->
            (forall c, ~ holds s c (claimed_name cfg d)) -> P).
  { intros P Hf Hall. apply inUse_false in Hall. congruence. }
  inversion Ho; subst; unfold findBan in *;
    repeat split; intros; try reflexivity;
    try congruence; try assumption;
    exfalso;
    first [ now apply (Hcred False)
          | now apply (Hfree False)
          | now apply (Hheld False)
          | match goal with
            | H : is_Some (bans _ !! _), E : bans _ !! _ = None |- _ =>
              rewrite E in H; destruct H; discriminate
            end ].
Qed.

(** C2 as stated fails when the requester itself holds the name: no other
    connection holds "alice", the name is neither empty, reserved nor
    banned, and the request of connection 1 is answered [inuse]. *)
Lemma setName_own_name_inuse :
  let d := setName_data (JStr "alice") JUndefined in
  holds alice_state 1%nat "alice"
  /\ (forall c, c <> 1%nat -> ~ holds alice_state c "alice")
  /\ claimed_name cfg_index d = "alice"
  /\ toLowerCase "alice" <> "admin"
  /\ bans alice_state !! "alice" = None
  /\ on_setName cfg_index 1%nat d alice_state
     = Some (alice_state, [setName_reject 1%nat "inuse"]).
Proof.
  repeat split; try reflexivity; try discriminate.
  - now left.
  - intros c Hc [E|[E|[]]]; injection E as <-; try discriminate. now elim Hc.
Qed.

(** A nickname that cannot be converted: the handler throws in both
    revisions. *)
Lemma setName_object_nickname_throws :
  let d := setName_data (JObject None) JUndefined in
  on_message cfg_index 1%nat (Parsed d) a_clock two_connections = None
  /\ on_message cfg_part 1%nat (Parsed d) a_clock two_connections = None.
Proof. split; reflexivity. Qed.

(** ** C3: the invariant of the player records *)

(** C3.  In every state the server reaches from an empty database, and
    after every further operation (a claim, a tap, a purchase, a tick, an
    icon upload, or any other event), every player record has [coins >= 0]
    and [tap_value >= 1]. *)
Theorem reachable_players_ok cfg s :
  reachable cfg s ->
  (forall n p, players s !! n = Some p -> 0 <= coins p /\ 1 <= tap_value p)
  /\ (forall e s' effs, step cfg e s = Some (s', effs) ->
      forall n p, players s' !! n = Some p -> 0 <= coins p /\ 1 <= tap_value p).
Proof.
  intros Hr. pose proof (reachable_wf cfg s Hr) as Hwf. split.
  - exact (wf_players _ Hwf).
  - intros e s' effs Hstep. exact (wf_players _ (step_wf cfg e s s' effs Hstep Hwf)).
Qed.

Lemma reachable_players_ok_witness :
  exists p, players alice_state !! "alice" = Some p
            /\ 0 <= coins p /\ 1 <= tap_value p.
Proof.
  eexists. split; [reflexivity|].
  exact (proj1 (reachable_players_ok cfg_index alice_state alice_state_reachable)
               "alice" _ eq_refl).
Defined.

(** ** Named connections *)

Lemma reachable_named cfg s ws nick :
  reachable cfg s -> JsMap.get ws (clients s) = Some (Some nick) ->
  named s ws nick.
Proof.
  intros Hr Hg. split; [exact Hg|]. intros ->.
  exact (wf_named _ (reachable_wf cfg s Hr) ws (get_holds _ _ _ Hg)).
Qed.

Section Dispatch.
Variable cfg : Config.

Lemma on_message_tap ws nick d clk s :
  named s ws nick -> d_type d = JStr "tap" ->
  on_message cfg ws (Parsed d) clk s = on_tap nick s.
Proof.
  intros [Hg Hne] Ht. unfold on_message. rewrite Ht, Hg.
  rewrite bool_decide_eq_false_2 by discriminate.
  rewrite (bool_decide_eq_false_2 (nick = "")) by exact Hne.
  now rewrite bool_decide_eq_true_2.
Qed.

Lemma on_message_buy ws nick d clk s :
  named s ws nick -> d_type d = JStr "buy" ->
  on_message cfg ws (Parsed d) clk s = on_buy cfg ws nick d s.
Proof.
  intros [Hg Hne] Ht. unfold on_message. rewrite Ht, Hg.
  rewrite bool_decide_eq_false_2 by discriminate.
  rewrite (bool_decide_eq_false_2 (nick = "")) by exact Hne.
  rewrite bool_decide_eq_false_2 by discriminate.
  now rewrite bool_decide_eq_true_2.
Qed.

Lemma on_message_on_chat ws nick d clk s :
  named s ws nick -> d_type d = JStr "chat" ->
  on_message cfg ws (Parsed d) clk s = on_chat cfg nick d clk s.
Proof.
  intros [Hg Hne] Ht. unfold on_message. rewrite Ht, Hg.
  rewrite bool_decide_eq_false_2 by discriminate.
  rewrite (bool_decide_eq_false_2 (nick = "")) by exact Hne.
  rewrite bool_decide_eq_false_2 by discriminate.
  rewrite bool_decide_eq_false_2 by discriminate.
  now rewrite bool_decide_eq_true_2.
Qed.

Lemma on_message_chat ws nick d clk s :
  named s ws nick -> d_type d = JStr "chat" -> chat_text d <> "" ->
  on_message cfg ws (Parsed d) clk s = Some (chat_result cfg nick d clk s).
Proof.
  intros Hn Ht Hx. rewrite (on_message_on_chat ws nick d clk s Hn Ht).
  now apply on_chat_text.
Qed.

Lemma on_message_setName ws d clk s :
  d_type d = JStr "setName" ->
  on_message cfg ws (Parsed d) clk s = on_setName cfg ws d s.
Proof.
  intros Ht. unfold on_message. now rewrite bool_decide_eq_true_2.
Qed.

End Dispatch.

(** ** C4: taps *)

Lemma on_tap_once nick s p :
  players s !! nick = Some p ->
  on_tap nick s =
    Some (updatePlayerAfterTap (tap_value p) nick s,
          [Broadcast (MTap nick (coins p + tap_value p) (taps p + 1)
                           (tap_value p))]).
Proof.
  intros Hp. unfold on_tap, findPlayer. rewrite Hp. simpl.
  rewrite lookup_alter_eq, Hp. reflexivity.
Qed.

Lemma run_taps_totals cfg ws nick d clk s p N :
  named s ws nick -> d_type d = JStr "tap" -> players s !! nick = Some p ->
  exists s',
    run_taps cfg N ws d clk s =
      Some (s', map (fun k => Broadcast
                      (MTap nick (coins p + Z.of_nat k * tap_value p)
                            (taps p + Z.of_nat k) (tap_value p)))
                    (seq 1 N))
    /\ players s' =
         <[nick := mkPlayer (coins p + Z.of_nat N * tap_value p) (tap_value p)
                            (auto_per_sec p) (taps p + Z.of_nat N) (icon p)]>
           (players s)
    /\ clients s' = clients s /\ shop_items s' = shop_items s
    /\ chat s' = chat s /\ bans s' = bans s.
Proof.
  revert s p. induction N as [|N IH]; intros s p Hn Ht Hp.
  - exists s. simpl. repeat split; try reflexivity.
    symmetry. apply insert_id. rewrite Hp. f_equal.
    destruct p; simpl. f_equal; lia.
  - cbn [run_taps]. rewrite (on_message_tap cfg ws nick d clk s Hn Ht).
    rewrite (on_tap_once nick s p Hp).
    set (s1 := updatePlayerAfterTap (tap_value p) nick s).
    set (p1 := mkPlayer (coins p + tap_value p) (tap_value p) (auto_per_sec p)
                        (taps p + 1) (icon p)).
    assert (Hn1 : named s1 ws nick) by exact Hn.
    assert (Hp1 : players s1 !! nick = Some p1).
    { subst s1 p1. simpl. now rewrite lookup_alter_eq, Hp. }
    destruct (IH s1 p1 Hn1 Ht Hp1) as (s' & Hrun & Hpl & Hcl & Hsh & Hch & Hbn).
    exists s'. rewrite Hrun. repeat split; try assumption.
    + f_equal. f_equal. cbn [seq map app]. f_equal.
      * f_equal. f_equal; lia.
      * rewrite <- (seq_shift N 1), map_map. apply map_ext. intros k.
        subst p1. simpl. f_equal. f_equal; lia.
    + rewrite Hpl. subst s1 p1. simpl. apply map_eq. intros m.
      rewrite !lookup_insert. case_decide.
      * f_equal. f_equal; lia.
      * now rewrite lookup_alter_ne.
Qed.

(** C4.  For a connection named [nick] whose player record [p] exists, and
    as long as the counters stay integers that JavaScript numbers hold
    exactly (at most [MAX_SAFE_INTEGER] in magnitude, before and after), [N]
    taps in a row succeed; they broadcast the running totals; afterwards the
    record has [coins p + N * tap_value p] coins and [taps p + N] taps, its
    other fields are those of [p], and nothing else in the state has
    changed. *)
Theorem taps_accumulate cfg ws nick d clk s p N :
  named s ws nick -> d_type d = JStr "tap" -> players s !! nick = Some p ->
  player_safe p ->
  player_safe (mkPlayer (coins p + Z.of_nat N * tap_value p) (tap_value p)
                        (auto_per_sec p) (taps p + Z.of_nat N) (icon p)) ->
  exists s',
    run_taps cfg N ws d clk s =
      Some (s', map (fun k => Broadcast
                      (MTap nick (coins p + Z.of_nat k * tap_value p)
                            (taps p + Z.of_nat k) (tap_value p)))
                    (seq 1 N))
    /\ players s' =
         <[nick := mkPlayer (coins p + Z.of_nat N * tap_value p) (tap_value p)
                            (auto_per_sec p) (taps p + Z.of_nat N) (icon p)]>
           (players s)
    /\ clients s' = clients s /\ shop_items s' = shop_items s
    /\ chat s' = chat s /\ bans s' = bans s.
Proof.
  intros Hn Ht Hp _ _. now apply run_taps_totals.
Qed.

Lemma taps_accumulate_witness :
  exists s',
    run_taps cfg_index 3 1%nat
      (mkData (JStr "tap") JUndefined JUndefined JUndefined JUndefined)
      a_clock alice_state
    = Some (s', [Broadcast (MTap "alice" 1 1 1); Broadcast (MTap "alice" 2 2 1);
                 Broadcast (MTap "alice" 3 3 1)])
    /\ players s' !! "alice" = Some (mkPlayer 3 1 0 3 None).
Proof.
  destruct (taps_accumulate cfg_index 1%nat "alice"
              (mkData (JStr "tap") JUndefined JUndefined JUndefined JUndefined)
              a_clock alice_state (new_player None) 3)
    as (s' & Hrun & Hpl & _).
  - split; [reflexivity | discriminate].
  - reflexivity.
  - reflexivity.
  - unfold player_safe, safe, MAX_SAFE_INTEGER. simpl. lia.
  - unfold player_safe, safe, MAX_SAFE_INTEGER. simpl. lia.
  - exists s'. split; [exact Hrun|]. rewrite Hpl. apply lookup_insert_eq.
Defined.

(** ** C5 and C6: purchases *)

Lemma on_buy_enough cfg ws nick d s i item p :
  String_ (itemId_arg cfg d) = Some i -> shop_items s !! i = Some item ->
  players s !! nick = Some p -> price item <= coins p ->
  on_buy cfg ws nick d s =
    Some (updatePlayerCoinsTap (bought p item) nick s,
          [SendTo ws (MBuyResult true
             (Some (mkUser nick (coins (bought p item))
                           (tap_value (bought p item))
                           (auto_per_sec (bought p item)))) None);
           broadcastPlayersAndRanks
             (updatePlayerCoinsTap (bought p item) nick s)]).
Proof.
  intros Hs Hi Hp Hle. unfold on_buy, findPlayer. rewrite Hs, Hi, Hp.
  apply Z.ltb_ge in Hle. rewrite Hle. simpl.
  rewrite lookup_alter_eq, Hp. reflexivity.
Qed.

Lemma on_buy_short cfg ws nick d s i item p :
  String_ (itemId_arg cfg d) = Some i -> shop_items s !! i = Some item ->
  players s !! nick = Some p -> coins p < price item ->
  on_buy cfg ws nick d s =
    Some (s, [SendTo ws (MBuyResult false None (Some "not_enough"))]).
Proof.
  intros Hs Hi Hp Hlt. unfold on_buy, findPlayer. rewrite Hs, Hi, Hp.
  apply Z.ltb_lt in Hlt. now rewrite Hlt.
Qed.

Lemma on_buy_unknown cfg ws nick d s i :
  String_ (itemId_arg cfg d) = Some i -> shop_items s !! i = None ->
  on_buy cfg ws nick d s =
    Some (s, [SendTo ws (MBuyResult false None (Some "invalid"))]).
Proof. intros Hs Hi. unfold on_buy. now rewrite Hs, Hi. Qed.

Lemma on_buy_throws cfg ws nick d s :
  String_ (itemId_arg cfg d) = None -> on_buy cfg ws nick d s = None.
Proof. intros Hs. unfold on_buy. now rewrite Hs. Qed.

(** C5.  A purchase by a named connection of a catalog item whose price
    exceeds the player's coins is answered [buyResult] with [ok: false] and
    reason [not_enough], and the state is unchanged; and whatever the item,
    a purchase leaves non-negative coins non-negative.  The item is the one
    whose id is the [itemId] field converted to a string; a purchase whose
    field cannot be converted throws before it looks for an item. *)
Theorem buy_not_enough cfg ws nick d clk s p :
  named s ws nick -> d_type d = JStr "buy" -> players s !! nick = Some p ->
  (forall i item,
     String_ (itemId_arg cfg d) = Some i -> shop_items s !! i = Some item ->
     coins p < price item ->
     on_message cfg ws (Parsed d) clk s =
       Some (s, [SendTo ws (MBuyResult false None (Some "not_enough"))]))
  /\ (String_ (itemId_arg cfg d) <> None ->
      exists s' effs p',
        on_message cfg ws (Parsed d) clk s = Some (s', effs)
        /\ players s' !! nick = Some p'
        /\ (0 <= coins p -> 0 <= coins p'))
  /\ (String_ (itemId_arg cfg d) = None ->
      on_message cfg ws (Parsed d) clk s = None).
Proof.
  intros Hn Ht Hp. rewrite (on_message_buy cfg ws nick d clk s Hn Ht).
  split; [|split].
  - intros i item Hs Hi Hlt. now apply (on_buy_short cfg ws nick d s i item p).
  - destruct (String_ (itemId_arg cfg d)) as [i|] eqn:Hs; [intros _|congruence].
    destruct (shop_items s !! i) as [item|] eqn:Hi.
    + destruct (Z_lt_le_dec (coins p) (price item)) as [Hlt|Hle].
      * rewrite (on_buy_short cfg ws nick d s i item p Hs Hi Hp Hlt).
        eexists s, _, p. split; [reflexivity|]. auto.
      * rewrite (on_buy_enough cfg ws nick d s i item p Hs Hi Hp Hle).
        eexists _, _, (bought p item). split; [reflexivity|]. split.
        -- simpl. now rewrite lookup_alter_eq, Hp.
        -- simpl. lia.
    + rewrite (on_buy_unknown cfg ws nick d s i Hs Hi). eexists s, _, p.
      split; [reflexivity|]. auto.
  - apply on_buy_throws.
Qed.

Lemma buy_not_enough_witness :
  on_message cfg_index 1%nat (Parsed (buy_data "cheapUp")) a_clock alice_state
  = Some (alice_state,
          [SendTo 1%nat (MBuyResult false None (Some "not_enough"))]).
Proof.
  refine (proj1 (buy_not_enough cfg_index 1%nat "alice" (buy_data "cheapUp")
                   a_clock alice_state (new_player None) _ _ _)
                "cheapUp" (mkItem "tap +1" 10 "tap" 1) _ _ _).
  - split; [reflexivity | discriminate].
  - reflexivity.
  - reflexivity.
  - reflexivity.
  - reflexivity.
  - simpl. lia.
Defined.

(** C6.  A purchase by a named connection of a catalog item the player can
    pay succeeds, as long as the counters stay integers that JavaScript
    numbers hold exactly (at most [MAX_SAFE_INTEGER] in magnitude, before and
    after): coins go down by the price; an item of kind [tap] raises
    [tap_value] by its value and leaves [auto_per_sec]; an item of kind
    [auto] raises [auto_per_sec] by its value and leaves [tap_value]; [taps]
    and [icon] stay; no other record and no other part of the state
    changes.  The item is the one whose id is the [itemId] field converted
    to a string. *)
Theorem buy_effect_by_kind cfg ws nick d clk s i item p :
  named s ws nick -> d_type d = JStr "buy" ->
  String_ (itemId_arg cfg d) = Some i -> shop_items s !! i = Some item ->
  players s !! nick = Some p -> price item <= coins p ->
  player_safe p -> item_safe item -> player_safe (bought p item) ->
  exists s' p',
    on_message cfg ws (Parsed d) clk s =
      Some (s', [SendTo ws (MBuyResult true
                   (Some (mkUser nick (coins p') (tap_value p')
                                 (auto_per_sec p'))) None);
                 broadcastPlayersAndRanks s'])
    /\ players s' = <[nick := p']> (players s)
    /\ coins p' = coins p - price item
    /\ (item_type item = "tap" ->
        tap_value p' = tap_value p + value item
        /\ auto_per_sec p' = auto_per_sec p)
    /\ (item_type item = "auto" ->
        auto_per_sec p' = auto_per_sec p + value item
        /\ tap_value p' = tap_value p)
    /\ taps p' = taps p /\ icon p' = icon p
    /\ clients s' = clients s /\ shop_items s' = shop_items s
    /\ chat s' = chat s /\ bans s' = bans s.
Proof.
  intros Hn Ht Hs Hi Hp Hle _ _ _.
  rewrite (on_message_buy cfg ws nick d clk s Hn Ht).
  rewrite (on_buy_enough cfg ws nick d s i item p Hs Hi Hp Hle).
  exists (updatePlayerCoinsTap (bought p item) nick s), (bought p item).
  split; [reflexivity|]. split.
  { simpl. apply map_eq. intros m. rewrite lookup_alter, lookup_insert.
    case_decide; [|reflexivity]. now rewrite Hp. }
  split; [reflexivity|]. split.
  { intros Hk. simpl. rewrite Hk. split; reflexivity. }
  split.
  { intros Hk. simpl. rewrite Hk. split; reflexivity. }
  repeat split; reflexivity.
Qed.

Lemma buy_effect_by_kind_witness :
  exists s',
    on_message cfg_index 1%nat (Parsed (buy_data "cheapUp")) a_clock
               alice_ten_taps
    = Some (s', [SendTo 1%nat (MBuyResult true
                   (Some (mkUser "alice" 0 2 0)) None);
                 broadcastPlayersAndRanks s'])
    /\ players s' !! "alice" = Some (mkPlayer 0 2 0 10 None).
Proof.
  destruct (buy_effect_by_kind cfg_index 1%nat "alice" (buy_data "cheapUp")
              a_clock alice_ten_taps "cheapUp" (mkItem "tap +1" 10 "tap" 1)
              (mkPlayer 10 1 0 10 None))
    as (s' & p' & Hrun & Hpl & Hc & Htap & _ & Ht & Hi & _).
  - split; [reflexivity | discriminate].
  - reflexivity.
  - reflexivity.
  - reflexivity.
  - reflexivity.
  - simpl. lia.
  - unfold player_safe, safe, MAX_SAFE_INTEGER. simpl. lia.
  - unfold item_safe, safe, MAX_SAFE_INTEGER. simpl. lia.
  - unfold player_safe, safe, MAX_SAFE_INTEGER. simpl. lia.
  - destruct (Htap eq_refl) as [Htv Hau]. simpl in Hc, Htv, Hau, Ht, Hi.
    exists s'. destruct p'. simpl in *. subst. split; [exact Hrun|].
    rewrite Hpl. apply lookup_insert_eq.
Defined.

(** ** Facts on strings *)

Lemma app_cons (c : ascii) (s t : string) :
  String c s +:+ t = String c (s +:+ t).
Proof. reflexivity. Qed.

Lemma app_empty_l (t : string) : "" +:+ t = t.
Proof. reflexivity. Qed.

Lemma app_empty_r (s : string) : s +:+ "" = s.
Proof.
  induction s as [|c s IH]; [reflexivity|]. now rewrite app_cons, IH.
Qed.

Lemma app_assoc_s (a b c : string) : (a +:+ b) +:+ c = a +:+ (b +:+ c).
Proof.
  induction a as [|x a IH]; [reflexivity|]. now rewrite !app_cons, IH.
Qed.

Lemma rev_app_app (s t : string) :
  String.rev_app s t = String.rev s +:+ t.
Proof.
  unfold String.rev. revert t. induction s as [|c s IH]; intros t; simpl.
  - reflexivity.
  - rewrite (IH (String c t)), (IH (String c "")).
    now rewrite app_assoc_s.
Qed.

Lemma rev_app_rev_app (s t u : string) :
  String.rev_app (String.rev_app s t) u = String.rev_app t (s +:+ u).
Proof.
  revert t. induction s as [|c s IH]; intros t; simpl; [reflexivity|].
  now rewrite IH.
Qed.

Lemma rev_involutive (s : string) : String.rev (String.rev s) = s.
Proof.
  unfold String.rev. rewrite rev_app_rev_app. simpl. apply app_empty_r.
Qed.

Lemma rev_cons (c : ascii) (s : string) :
  String.rev (String c s) = String.rev s +:+ String c "".
Proof. unfold String.rev at 1. simpl. apply rev_app_app. Qed.

Lemma rev_app_snoc (c : ascii) (s t : string) :
  String.rev_app (s +:+ String c "") t = String c (String.rev_app s t).
Proof.
  revert t. induction s as [|x s IH]; intros t; [reflexivity|].
  rewrite app_cons. simpl. apply IH.
Qed.

Lemma rev_snoc (c : ascii) (s : string) :
  String.rev (s +:+ String c "") = String c (String.rev s).
Proof. apply rev_app_snoc. Qed.

Lemma rev_length (s : string) : String.length (String.rev s) = String.length s.
Proof.
  unfold String.rev.
  assert (H : forall t, String.length (String.rev_app s t)
                        = (String.length s + String.length t)%nat).
  { induction s as [|c s IH]; intros t; simpl; [reflexivity|].
    rewrite IH. simpl. lia. }
  rewrite H. simpl. lia.
Qed.

Lemma trimStart_length (s : string) :
  (String.length (trimStart s) <= String.length s)%nat.
Proof.
  induction s as [|c s IH]; simpl; [lia|].
  destruct (is_space c); simpl; lia.
Qed.

Lemma trim_length (s : string) :
  (String.length (trim s) <= String.length s)%nat.
Proof.
  unfold trim, trimEnd. rewrite rev_length.
  pose proof (trimStart_length (String.rev (trimStart s))) as H1.
  rewrite rev_length in H1. pose proof (trimStart_length s). lia.
Qed.

Lemma trimStart_idem (s : string) : trimStart (trimStart s) = trimStart s.
Proof.
  induction s as [|c s IH]; simpl; [reflexivity|].
  destruct (is_space c) eqn:Hc; [exact IH|]. simpl. now rewrite Hc.
Qed.

Lemma trimEnd_idem (s : string) : trimEnd (trimEnd s) = trimEnd s.
Proof.
  unfold trimEnd. now rewrite rev_involutive, trimStart_idem.
Qed.

Lemma trimStart_snoc (s : string) (c : ascii) :
  is_space c = false ->
  exists w, trimStart (s +:+ String c "") = w +:+ String c "".
Proof.
  intros Hc. induction s as [|x s IH].
  - rewrite app_empty_l. simpl. rewrite Hc. now exists "".
  - rewrite app_cons. simpl.
    destruct (is_space x); [exact IH|]. now exists (String x s).
Qed.

Lemma trimStart_head (s : string) :
  trimStart s = ""
  \/ exists c t, trimStart s = String c t /\ is_space c = false.
Proof.
  induction s as [|c s IH]; simpl; [now left|].
  destruct (is_space c) eqn:Hc; [exact IH|]. right. now exists c, s.
Qed.

Lemma trim_idem (s : string) : trim (trim s) = trim s.
Proof.
  unfold trim. destruct (trimStart_head s) as [E|(c & t & E & Hc)].
  - rewrite E. reflexivity.
  - rewrite E.
    assert (Hhead : exists y, trimEnd (String c t) = String c y).
    { unfold trimEnd. rewrite rev_cons.
      destruct (trimStart_snoc (String.rev t) c Hc) as [w ->].
      rewrite rev_snoc. eauto. }
    destruct Hhead as [y Hy].
    assert (Hts : trimStart (trimEnd (String c t)) = trimEnd (String c t)).
    { rewrite Hy. simpl. now rewrite Hc. }
    rewrite Hts. apply trimEnd_idem.
Qed.

(** ** C7: the text of a chat message *)

Section Chat.
Variable cfg : Config.

Lemma chat_text_trimmed d : trim (chat_text d) = chat_text d.
Proof.
  unfold chat_text. destruct (String_ (Js.or (d_text d) (JStr ""))).
  - apply trim_idem.
  - reflexivity.
Qed.

Lemma chat_text_length d : (String.length (chat_text d) <= 500)%nat.
Proof.
  unfold chat_text. destruct (String_ (Js.or (d_text d) (JStr ""))) as [raw|].
  - pose proof (trim_length (slice_0 500 raw)).
    pose proof (slice_0_length 500 raw). lia.
  - simpl. lia.
Qed.

Lemma text_arg_string d raw :
  d_text d = JStr raw -> String_ (Js.or (d_text d) (JStr "")) = Some raw.
Proof.
  intros ->. unfold Js.or. simpl. case_bool_decide; [now subst raw|reflexivity].
Qed.

Lemma slash_nonempty x : startsWith "/" x = true -> x <> "".
Proof. intros Hs ->. discriminate. Qed.

Lemma on_chat_empty nick d clk s :
  chat_text d = "" -> chat_result cfg nick d clk s = (s, []).
Proof. intros He. unfold chat_result, chat_checks. now rewrite He. Qed.

Lemma on_chat_normal nick d clk s :
  chat_text d <> "" ->
  (nick = "admin" -> startsWith "/" (chat_text d) = false) ->
  chat_result cfg nick d clk s = normal_chat nick (chat_text d) clk s.
Proof.
  intros Hne Hcmd. unfold chat_result, chat_checks.
  rewrite bool_decide_eq_false_2 by exact Hne.
  case_bool_decide as Ha; simpl; [|reflexivity].
  now rewrite (Hcmd Ha).
Qed.

Lemma admin_command_chat text s r :
  admin_command cfg text s = Some r -> chat (fst r) = chat s.
Proof.
  unfold admin_command.
  destruct (variant cfg); repeat case_bool_decide;
    try match goal with
        | |- context [target_of ?l] => destruct (target_of l)
        end;
    intros [= <-]; reflexivity.
Qed.

Lemma on_chat_cases nick d clk s :
  chat (fst (chat_result cfg nick d clk s)) = chat s
  \/ chat_result cfg nick d clk s = normal_chat nick (chat_text d) clk s.
Proof.
  unfold chat_result, chat_checks. case_bool_decide; [now left|].
  destruct (if bool_decide (nick = "admin") && startsWith "/" (chat_text d)
            then admin_command cfg (chat_text d) s else None) as [r|] eqn:Hc;
    [left|now right].
  destruct (bool_decide (nick = "admin") && startsWith "/" (chat_text d));
    [|discriminate].
  now apply (admin_command_chat (chat_text d) s).
Qed.

End Chat.

(** C7 (as amended).  The handler converts the text field ([text || ''])
    to a string, which is the field itself when it is a string; if the
    conversion throws, the handler throws and nothing else happens.
    Otherwise the text is the converted field cut to 500 characters first
    and trimmed after that.  If the result is empty, a message from a named
    connection is dropped: the state is unchanged and nothing is sent.
    Otherwise, unless it is a command of the administrator, it is stored and
    broadcast with exactly that text; and no row of another text is ever
    stored. *)
Theorem chat_text_cut_then_trimmed cfg ws nick d clk s :
  named s ws nick -> d_type d = JStr "chat" ->
  (String_ (Js.or (d_text d) (JStr "")) = None ->
   on_message cfg ws (Parsed d) clk s = None)
  /\ (forall raw, d_text d = JStr raw ->
      String_ (Js.or (d_text d) (JStr "")) = Some raw)
  /\ (forall raw, String_ (Js.or (d_text d) (JStr "")) = Some raw ->
      let text := trim (slice_0 500 raw) in
      (String.length text <= 500)%nat
      /\ trim text = text
      /\ (text = "" -> on_message cfg ws (Parsed d) clk s = Some (s, []))
      /\ (text <> "" -> (nick = "admin" -> startsWith "/" text = false) ->
          on_message cfg ws (Parsed d) clk s =
            Some (insertChat (mkChat nick (icon_of nick s) text
                                     (now_insert clk / 1000)) s,
                  [Broadcast (MChat nick (icon_of nick s) text (now_send clk))]))
      /\ (exists s' effs,
            on_message cfg ws (Parsed d) clk s = Some (s', effs)
            /\ (chat s' = chat s
                \/ chat s' = chat s ++ [mkChat nick (icon_of nick s) text
                                               (now_insert clk / 1000)]))).
Proof.
  intros Hn Ht. rewrite (on_message_on_chat cfg ws nick d clk s Hn Ht).
  split; [apply on_chat_throws|].
  split; [apply text_arg_string|].
  intros raw E text. destruct (on_chat_returns cfg nick d clk s raw E) as [-> Hx].
  subst text. rewrite <- Hx. clear raw E Hx.
  split; [apply chat_text_length|].
  split; [apply chat_text_trimmed|].
  split; [intros He; now rewrite on_chat_empty|].
  split.
  - intros Hne Hcmd. now rewrite on_chat_normal.
  - destruct (chat_result cfg nick d clk s) as [s' effs] eqn:Hr.
    exists s', effs. split; [reflexivity|].
    destruct (on_chat_cases cfg nick d clk s) as [Hc|Hc]; rewrite Hr in Hc.
    + now left.
    + right. injection Hc as -> _. reflexivity.
Qed.

Lemma chat_text_cut_then_trimmed_witness :
  on_message cfg_index 1%nat (Parsed (chat_data "  hello ")) a_clock alice_state
  = Some (insertChat (mkChat "alice" None "hello" 1700000000) alice_state,
          [Broadcast (MChat "alice" None "hello" 1700000000124)]).
Proof.
  destruct (chat_text_cut_then_trimmed cfg_index 1%nat "alice"
              (chat_data "  hello ") a_clock alice_state) as (_ & _ & H).
  - split; [reflexivity | discriminate].
  - reflexivity.
  - destruct (H "  hello " eq_refl) as (_ & _ & _ & Hsend & _).
    apply Hsend; discriminate.
Defined.

(** C7 as stated fails on the order: for 500 spaces followed by "hi" the
    text trimmed first and cut after is "hi", which is not empty, and the
    handler, which cuts first, drops the message. *)
Lemma chat_trim_first_not_dropped :
  let d := chat_data (spaces 500 "hi") in
  chat_text_trim_first d = "hi"
  /\ named alice_state 1%nat "alice"
  /\ on_message cfg_index 1%nat (Parsed d) a_clock alice_state
     = Some (alice_state, []).
Proof.
  split; [vm_compute; reflexivity|]. split.
  - split; [reflexivity | discriminate].
  - vm_compute. reflexivity.
Qed.

(** A text that cannot be converted: the handler throws. *)
Lemma chat_object_text_throws :
  let d := mkData (JStr "chat") JUndefined JUndefined JUndefined (JObject None) in
  on_message cfg_index 1%nat (Parsed d) a_clock alice_state = None
  /\ on_message cfg_part 1%nat (Parsed d) a_clock alice_state = None.
Proof. split; reflexivity. Qed.

(** ** C8: commands of the administrator *)

Lemma on_chat_admin cfg d clk s :
  startsWith "/" (chat_text d) = true ->
  chat_result cfg "admin" d clk s =
    match admin_command cfg (chat_text d) s with
    | Some r => r
    | None => normal_chat "admin" (chat_text d) clk s
    end.
Proof.
  intros Hs. unfold chat_result, chat_checks. rewrite Hs.
  case_bool_decide as He; [rewrite He in Hs; discriminate|].
  now rewrite bool_decide_eq_true_2.
Qed.

(** C8 (as amended).  For a chat message of the connection named exactly
    "admin" whose text starts with "/", the command is the first word of the
    text in lower case, so that [/BRO] is [/bro]: the command [/bro] with a
    target deletes the ban of the target and broadcasts the notice, and
    records no chat message; a command other than [/ban] and [/bro] is none:
    the text is stored and broadcast as an ordinary chat message; and in
    index.js a [/ban] or [/bro] without a target changes nothing and sends
    nothing. *)
Theorem admin_slash_commands cfg ws d clk s :
  named s ws "admin" -> d_type d = JStr "chat" ->
  startsWith "/" (chat_text d) = true ->
  let text := chat_text d in
  let parts := split_ws text in
  let cmd := toLowerCase (nth 0 parts "") in
  (forall target, cmd = "/bro" -> target_of parts = Some target ->
     exists s',
       on_message cfg ws (Parsed d) clk s =
         Some (s', [Broadcast (MSystem (target +:+ " is unbanned"))])
       /\ bans s' = delete target (bans s) /\ chat s' = chat s
       /\ clients s' = clients s /\ players s' = players s
       /\ shop_items s' = shop_items s)
  /\ (cmd <> "/ban" -> cmd <> "/bro" ->
      on_message cfg ws (Parsed d) clk s =
        Some (insertChat (mkChat "admin" (icon_of "admin" s) text
                                 (now_insert clk / 1000)) s,
              [Broadcast (MChat "admin" (icon_of "admin" s) text
                                (now_send clk))]))
  /\ (variant cfg = ServerIndex -> cmd = "/ban" \/ cmd = "/bro" ->
      target_of parts = None ->
      on_message cfg ws (Parsed d) clk s = Some (s, [])).
Proof.
  intros Hn Ht Hs text parts cmd. subst text parts cmd.
  rewrite (on_message_chat cfg ws "admin" d clk s Hn Ht (slash_nonempty _ Hs)).
  rewrite (on_chat_admin cfg d clk s Hs). unfold admin_command.
  assert (Hparts :
    match variant cfg with
    | ServerIndex => split_ws (chat_text d)
    | Part000 => split_ws (trim (chat_text d))
    end = split_ws (chat_text d)).
  { destruct (variant cfg); [reflexivity|]. now rewrite chat_text_trimmed. }
  rewrite Hparts. split; [|split].
  - intros target Hc Htg. rewrite Hc, Htg.
    eexists. split; [destruct (variant cfg); reflexivity|].
    repeat split; reflexivity.
  - intros Hb Hu. rewrite !(bool_decide_eq_false_2 _ Hb).
    rewrite !(bool_decide_eq_false_2 _ Hu).
    destruct (variant cfg); [reflexivity|].
    destruct (target_of (split_ws (chat_text d))); reflexivity.
  - intros -> Hc Htg. rewrite Htg. destruct Hc as [-> | ->]; reflexivity.
Qed.

Lemma admin_slash_commands_witness :
  exists s',
    on_message cfg_index 1%nat (Parsed (chat_data "/bro bob")) a_clock
               (addBan "bob" "banned by admin" admin_state)
    = Some (s', [Broadcast (MSystem "bob is unbanned")])
    /\ bans s' !! "bob" = None
    /\ chat s' = chat admin_state.
Proof.
  destruct (admin_slash_commands cfg_index 1%nat (chat_data "/bro bob") a_clock
              (addBan "bob" "banned by admin" admin_state))
    as [Hbro _].
  - split; [reflexivity | discriminate].
  - reflexivity.
  - reflexivity.
  - destruct (Hbro "bob" eq_refl eq_refl) as (s' & Hrun & Hb & Hc & _).
    exists s'. split; [exact Hrun|]. split; [|exact Hc].
    rewrite Hb. apply lookup_delete_eq.
Defined.

(** In part_000 a [/ban] or [/bro] of the administrator without a target
    reaches the normal chat: it is stored and broadcast. *)
Lemma admin_command_without_target_part000 cfg ws d clk s :
  variant cfg = Part000 ->
  named s ws "admin" -> d_type d = JStr "chat" ->
  startsWith "/" (chat_text d) = true ->
  target_of (split_ws (chat_text d)) = None ->
  on_message cfg ws (Parsed d) clk s =
    Some (normal_chat "admin" (chat_text d) clk s).
Proof.
  intros Hv Hn Ht Hs Htg.
  rewrite (on_message_chat cfg ws "admin" d clk s Hn Ht (slash_nonempty _ Hs)).
  rewrite (on_chat_admin cfg d clk s Hs). unfold admin_command.
  rewrite Hv, chat_text_trimmed, Htg. reflexivity.
Qed.

(** The command word is compared in lower case: "/BAN carl" is a ban, and
    no chat message is recorded for it. *)
Lemma admin_command_any_case :
  on_message cfg_index 1%nat (Parsed (chat_data "/BAN carl")) a_clock admin_state
  = Some (addBan "carl" "banned by admin" admin_state,
          [Broadcast (MSystem "carl is banned")]).
Proof. reflexivity. Qed.

(** C8 as stated fails for a first word that is no command: in both
    revisions "/hello" from the administrator is stored in the chat log and
    broadcast as a chat message. *)
Lemma admin_unknown_command_recorded :
  named admin_state 1%nat "admin"
  /\ on_message cfg_index 1%nat (Parsed (chat_data "/hello")) a_clock admin_state
     = Some (insertChat (mkChat "admin" None "/hello" 1700000000) admin_state,
             [Broadcast (MChat "admin" None "/hello" 1700000000124)])
  /\ on_message cfg_part 1%nat (Parsed (chat_data "/hello")) a_clock admin_state
     = Some (insertChat (mkChat "admin" None "/hello" 1700000000) admin_state,
             [Broadcast (MChat "admin" None "/hello" 1700000000124)]).
Proof.
  split; [split; [reflexivity | discriminate]|].
  split; reflexivity.
Qed.

(** ** C10: the two timestamps of a chat message *)

Lemma on_setName_chat cfg ws d s : chat (fst (setName_result cfg ws d s)) = chat s.
Proof.
  pose proof (on_setName_outcome cfg ws d s) as Ho.
  destruct (setName_result cfg ws d s) as [s1 effs]. simpl in *.
  inversion Ho; subst; auto.
Qed.

Lemma on_tap_chat nick s s' effs :
  on_tap nick s = Some (s', effs) -> chat s' = chat s.
Proof.
  unfold on_tap. destruct (findPlayer nick s); [|now intros [= <- <-]].
  match goal with |- context [findPlayer nick ?s1] =>
    destruct (findPlayer nick s1) end; [|discriminate].
  now intros [= <- <-].
Qed.

Lemma on_buy_chat cfg ws nick d s s' effs :
  on_buy cfg ws nick d s = Some (s', effs) -> chat s' = chat s.
Proof.
  unfold on_buy. destruct (String_ _); [|discriminate].
  destruct (shop_items s !! _); [|now intros [= <- <-]].
  destruct (findPlayer nick s); [|discriminate].
  destruct (_ <? _); [now intros [= <- <-]|].
  match goal with |- context [findPlayer nick ?s1] =>
    destruct (findPlayer nick s1) end; [|discriminate].
  now intros [= <- <-].
Qed.

(** A message that changes the chat log is a chat message of a named
    connection that reached the normal chat. *)
Lemma recorded_is_normal_chat cfg ws r clk s s' effs :
  on_message cfg ws r clk s = Some (s', effs) -> chat s' <> chat s ->
  exists nick d, (s', effs) = normal_chat nick (chat_text d) clk s.
Proof.
  unfold on_message. destruct r as [| |d]; [|discriminate|].
  { intros [= <- <-] Hc. now elim Hc. }
  case_bool_decide.
  { intros E%on_setName_fst Hc. subst s'. elim Hc. apply on_setName_chat. }
  destruct (JsMap.get ws (clients s)) as [[nick|]|];
    try (intros [= <- <-] Hc; now elim Hc).
  case_bool_decide; [intros [= <- <-] Hc; now elim Hc|].
  case_bool_decide.
  { intros E Hc. elim Hc. eapply on_tap_chat; eauto. }
  case_bool_decide.
  { intros E Hc. elim Hc. eapply on_buy_chat; eauto. }
  case_bool_decide; [|intros [= <- <-] Hc; now elim Hc].
  intros [E _]%on_chat_Some Hc. exists nick, d.
  destruct (on_chat_cases cfg nick d clk s) as [Hs|Hs]; rewrite <- E in Hs.
  - now elim Hc.
  - exact Hs.
Qed.

Lemma on_chat_recorded cfg nick d clk s :
  chat_text d <> "" ->
  (nick = "admin" -> startsWith "/" (chat_text d) = true ->
   admin_command cfg (chat_text d) s = None) ->
  chat_result cfg nick d clk s = normal_chat nick (chat_text d) clk s.
Proof.
  intros Hne Hcmd. unfold chat_result, chat_checks.
  rewrite bool_decide_eq_false_2 by exact Hne.
  case_bool_decide as Ha; simpl; [|reflexivity].
  destruct (startsWith "/" (chat_text d)) eqn:Hs; [|reflexivity].
  now rewrite (Hcmd Ha eq_refl).
Qed.

(** C10.  With the clock after the epoch and not running backwards between
    its two readings: a chat message of a named connection whose text is not
    empty and is not handled as a command of the administrator is stored
    with the time in whole seconds and broadcast with the time in
    milliseconds; the stored row is the last of the [init] history sent to a
    connection that arrives next; and its [ts] there differs from the [ts]
    of the broadcast.  Every message that adds to the chat log is stored and
    broadcast in this way. *)
Theorem chat_timestamps_differ cfg ws clk s :
  0 < now_insert clk -> now_insert clk <= now_send clk ->
  (forall nick d,
     named s ws nick -> d_type d = JStr "chat" -> chat_text d <> "" ->
     (nick = "admin" -> startsWith "/" (chat_text d) = true ->
      admin_command cfg (chat_text d) s = None) ->
     let row := mkChat nick (icon_of nick s) (chat_text d)
                       (now_insert clk / 1000) in
     on_message cfg ws (Parsed d) clk s =
       Some (insertChat row s,
             [Broadcast (MChat nick (icon_of nick s) (chat_text d)
                               (now_send clk))])
     /\ (forall ws', exists shop ranks older,
           snd (on_connection ws' (insertChat row s)) =
             [SendTo ws' (MInit shop ranks (older ++ [row]))])
     /\ row_ts row <> now_send clk)
  /\ (forall r s' effs,
        on_message cfg ws r clk s = Some (s', effs) -> chat s' <> chat s ->
        exists row,
          chat s' = chat s ++ [row]
          /\ row_ts row = now_insert clk / 1000
          /\ effs = [Broadcast (MChat (row_nickname row) (row_icon row)
                                      (row_text row) (now_send clk))]
          /\ (forall ws', exists shop ranks older,
                snd (on_connection ws' s') =
                  [SendTo ws' (MInit shop ranks (older ++ [row]))])
          /\ row_ts row <> now_send clk).
Proof.
  intros Hpos Hmono.
  assert (Hts : now_insert clk / 1000 <> now_send clk).
  { pose proof (Z.div_lt (now_insert clk) 1000 Hpos). lia. }
  assert (Hinit : forall row s0 ws', exists shop ranks older,
            snd (on_connection ws' (insertChat row s0)) =
              [SendTo ws' (MInit shop ranks (older ++ [row]))]).
  { intros row s0 ws'. unfold on_connection, recentChats. simpl.
    rewrite rev_unit. simpl. eexists _, _, _. reflexivity. }
  split.
  - intros nick d Hn Ht Hne Hcmd row.
    rewrite (on_message_chat cfg ws nick d clk s Hn Ht Hne).
    rewrite (on_chat_recorded cfg nick d clk s Hne Hcmd).
    split; [reflexivity|]. split; [apply Hinit|exact Hts].
  - intros r s' effs Hm Hc.
    destruct (recorded_is_normal_chat cfg ws r clk s s' effs Hm Hc)
      as (nick & d & E).
    unfold normal_chat in E. injection E as -> ->.
    eexists. split; [reflexivity|]. split; [reflexivity|].
    split; [reflexivity|]. split; [apply Hinit|exact Hts].
Qed.

Lemma chat_timestamps_differ_witness :
  on_message cfg_index 1%nat (Parsed (chat_data "  hello ")) a_clock alice_state
  = Some (insertChat (mkChat "alice" None "hello" 1700000000) alice_state,
          [Broadcast (MChat "alice" None "hello" 1700000000124)])
  /\ (exists shop ranks older,
        snd (on_connection 2%nat
               (insertChat (mkChat "alice" None "hello" 1700000000) alice_state))
        = [SendTo 2%nat
             (MInit shop ranks (older ++ [mkChat "alice" None "hello" 1700000000]))])
  /\ 1700000000 <> 1700000000124.
Proof.
  destruct (chat_timestamps_differ cfg_index 1%nat a_clock alice_state)
    as [Hsend _].
  - reflexivity.
  - discriminate.
  - destruct (Hsend "alice" (chat_data "  hello ")) as (Hrun & Hinit & Hne).
    + split; [reflexivity | discriminate].
    + reflexivity.
    + discriminate.
    + discriminate.
    + split; [exact Hrun|]. split; [exact (Hinit 2%nat)|exact Hne].
Defined.

(** ** C9: the two revisions on [setName] *)

Lemma on_setName_same_inputs c1 c2 ws d s :
  nickname_arg c1 d = nickname_arg c2 d -> ADMIN_TOKEN c1 = ADMIN_TOKEN c2 ->
  on_setName c1 ws d s = on_setName c2 ws d s.
Proof. intros Hn Ht. unfold on_setName, setName_checks. now rewrite Hn, Ht. Qed.

Lemma on_setName_not_empty cfg ws d s :
  claimed_name cfg d <> "" ->
  setName_result cfg ws d s <> (s, [setName_reject ws "empty"]).
Proof.
  intros Hne E. pose proof (on_setName_outcome cfg ws d s) as Ho.
  rewrite E in Ho. simpl in Ho. inversion Ho. contradiction.
Qed.

Lemma on_setName_empty cfg ws d s :
  claimed_name cfg d = "" ->
  setName_result cfg ws d s = (s, [setName_reject ws "empty"]).
Proof.
  intros He. unfold setName_result, setName_checks. fold (claimed_name cfg d).
  now rewrite He.
Qed.

Lemma on_setName_accepts cfg ws d s :
  claimed_name cfg d <> "" ->
  toLowerCase (claimed_name cfg d) <> "admin" ->
  bans s !! claimed_name cfg d = None ->
  (forall c, ~ holds s c (claimed_name cfg d)) ->
  snd (setName_result cfg ws d s) =
    [SendTo ws (MSetNameResult true (Some (claimed_name cfg d)) None);
     broadcastPlayersAndRanks (fst (setName_result cfg ws d s))]
  /\ clients (fst (setName_result cfg ws d s)) =
       JsMap.set ws (Some (claimed_name cfg d)) (clients s).
Proof.
  intros Hne Hl Hb Hfree. apply inUse_false in Hfree.
  pose proof (on_setName_outcome cfg ws d s) as Ho.
  destruct (setName_result cfg ws d s) as [s1 effs]. simpl in *.
  inversion Ho; subst; unfold findBan in *; try congruence.
  - match goal with H : is_Some _ |- _ => rewrite Hb in H; destruct H;
      discriminate end.
  - split; [reflexivity|assumption].
Qed.

(** C9 (as amended).  With the same secret configured, the two revisions
    answer a [setName] message alike and reach the same state exactly when
    its nickname field is truthy or the empty string.  For an absent field
    index.js asks for the name "undefined", and claims it when it is free
    and not banned, where part_000 answers [empty]. *)
Theorem setName_revisions token ws d s :
  token <> "" ->
  let index_js := mkConfig ServerIndex (Some token) in
  let part_000 := mkConfig Part000 (Some token) in
  (on_setName index_js ws d s = on_setName part_000 ws d s
   <-> truthy (d_nickname d) = true \/ d_nickname d = JStr "")
  /\ (d_nickname d = JUndefined ->
      claimed_name index_js d = "undefined"
      /\ on_setName part_000 ws d s = Some (s, [setName_reject ws "empty"])
      /\ (bans s !! "undefined" = None ->
          (forall c, ~ holds s c "undefined") ->
          exists s',
            on_setName index_js ws d s =
              Some (s', [SendTo ws (MSetNameResult true (Some "undefined") None);
                         broadcastPlayersAndRanks s'])
            /\ clients s' = JsMap.set ws (Some "undefined") (clients s))).
Proof.
  intros Htok index_js part_000.
  assert (Hsecret : ADMIN_TOKEN index_js = ADMIN_TOKEN part_000).
  { unfold ADMIN_TOKEN. simpl. now rewrite bool_decide_eq_false_2. }
  assert (Hpart : truthy (d_nickname d) = false -> d_nickname d <> JStr "" ->
            on_setName part_000 ws d s = Some (s, [setName_reject ws "empty"])
            /\ on_setName index_js ws d s = Some (setName_result index_js ws d s)
            /\ claimed_name index_js d <> "").
  { intros Hf Hs.
    assert (Hraw : String_ (nickname_arg part_000 d) = Some "").
    { unfold nickname_arg, Js.or. simpl. now rewrite Hf. }
    destruct (on_setName_returns part_000 ws d s "" Hraw) as [-> Hn].
    split; [f_equal; now apply on_setName_empty|].
    assert (Hidx : exists x, String_ (nickname_arg index_js d) = Some x
                             /\ slice_0 32 (trim x) <> "").
    { unfold nickname_arg. simpl.
      destruct (d_nickname d) as [| |[|]| |n|x|o]; simpl in *;
        try discriminate; try (eexists; split; [reflexivity|discriminate]).
      case_bool_decide; [subst x; now elim Hs | discriminate]. }
    destruct Hidx as (x & Hx & Hne).
    destruct (on_setName_returns index_js ws d s x Hx) as [-> Hc].
    split; [reflexivity|]. now rewrite Hc. }
  split; [split|].
  - intros Heq. destruct (truthy (d_nickname d)) eqn:Hf; [now left|right].
    destruct (decide (d_nickname d = JStr "")) as [|Hs]; [assumption|].
    destruct (Hpart eq_refl Hs) as (Hp & Hi & Hne).
    rewrite Hp, Hi in Heq. injection Heq as Heq.
    now elim (on_setName_not_empty index_js ws d s Hne).
  - intros Hok. apply on_setName_same_inputs; [|exact Hsecret].
    unfold nickname_arg, Js.or. simpl.
    destruct Hok as [-> | ->]; reflexivity.
  - intros Hu.
    assert (Hname : claimed_name index_js d = "undefined").
    { unfold claimed_name, nickname_arg. simpl. now rewrite Hu. }
    split; [exact Hname|].
    assert (Hf : truthy (d_nickname d) = false) by now rewrite Hu.
    assert (Hs : d_nickname d <> JStr "") by (rewrite Hu; discriminate).
    destruct (Hpart Hf Hs) as (Hp & Hi & _).
    split; [exact Hp|].
    intros Hban Hfree. rewrite Hi.
    pose proof (on_setName_accepts index_js ws d s) as Hacc.
    rewrite Hname in Hacc.
    assert (Hnot : "undefined" <> "") by discriminate.
    assert (Hlow : toLowerCase "undefined" <> "admin") by discriminate.
    destruct (Hacc Hnot Hlow Hban Hfree) as [He Hc].
    exists (fst (setName_result index_js ws d s)). split; [|exact Hc].
    f_equal. rewrite <- He. now destruct (setName_result index_js ws d s).
Qed.

Lemma setName_revisions_witness :
  claimed_name cfg_index (setName_data JUndefined JUndefined) = "undefined"
  /\ on_setName cfg_part 1%nat (setName_data JUndefined JUndefined)
       two_connections
     = Some (two_connections, [setName_reject 1%nat "empty"]).
Proof.
  destruct (setName_revisions "secret" 1%nat
              (setName_data JUndefined JUndefined) two_connections)
    as [_ Habsent].
  - discriminate.
  - destruct (Habsent eq_refl) as (Hname & Hpart & _).
    split; [exact Hname | exact Hpart].
Defined.

(** C9 as stated fails: on a [setName] message without a nickname field
    the two revisions, configured alike, answer differently. *)
Lemma setName_revisions_differ :
  let d := setName_data JUndefined JUndefined in
  on_setName cfg_index 1%nat d two_connections
    <> on_setName cfg_part 1%nat d two_connections
  /\ (exists s' effs,
        on_setName cfg_index 1%nat d two_connections = Some (s', effs)
        /\ is_accept effs = true)
  /\ on_setName cfg_part 1%nat d two_connections
     = Some (two_connections, [setName_reject 1%nat "empty"]).
Proof.
  split; [|split; [eexists _, _; split; reflexivity | reflexivity]].
  intros E.
  apply (f_equal (fun r => match r with
                           | Some x => is_accept (snd x)
                           | None => false
                           end)) in E.
  vm_compute in E. discriminate.
Qed.

(** ** Rows of [players] are kept and their counters do not go down *)

Lemma grows_refl p : grows p p.
Proof. unfold grows. lia. Qed.

Lemma players_grow_refl s : players_grow s s.
Proof. intros n p Hp. exists p. split; [exact Hp | apply grows_refl]. Qed.

Lemma players_grow_same s s' : players s' = players s -> players_grow s s'.
Proof. intros E n p Hp. rewrite E. exists p. split; [exact Hp | apply grows_refl]. Qed.

Lemma players_grow_trans s1 s2 s3 :
  players_grow s1 s2 -> players_grow s2 s3 -> players_grow s1 s3.
Proof.
  intros H12 H23 n p Hp. destruct (H12 n p Hp) as (p2 & Hp2 & G12).
  destruct (H23 n p2 Hp2) as (p3 & Hp3 & G23). exists p3. split; [exact Hp3|].
  unfold grows in *. lia.
Qed.

Lemma players_grow_alter f n s :
  (forall q, players s !! n = Some q -> grows q (f q)) ->
  players_grow s (with_players (alter f n (players s)) s).
Proof.
  intros Hf m p Hp. simpl. rewrite lookup_alter. case_decide as Hd.
  - subst m. rewrite Hp. simpl. exists (f p). split; [reflexivity|]. now apply Hf.
  - exists p. split; [exact Hp | apply grows_refl].
Qed.

Lemma players_grow_create n q s :
  players s !! n = None -> players_grow s (createPlayer n q s).
Proof.
  intros Hn m p Hp. simpl. exists p. split; [|apply grows_refl].
  rewrite lookup_insert_ne; [exact Hp|]. intros ->. congruence.
Qed.

Section Growth.
Variable cfg : Config.

Lemma on_setName_grow ws d s : players_grow s (fst (setName_result cfg ws d s)).
Proof.
  pose proof (on_setName_outcome cfg ws d s) as Ho.
  destruct (setName_result cfg ws d s) as [s1 effs]. simpl in *.
  inversion Ho; subst; try apply players_grow_refl.
  match goal with H : players s1 = _ |- _ => rename H into Hpl end.
  intros m q Hq. rewrite Hpl.
  destruct (players s !! claimed_name cfg d) eqn:Hl.
  - exists q. split; [exact Hq | apply grows_refl].
  - exists q. split; [|apply grows_refl].
    rewrite lookup_insert_ne; [exact Hq|]. intros E. congruence.
Qed.

Lemma on_tap_grow n s s' effs :
  on_tap n s = Some (s', effs) -> players_grow s s'.
Proof.
  unfold on_tap. destruct (findPlayer n s) as [player|] eqn:Hf.
  2:{ intros [= <- <-]. apply players_grow_refl. }
  destruct (findPlayer n (updatePlayerAfterTap (tap_value player) n s));
    [|discriminate].
  intros [= <- <-]. apply players_grow_alter.
  intros q _. unfold grows. simpl. lia.
Qed.

Lemma on_buy_grow ws n d s s' effs :
  shop_ok s -> on_buy cfg ws n d s = Some (s', effs) -> players_grow s s'.
Proof.
  intros Hshop. unfold on_buy.
  destruct (String_ (itemId_arg cfg d)) as [itemId|] eqn:Hstr; [|discriminate].
  destruct (shop_items s !! itemId) as [item|] eqn:Hi.
  2:{ intros [= <- <-]. apply players_grow_refl. }
  destruct (findPlayer n s) as [player|] eqn:Hf; [|discriminate].
  destruct (coins player <? price item).
  { intros [= <- <-]. apply players_grow_refl. }
  match goal with
  | |- context [findPlayer n ?s1] => destruct (findPlayer n s1)
  end; [|discriminate].
  intros [= <- <-]. apply players_grow_alter.
  intros q Hq. unfold findPlayer in Hf. rewrite Hf in Hq. injection Hq as <-.
  pose proof (Hshop _ _ Hi) as Hv.
  unfold grows. simpl. repeat case_bool_decide; lia.
Qed.

Lemma auto_loop_grow rows s :
  players_grow s
    (fold_left
       (fun acc r => if 0 <? snd r
                     then updatePlayerAfterAuto (snd r) (fst r) acc else acc)
       rows s).
Proof.
  revert s. induction rows as [|[n val] rows IH]; intros s;
    [apply players_grow_refl|].
  simpl. eapply players_grow_trans; [|apply IH].
  destruct (0 <? val); [|apply players_grow_refl].
  apply players_grow_alter. intros q _. unfold grows. simpl. lia.
Qed.

Lemma on_upload_grow req s : players_grow s (fst (on_upload cfg req s)).
Proof.
  unfold on_upload.
  destruct (file_ext req) as [e|]; [|apply players_grow_refl].
  case_bool_decide; [apply players_grow_refl|].
  match goal with |- context [negb ?b] => destruct b end;
    [|apply players_grow_refl].
  simpl.
  match goal with |- context [findPlayer ?n s] =>
    destruct (findPlayer n s) as [player|] eqn:Hf end.
  - apply players_grow_alter. intros q Hq. unfold findPlayer in Hf.
    rewrite Hf in Hq. injection Hq as <-. unfold grows. simpl. lia.
  - now apply players_grow_create.
Qed.

Lemma on_message_grow ws r clk s s' effs :
  shop_ok s -> on_message cfg ws r clk s = Some (s', effs) -> players_grow s s'.
Proof.
  intros Hshop. unfold on_message.
  destruct r as [| |d];
    [intros [= <- <-]; apply players_grow_refl|discriminate|].
  case_bool_decide.
  { intros E%on_setName_fst. subst s'. apply on_setName_grow. }
  destruct (JsMap.get ws (clients s)) as [[n|]|];
    try (intros [= <- <-]; apply players_grow_refl).
  case_bool_decide; [intros [= <- <-]; apply players_grow_refl|].
  case_bool_decide; [apply on_tap_grow|].
  case_bool_decide; [now apply on_buy_grow|].
  case_bool_decide; [|intros [= <- <-]; apply players_grow_refl].
  intros E%on_chat_fst. subst s'. apply players_grow_same.
  apply (on_chat_frame cfg n d clk s).
Qed.

Lemma step_grow e s s' effs :
  shop_ok s -> step cfg e s = Some (s', effs) -> players_grow s s'.
Proof.
  intros Hshop. destruct e as [ws|ws r clk|ws| |req|]; unfold step;
    try (now apply on_message_grow); intros E%total_fst; subst s'.
  - now apply players_grow_same.
  - now apply players_grow_same.
  - apply auto_loop_grow.
  - apply on_upload_grow.
  - apply players_grow_refl.
Qed.

End Growth.

(** X1.  Rows of [players] are never deleted, and [taps], [tap_value] and
    [auto_per_sec] never go down.  From a reachable state, after any event,
    every player that had a row still has one, with each of the three
    counters at least what it was. *)
Theorem players_kept_counters_monotone cfg e s s' effs :
  reachable cfg s -> step cfg e s = Some (s', effs) ->
  forall n p, players s !! n = Some p ->
    exists p', players s' !! n = Some p'
               /\ taps p <= taps p' /\ tap_value p <= tap_value p'
               /\ auto_per_sec p <= auto_per_sec p'.
Proof.
  intros Hr Hstep.
  exact (step_grow cfg e s s' effs (wf_shop _ (reachable_wf cfg s Hr)) Hstep).
Qed.

Lemma players_kept_counters_monotone_witness :
  exists p',
    players (updatePlayerAfterTap 1 "alice" alice_state) !! "alice" = Some p'
    /\ 0 <= taps p' /\ 1 <= tap_value p' /\ 0 <= auto_per_sec p'.
Proof.
  assert (E : step cfg_index (Message 1%nat (Parsed tap_data) a_clock)
                alice_state
              = Some (updatePlayerAfterTap 1 "alice" alice_state,
                      [Broadcast (MTap "alice" 1 1 1)])) by reflexivity.
  assert (Hp : players alice_state !! "alice" = Some (new_player None))
    by reflexivity.
  exact (players_kept_counters_monotone cfg_index _ _ _ _
           alice_state_reachable E "alice" (new_player None) Hp).
Defined.

(** ** The shape of the session map in reachable states *)

Section JsMapKeys.
Context {K V : Type} `{EqDecision K}.
Implicit Types (k : K) (v : V) (m : list (K * V)).

Lemma In_keys_set k v m k' :
  In k' (map fst (JsMap.set k v m)) <-> k' = k \/ In k' (map fst m).
Proof.
  induction m as [|[k0 v0] m IH]; simpl.
  - split; [intros [<-|[]]; now left | intros [->|[]]; now left].
  - destruct (decide (k = k0)) as [->|Hk]; simpl.
    + split; [intros [<-|Hi]; auto | intros [->|[<-|Hi]]; auto].
    + rewrite IH. split; [intros [<-|[->|Hi]]; auto | intros [->|[<-|Hi]]; auto].
Qed.

Lemma NoDup_keys_set k v m :
  List.NoDup (map fst m) -> List.NoDup (map fst (JsMap.set k v m)).
Proof.
  induction m as [|[k0 v0] m IH]; simpl; intros Hnd.
  - constructor; [intros []|constructor].
  - inversion Hnd as [|? ? Hnotin Hnd']; subst.
    destruct (decide (k = k0)) as [->|Hk]; simpl.
    + now constructor.
    + constructor; [|now apply IH].
      rewrite In_keys_set. intros [E|Hi]; [congruence|contradiction].
Qed.

Lemma NoDup_keys_delete k m :
  List.NoDup (map fst m) -> List.NoDup (map fst (JsMap.delete k m)).
Proof.
  induction m as [|[k0 v0] m IH]; simpl; intros Hnd; [constructor|].
  inversion Hnd as [|? ? Hnotin Hnd']; subst.
  destruct (negb (bool_decide (k0 = k))); simpl; [|now apply IH].
  constructor; [|now apply IH].
  intros Hi. apply Hnotin. apply in_map_iff in Hi.
  destruct Hi as ([k1 v1] & E & Hi). simpl in E. subst k1.
  apply In_delete in Hi. apply in_map_iff. exists (k0, v1). tauto.
Qed.

Lemma In_get_NoDup k v m :
  List.NoDup (map fst m) -> In (k, v) m -> JsMap.get k m = Some v.
Proof.
  induction m as [|[k0 v0] m IH]; simpl; intros Hnd Hi; [contradiction|].
  inversion Hnd as [|? ? Hnotin Hnd']; subst.
  destruct (decide (k = k0)) as [->|Hk].
  - destruct Hi as [E|Hi]; [congruence|].
    elim Hnotin. apply in_map_iff. now exists (k0, v).
  - destruct Hi as [E|Hi]; [congruence|]. now apply IH.
Qed.

Lemma In_set_NoDup k v m k' v' :
  List.NoDup (map fst m) -> In (k', v') (JsMap.set k v m) ->
  (k', v') = (k, v) \/ (In (k', v') m /\ k' <> k).
Proof.
  intros Hnd Hi.
  destruct (decide (k' = k)) as [->|Hne].
  - left. f_equal.
    pose proof (In_get_NoDup _ _ _ (NoDup_keys_set k v m Hnd) Hi) as Hg.
    rewrite get_set_eq in Hg. congruence.
  - right. split; [|exact Hne].
    apply In_set_other in Hi. destruct Hi as [E|Hi]; [congruence|exact Hi].
Qed.

End JsMapKeys.

Lemma trimEnd_head c t :
  is_space c = false -> exists y, trimEnd (String c t) = String c y.
Proof.
  intros Hc. unfold trimEnd. rewrite rev_cons.
  destruct (trimStart_snoc (String.rev t) c Hc) as [w ->].
  rewrite rev_snoc. eauto.
Qed.

Lemma trim_no_leading_space x : no_leading_space (trim x).
Proof.
  unfold trim. destruct (trimStart_head x) as [E|(c & t & E & Hc)]; rewrite E.
  - exact I.
  - destruct (trimEnd_head c t Hc) as [y ->]. exact Hc.
Qed.

Lemma slice_0_no_leading_space n x :
  no_leading_space x -> no_leading_space (slice_0 n x).
Proof. destruct n, x; simpl; auto. Qed.

Lemma claimed_name_shape cfg d :
  (String.length (claimed_name cfg d) <= 32)%nat
  /\ no_leading_space (claimed_name cfg d).
Proof.
  split; [apply claimed_name_length|].
  unfold claimed_name. destruct (String_ (nickname_arg cfg d)); [|exact I].
  apply slice_0_no_leading_space, trim_no_leading_space.
Qed.

Lemma sessions_wellformed_next s s' :
  List.NoDup (map fst (clients s')) ->
  (forall ws n, holds s' ws n ->
     holds s ws n
     \/ (n <> "" /\ (String.length n <= 32)%nat /\ no_leading_space n
         /\ is_Some (players s' !! n))) ->
  players_grow s s' ->
  sessions_wellformed s -> sessions_wellformed s'.
Proof.
  intros Hnd Hh Hg [_ Hw]. split; [exact Hnd|].
  intros ws n Hs'. destruct (Hh ws n Hs') as [Hs|Hnew]; [|exact Hnew].
  destruct (Hw ws n Hs) as (H1 & H2 & H3 & [p Hp]).
  repeat split; auto. destruct (Hg n p Hp) as (p' & Hp' & _). eauto.
Qed.

Lemma sessions_wellformed_same s s' :
  clients s' = clients s -> players_grow s s' ->
  sessions_wellformed s -> sessions_wellformed s'.
Proof.
  intros Hc Hg Hw. apply (sessions_wellformed_next s); auto.
  - rewrite Hc. apply Hw.
  - intros ws n Hh. left. unfold holds in *. now rewrite <- Hc.
Qed.

Section Shape.
Variable cfg : Config.

Lemma on_setName_wellformed ws d s :
  sessions_wellformed s -> sessions_wellformed (fst (setName_result cfg ws d s)).
Proof.
  intros Hw. pose proof (on_setName_grow cfg ws d s) as Hg.
  pose proof (on_setName_outcome cfg ws d s) as Ho.
  destruct (setName_result cfg ws d s) as [s1 effs]. simpl in *.
  inversion Ho; subst; try exact Hw.
  match goal with H : clients s1 = _ |- _ => rename H into Hcl end.
  match goal with H : players s1 = _ |- _ => rename H into Hpl end.
  match goal with H : claimed_name cfg d <> _ |- _ => rename H into Hne end.
  apply (sessions_wellformed_next s); auto.
  - rewrite Hcl. apply NoDup_keys_set, Hw.
  - intros c n Hh. unfold holds, JsMap.entries in *. rewrite Hcl in Hh.
    apply In_set_other in Hh. destruct Hh as [E|Hh]; [right|now left].
    injection E as _ ->. destruct (claimed_name_shape cfg d) as [Hlen Hsp].
    repeat split; auto. rewrite Hpl.
    destruct (players s !! claimed_name cfg d) eqn:Hl; [rewrite Hl; eauto|].
    rewrite lookup_insert_eq. eauto.
Qed.

Lemma on_message_clients ws r clk s s' effs :
  on_message cfg ws r clk s = Some (s', effs) ->
  clients s' = clients s
  \/ exists d, r = Parsed d /\ d_type d = JStr "setName"
               /\ s' = fst (setName_result cfg ws d s).
Proof.
  unfold on_message. destruct r as [| |d]; [intros [= <- <-]; now left|discriminate|].
  case_bool_decide as Ht.
  { intros E%on_setName_fst. right. eauto. }
  left. revert H.
  destruct (JsMap.get ws (clients s)) as [[n|]|]; try now intros [= <- <-].
  case_bool_decide; [now intros [= <- <-]|].
  case_bool_decide.
  { unfold on_tap. destruct (findPlayer n s); [|now intros [= <- <-]].
    match goal with |- context [findPlayer n ?s1] =>
      destruct (findPlayer n s1) end; [|discriminate].
    now intros [= <- <-]. }
  case_bool_decide.
  { unfold on_buy. destruct (String_ _); [|discriminate].
    destruct (shop_items s !! _); [|now intros [= <- <-]].
    destruct (findPlayer n s); [|discriminate].
    destruct (_ <? _); [now intros [= <- <-]|].
    match goal with |- context [findPlayer n ?s1] =>
      destruct (findPlayer n s1) end; [|discriminate].
    now intros [= <- <-]. }
  case_bool_decide; [|now intros [= <- <-]].
  intros E%on_chat_fst. subst s'. apply (on_chat_frame cfg n d clk s).
Qed.

Lemma auto_loop_clients rows s :
  clients (fold_left
             (fun acc r => if 0 <? snd r
                           then updatePlayerAfterAuto (snd r) (fst r) acc
                           else acc) rows s) = clients s.
Proof.
  revert s. induction rows as [|[n val] rows IH]; intros s; [reflexivity|].
  simpl. rewrite IH. now destruct (0 <? val).
Qed.

Lemma on_upload_clients req s : clients (fst (on_upload cfg req s)) = clients s.
Proof.
  unfold on_upload. destruct (file_ext req); [|reflexivity].
  case_bool_decide; [reflexivity|].
  match goal with |- context [negb ?b] => destruct b end; [|reflexivity].
  simpl. match goal with |- context [findPlayer ?n s] =>
    destruct (findPlayer n s) end; reflexivity.
Qed.

Lemma step_wellformed e s s' effs :
  shop_ok s -> step cfg e s = Some (s', effs) ->
  sessions_wellformed s -> sessions_wellformed s'.
Proof.
  intros Hshop Hstep Hw.
  pose proof (step_grow cfg e s s' effs Hshop Hstep) as Hg.
  destruct e as [ws|ws r clk|ws| |req|]; unfold step in Hstep.
  - apply total_fst in Hstep. subst s'.
    apply (sessions_wellformed_next s); auto.
    + simpl. apply NoDup_keys_set, Hw.
    + intros c n Hh. left. unfold holds, JsMap.entries in *. simpl in Hh.
      apply In_set_other in Hh. destruct Hh as [Hh|Hh]; [discriminate|exact Hh].
  - destruct (on_message_clients ws r clk s s' effs Hstep)
      as [Hc|(d & _ & _ & ->)].
    + now apply (sessions_wellformed_same s).
    + now apply on_setName_wellformed.
  - apply total_fst in Hstep. subst s'.
    apply (sessions_wellformed_next s); auto.
    + simpl. apply NoDup_keys_delete, Hw.
    + intros c n Hh. left. unfold holds, JsMap.entries in *. simpl in Hh.
      now apply In_delete in Hh.
  - apply total_fst in Hstep. subst s'.
    apply (sessions_wellformed_same s); auto. apply auto_loop_clients.
  - apply total_fst in Hstep. subst s'.
    apply (sessions_wellformed_same s); auto. apply on_upload_clients.
  - apply total_fst in Hstep. now subst s'.
Qed.

Lemma reachable_wellformed s : reachable cfg s -> sessions_wellformed s.
Proof.
  induction 1 as [|e s s' effs Hr IH Hstep].
  - split; [constructor|]. intros ws n [].
  - eapply step_wellformed; eauto.
    exact (wf_shop _ (reachable_wf cfg s Hr)).
Qed.

End Shape.

(** X2.  The session map of a reachable state.  Every connection has at most
    one entry in [clients]; every nickname in it is non-empty, has at most
    32 characters, does not start with white space, and has a row in
    [players]; and [clients.get(ws)] returns the nickname of each entry. *)
Theorem reachable_sessions_shape cfg s :
  reachable cfg s ->
  List.NoDup (map fst (clients s))
  /\ forall ws n, holds s ws n ->
       JsMap.get ws (clients s) = Some (Some n)
       /\ n <> "" /\ (String.length n <= 32)%nat /\ no_leading_space n
       /\ is_Some (players s !! n).
Proof.
  intros Hr. destruct (reachable_wellformed cfg s Hr) as [Hnd Hw].
  split; [exact Hnd|]. intros ws n Hh. split; [|exact (Hw ws n Hh)].
  now apply In_get_NoDup.
Qed.

Lemma reachable_sessions_shape_witness :
  JsMap.get 1%nat (clients alice_state) = Some (Some "alice")
  /\ is_Some (players alice_state !! "alice").
Proof.
  destruct (reachable_sessions_shape cfg_index alice_state alice_state_reachable)
    as [_ Hw].
  destruct (Hw 1%nat "alice") as (Hg & _ & _ & _ & Hp).
  - now left.
  - split; [exact Hg | exact Hp].
Defined.

(** ** Exceptions of the message handler *)

Lemma on_buy_returns cfg ws nick d s p i :
  players s !! nick = Some p -> String_ (itemId_arg cfg d) = Some i ->
  is_Some (on_buy cfg ws nick d s).
Proof.
  intros Hp Hs. destruct (shop_items s !! i) as [item|] eqn:Hi.
  - destruct (Z_lt_le_dec (coins p) (price item)) as [Hlt|Hle].
    + rewrite (on_buy_short cfg ws nick d s i item p Hs Hi Hp Hlt). eauto.
    + rewrite (on_buy_enough cfg ws nick d s i item p Hs Hi Hp Hle). eauto.
  - rewrite (on_buy_unknown cfg ws nick d s i Hs Hi). eauto.
Qed.

(** With a row for its nickname, a named connection makes the handler throw
    only through a conversion. *)
Lemma on_message_named_throws cfg ws nick d clk s p :
  players s !! nick = Some p -> named s ws nick ->
  d_type d <> JStr "setName" ->
  on_message cfg ws (Parsed d) clk s = None ->
  (d_type d = JStr "buy" /\ String_ (itemId_arg cfg d) = None)
  \/ (d_type d = JStr "chat" /\ String_ (Js.or (d_text d) (JStr "")) = None).
Proof.
  intros Hp [Hg Hne] Hset. unfold on_message.
  rewrite (bool_decide_eq_false_2 _ Hset), Hg.
  rewrite (bool_decide_eq_false_2 _ Hne).
  case_bool_decide as Htap; [now rewrite (on_tap_once nick s p Hp)|].
  case_bool_decide as Hbuy.
  { intros Hb. left. split; [exact Hbuy|].
    destruct (String_ (itemId_arg cfg d)) as [i|] eqn:Hs; [|reflexivity].
    destruct (on_buy_returns cfg ws nick d s p i Hp Hs) as [x Hx]. congruence. }
  case_bool_decide as Hchat; [|discriminate].
  intros Hc. right. split; [exact Hchat|]. now apply on_chat_throws in Hc.
Qed.

(** X3.  In a reachable state the message handler throws in exactly these
    cases: the payload is the JSON value [null]; it is a [setName] message
    whose nickname field cannot be converted to a string; it is a [buy]
    message of a named connection whose [itemId] cannot be converted; it is
    a [chat] message of a named connection whose text cannot be converted.
    For every other payload, parsable or not, it returns.  In particular the
    [buy] handler, which reads [player.coins] without a check, always finds
    the row. *)
Theorem handler_throws_cases cfg ws r clk s :
  reachable cfg s ->
  (on_message cfg ws r clk s = None <->
   r = ParsedNull
   \/ exists d, r = Parsed d
      /\ ((d_type d = JStr "setName" /\ String_ (nickname_arg cfg d) = None)
          \/ (exists nick, JsMap.get ws (clients s) = Some (Some nick)
              /\ ((d_type d = JStr "buy" /\ String_ (itemId_arg cfg d) = None)
                  \/ (d_type d = JStr "chat"
                      /\ String_ (Js.or (d_text d) (JStr "")) = None))))).
Proof.
  intros Hr. split.
  - destruct r as [| |d]; [discriminate | now left | right].
    exists d. split; [reflexivity|].
    destruct (decide (d_type d = JStr "setName")) as [Hset|Hset].
    { left. split; [exact Hset|].
      rewrite (on_message_setName cfg ws d clk s Hset) in H.
      now apply on_setName_throws in H. }
    right. destruct (JsMap.get ws (clients s)) as [[nick|]|] eqn:Hg.
    + exists nick. split; [reflexivity|].
      destruct (reachable_wellformed cfg s Hr) as [_ Hw].
      destruct (Hw ws nick (get_holds _ _ _ Hg)) as (_ & _ & _ & [p Hp]).
      apply (on_message_named_throws cfg ws nick d clk s p); auto.
      now apply (reachable_named cfg).
    + exfalso. revert H. unfold on_message.
      rewrite (bool_decide_eq_false_2 _ Hset), Hg. discriminate.
    + exfalso. revert H. unfold on_message.
      rewrite (bool_decide_eq_false_2 _ Hset), Hg. discriminate.
  - intros [->|(d & -> & [[Hset Hs]|(nick & Hg & [[Hbuy Hs]|[Hchat Hs]])])].
    + reflexivity.
    + rewrite (on_message_setName cfg ws d clk s Hset).
      now apply on_setName_throws.
    + rewrite (on_message_buy cfg ws nick d clk s
                 (reachable_named cfg s ws nick Hr Hg) Hbuy).
      now apply on_buy_throws.
    + rewrite (on_message_on_chat cfg ws nick d clk s
                 (reachable_named cfg s ws nick Hr Hg) Hchat).
      now apply on_chat_throws.
Qed.

Lemma handler_throws_cases_witness :
  on_message cfg_index 1%nat
    (Parsed (mkData (JStr "buy") JUndefined JUndefined (JObject None) JUndefined))
    a_clock alice_state = None
  /\ on_message cfg_index 1%nat (Parsed (buy_data "auto5")) a_clock alice_state
     <> None.
Proof.
  split.
  - apply (handler_throws_cases cfg_index 1%nat _ a_clock alice_state
             alice_state_reachable).
    right. eexists. split; [reflexivity|]. right. exists "alice".
    split; [reflexivity|]. left. split; reflexivity.
  - intros E.
    apply (handler_throws_cases cfg_index 1%nat _ a_clock alice_state
             alice_state_reachable) in E.
    destruct E as [E|(d & E & [[Ht _]|(nick & _ & [[_ Hs]|[Ht _]])])];
      try discriminate; injection E as <-; discriminate.
Defined.

(** ** Releasing a nickname *)

Lemma on_setName_accepted cfg ws d s :
  claimed_name cfg d <> "" ->
  credential_ok cfg (claimed_name cfg d) (d_adminToken d) ->
  bans s !! claimed_name cfg d = None ->
  (forall c, ~ holds s c (claimed_name cfg d)) ->
  is_accept (snd (setName_result cfg ws d s)) = true
  /\ clients (fst (setName_result cfg ws d s)) =
       JsMap.set ws (Some (claimed_name cfg d)) (clients s).
Proof.
  intros Hne Hc Hb Hfree. apply inUse_false in Hfree.
  pose proof (on_setName_outcome cfg ws d s) as Ho.
  destruct (setName_result cfg ws d s) as [s1 effs]. simpl in *.
  inversion Ho; subst; unfold findBan in *; try congruence.
  - match goal with H : d_adminToken d <> _ |- _ => elim H end. now apply Hc.
  - match goal with H : is_Some _ |- _ => rewrite Hb in H; destruct H;
      discriminate end.
  - split; [reflexivity|assumption].
Qed.

Lemma on_setName_accept_inv cfg ws d s :
  is_accept (snd (setName_result cfg ws d s)) = true ->
  inUse (claimed_name cfg d) s = false
  /\ clients (fst (setName_result cfg ws d s)) =
       JsMap.set ws (Some (claimed_name cfg d)) (clients s).
Proof.
  pose proof (on_setName_outcome cfg ws d s) as Ho.
  destruct (setName_result cfg ws d s) as [s1 effs]. simpl in *.
  inversion Ho; subst; simpl; try discriminate. auto.
Qed.

Lemma on_setName_held cfg ws d s c :
  holds s c (claimed_name cfg d) ->
  claimed_name cfg d <> "" ->
  credential_ok cfg (claimed_name cfg d) (d_adminToken d) ->
  bans s !! claimed_name cfg d = None ->
  setName_result cfg ws d s = (s, [setName_reject ws "inuse"]).
Proof.
  intros Hh Hne Hc Hb.
  assert (Hu : inUse (claimed_name cfg d) s = true) by (apply inUse_true; eauto).
  pose proof (on_setName_outcome cfg ws d s) as Ho.
  destruct (setName_result cfg ws d s) as [s1 effs]. simpl in *.
  inversion Ho; subst; unfold findBan in *; try congruence.
  - match goal with H : d_adminToken d <> _ |- _ => elim H end. now apply Hc.
  - match goal with H : is_Some _ |- _ => rewrite Hb in H; destruct H;
      discriminate end.
Qed.

Lemma on_setName_admin_auth cfg ws d s :
  claimed_name cfg d <> "" ->
  toLowerCase (claimed_name cfg d) = "admin" ->
  d_adminToken d <> JStr (ADMIN_TOKEN cfg) ->
  setName_result cfg ws d s = (s, [setName_reject ws "admin_auth"]).
Proof.
  intros Hne Hl Ht.
  pose proof (on_setName_outcome cfg ws d s) as Ho.
  destruct (setName_result cfg ws d s) as [s1 effs]. simpl in *.
  assert (Hnc : ~ credential_ok cfg (claimed_name cfg d) (d_adminToken d)).
  { intros Hc. now apply Ht, Hc. }
  inversion Ho; subst; try congruence; contradiction.
Qed.

Lemma on_setName_named cfg ws d s :
  claimed_name cfg d <> "" ->
  on_setName cfg ws d s = Some (setName_result cfg ws d s).
Proof.
  intros [raw E]%claimed_name_converted.
  now destruct (on_setName_returns cfg ws d s raw E).
Qed.

(** X4.  Closing releases the nickname.  While [ws] holds a nickname that is
    not banned, a request for it by any connection is answered [inuse], or
    [admin_auth] when the name is the reserved one and the credential of the
    request is not the secret; the close handler removes the entry of [ws]
    and touches no other entry; after it, a request for that nickname by
    another connection is accepted and that connection holds the name,
    unless it is answered [admin_auth] as before. *)
Theorem close_frees_name cfg ws ws' d s :
  reachable cfg s ->
  holds s ws (claimed_name cfg d) ->
  bans s !! claimed_name cfg d = None ->
  let n := claimed_name cfg d in
  let closed := fst (on_close ws s) in
  (credential_ok cfg n (d_adminToken d) ->
   on_setName cfg ws' d s = Some (s, [setName_reject ws' "inuse"]))
  /\ (toLowerCase n = "admin" -> d_adminToken d <> JStr (ADMIN_TOKEN cfg) ->
      on_setName cfg ws' d s = Some (s, [setName_reject ws' "admin_auth"])
      /\ on_setName cfg ws' d closed
         = Some (closed, [setName_reject ws' "admin_auth"]))
  /\ JsMap.get ws (clients closed) = None
  /\ (forall c, c <> ws ->
        JsMap.get c (clients closed) = JsMap.get c (clients s))
  /\ (credential_ok cfg n (d_adminToken d) ->
      exists s' effs,
        on_setName cfg ws' d closed = Some (s', effs)
        /\ is_accept effs = true /\ holds s' ws' n).
Proof.
  intros Hr Hh Hb n closed. subst n closed.
  destruct (reachable_wellformed cfg s Hr) as [_ Hw].
  destruct (Hw ws _ Hh) as (Hne & _).
  pose proof (wf_unique _ (reachable_wf cfg s Hr)) as Hu.
  rewrite !(on_setName_named cfg ws' d _ Hne).
  split.
  { intros Hc. f_equal. now apply (on_setName_held cfg ws' d s ws). }
  split.
  { intros Hl Ht. split; f_equal; now apply on_setName_admin_auth. }
  split; [apply get_delete_eq|].
  split; [intros c Hcw; apply get_delete_ne; congruence|].
  intros Hc.
  destruct (on_setName_accepted cfg ws' d (fst (on_close ws s)))
    as [Hacc Hcl]; auto.
  - intros c Hc'. unfold holds, JsMap.entries in Hc'. simpl in Hc'.
    apply In_delete in Hc'. destruct Hc' as [Hin Hcw]. simpl in Hcw.
    apply Hcw. exact (Hu c ws _ Hin Hh).
  - destruct (setName_result cfg ws' d (fst (on_close ws s))) as [s' effs].
    exists s', effs. split; [reflexivity|]. split; [exact Hacc|].
    unfold holds, JsMap.entries. simpl in Hcl. rewrite Hcl.
    apply In_set_here.
Qed.

Lemma close_frees_name_witness :
  on_setName cfg_index 2%nat (setName_data (JStr "alice") JUndefined) alice_state
  = Some (alice_state, [setName_reject 2%nat "inuse"])
  /\ exists s' effs,
       on_setName cfg_index 2%nat (setName_data (JStr "alice") JUndefined)
         (fst (on_close 1%nat alice_state)) = Some (s', effs)
       /\ is_accept effs = true /\ holds s' 2%nat "alice".
Proof.
  destruct (close_frees_name cfg_index 1%nat 2%nat
              (setName_data (JStr "alice") JUndefined) alice_state
              alice_state_reachable)
    as (Hin & _ & _ & _ & Hacc).
  - now left.
  - reflexivity.
  - assert (Hc : credential_ok cfg_index "alice" JUndefined)
      by (intros Hl; discriminate).
    split; [exact (Hin Hc) | exact (Hacc Hc)].
Defined.

(** X5.  Renaming releases the old nickname.  When a connection that holds
    a nickname has a [setName] request accepted, it holds the new name and
    no connection holds the old one any more; the row of the old name stays
    in [players]. *)
Theorem rename_frees_old_name cfg ws d s old s' effs :
  reachable cfg s -> holds s ws old ->
  on_setName cfg ws d s = Some (s', effs) -> is_accept effs = true ->
  old <> claimed_name cfg d
  /\ holds s' ws (claimed_name cfg d)
  /\ (forall c, ~ holds s' c old)
  /\ is_Some (players s' !! old).
Proof.
  intros Hr Hh Hs Hacc.
  pose proof (on_setName_fst cfg ws d s s' effs Hs) as ->.
  pose proof (on_setName_snd cfg ws d s _ effs Hs) as ->.
  destruct (reachable_wellformed cfg s Hr) as [Hnd Hw].
  pose proof (wf_unique _ (reachable_wf cfg s Hr)) as Hu.
  destruct (on_setName_accept_inv cfg ws d s Hacc) as [Hfree Hcl].
  rewrite inUse_false in Hfree.
  assert (Hne : old <> claimed_name cfg d).
  { intros ->. exact (Hfree ws Hh). }
  split; [exact Hne|]. split.
  { unfold holds, JsMap.entries. rewrite Hcl. apply In_set_here. }
  split.
  - intros c Hc. unfold holds, JsMap.entries in Hc. rewrite Hcl in Hc.
    apply (In_set_NoDup _ _ _ _ _ Hnd) in Hc. destruct Hc as [E|[Hin Hcw]].
    + congruence.
    + apply Hcw. exact (Hu c ws old Hin Hh).
  - destruct (Hw ws old Hh) as (_ & _ & _ & [p Hp]).
    destruct (on_setName_grow cfg ws d s old p Hp) as (p' & Hp' & _). eauto.
Qed.

Lemma rename_frees_old_name_witness :
  exists s' effs,
    on_setName cfg_index 1%nat (setName_data (JStr "carol") JUndefined)
      alice_state = Some (s', effs)
    /\ holds s' 1%nat "carol" /\ ~ holds s' 1%nat "alice".
Proof.
  pose (r := setName_result cfg_index 1%nat
               (setName_data (JStr "carol") JUndefined) alice_state).
  exists (fst r), (snd r). split; [reflexivity|].
  destruct (rename_frees_old_name cfg_index 1%nat
              (setName_data (JStr "carol") JUndefined) alice_state "alice"
              (fst r) (snd r) alice_state_reachable)
    as (_ & Hnew & Hfree & _).
  - now left.
  - reflexivity.
  - reflexivity.
  - split; [exact Hnew | exact (Hfree 1%nat)].
Defined.

(** ** Acting without a name *)

Lemma kick_effects target s e :
  In e (kick target s) ->
  exists c, e = SendTo c (MBanned target) \/ e = Close c.
Proof.
  unfold kick. rewrite in_flat_map. intros ([c n] & _ & Hin). simpl in Hin.
  case_bool_decide; [|contradiction].
  destruct Hin as [<-|[<-|[]]]; eauto.
Qed.

Lemma on_chat_no_error cfg nick d clk s ws :
  ~ In (SendTo ws (MError "not_named")) (snd (chat_result cfg nick d clk s)).
Proof.
  assert (Hban : forall t, ~ In (SendTo ws (MError "not_named"))
                             (snd (do_ban t s))).
  { intros t Hin. simpl in Hin. apply in_app_iff in Hin.
    destruct Hin as [Hin|[Hin|[]]]; [|discriminate].
    apply kick_effects in Hin. destruct Hin as (c & [E|E]); discriminate. }
  unfold chat_result, chat_checks. case_bool_decide; [simpl; tauto|].
  destruct (bool_decide (nick = "admin") && startsWith "/" (chat_text d)).
  2:{ simpl. intros [E|[]]. discriminate. }
  unfold admin_command.
  destruct (variant cfg); repeat case_bool_decide;
    try match goal with
        | |- context [target_of ?l] => destruct (target_of l)
        end;
    try apply Hban; simpl; try tauto; intros [E|[]]; discriminate.
Qed.

(** X6.  Acting without a name.  In a reachable state, for a parsed message
    whose type is not [setName]: the reply [error: not_named] is among the
    calls of the handler exactly when the connection has no nickname in
    [clients]; and then, whatever the type of the message, that reply is
    the only call and the state is unchanged. *)
Theorem not_named_iff_unnamed cfg ws d clk s s' effs :
  reachable cfg s -> d_type d <> JStr "setName" ->
  on_message cfg ws (Parsed d) clk s = Some (s', effs) ->
  (In (SendTo ws (MError "not_named")) effs
   <-> forall n, JsMap.get ws (clients s) <> Some (Some n))
  /\ ((forall n, JsMap.get ws (clients s) <> Some (Some n)) ->
      s' = s /\ effs = [SendTo ws (MError "not_named")]).
Proof.
  intros Hr Ht. unfold on_message.
  rewrite (bool_decide_eq_false_2 _ Ht).
  destruct (JsMap.get ws (clients s)) as [[nick|]|] eqn:Hg.
  2,3: intros [= <- <-]; split;
    [split; [intros _ n; discriminate | intros _; now left]|auto].
  destruct (reachable_wellformed cfg s Hr) as [_ Hw].
  destruct (Hw ws nick (get_holds _ _ _ Hg)) as (Hne & _).
  rewrite (bool_decide_eq_false_2 _ Hne). intros Hm.
  assert (Hno : ~ In (SendTo ws (MError "not_named")) effs).
  { revert Hm. case_bool_decide.
    { unfold on_tap. destruct (findPlayer nick s); [|intros [= <- <-] []].
      match goal with |- context [findPlayer nick ?s1] =>
        destruct (findPlayer nick s1) end; [|discriminate].
      intros [= <- <-] [E|[]]. discriminate. }
    case_bool_decide.
    { unfold on_buy. destruct (String_ _); [|discriminate].
      destruct (shop_items s !! _).
      2:{ intros [= <- <-] [E|[]]. discriminate. }
      destruct (findPlayer nick s); [|discriminate].
      destruct (_ <? _).
      { intros [= <- <-] [E|[]]. discriminate. }
      match goal with |- context [findPlayer nick ?s1] =>
        destruct (findPlayer nick s1) end; [|discriminate].
      intros [= <- <-] [E|[E|[]]]; discriminate. }
    case_bool_decide; [|intros [= <- <-] []].
    intros E%on_chat_snd. subst effs. apply on_chat_no_error. }
  split.
  - split; [intros Hin; now elim Hno | intros Hall; now elim (Hall nick)].
  - intros Hall. now elim (Hall nick).
Qed.

Lemma not_named_iff_unnamed_witness :
  on_message cfg_index 2%nat (Parsed tap_data) a_clock alice_state
  = Some (alice_state, [SendTo 2%nat (MError "not_named")]).
Proof.
  assert (E : exists s' effs,
            on_message cfg_index 2%nat (Parsed tap_data) a_clock alice_state
            = Some (s', effs)) by (eexists _, _; reflexivity).
  destruct E as (s' & effs & E). rewrite E.
  destruct (not_named_iff_unnamed cfg_index 2%nat tap_data a_clock alice_state
              s' effs alice_state_reachable) as [_ Hun].
  - discriminate.
  - exact E.
  - destruct Hun as [-> ->]; [|reflexivity]. intros n. discriminate.
Defined.

(** ** The catalog *)

Lemma init_shop_lookup i :
  shop_items init_state !! i = JsMap.get i SHOP_DEFAULTS.
Proof.
  assert (E : shop_items init_state =
              <["cheapUp" := mkItem "tap +1" 10 "tap" 1]>
                (<["midUp" := mkItem "tap +5" 45 "tap" 5]>
                   (<["auto1" := mkItem "auto +1/s" 30 "auto" 1]>
                      (<["auto5" := mkItem "auto +5/s" 130 "auto" 5]> ∅))))
    by (vm_compute; reflexivity).
  rewrite E. unfold SHOP_DEFAULTS. simpl.
  rewrite !lookup_insert, lookup_empty.
  repeat case_decide; simplify_eq; try reflexivity; congruence.
Qed.

Section Catalog.
Variable cfg : Config.

Lemma on_message_shop ws r clk s s' effs :
  on_message cfg ws r clk s = Some (s', effs) -> shop_items s' = shop_items s.
Proof.
  unfold on_message. destruct r as [| |d]; [now intros [= <- <-]|discriminate|].
  case_bool_decide.
  { intros E%on_setName_fst. subst s'.
    pose proof (on_setName_outcome cfg ws d s) as Ho.
    destruct (setName_result cfg ws d s) as [s1 effs1]. simpl in *.
    inversion Ho; subst; auto. }
  destruct (JsMap.get ws (clients s)) as [[n|]|]; try now intros [= <- <-].
  case_bool_decide; [now intros [= <- <-]|].
  case_bool_decide.
  { unfold on_tap. destruct (findPlayer n s); [|now intros [= <- <-]].
    match goal with |- context [findPlayer n ?s1] =>
      destruct (findPlayer n s1) end; [|discriminate].
    now intros [= <- <-]. }
  case_bool_decide.
  { unfold on_buy. destruct (String_ _); [|discriminate].
    destruct (shop_items s !! _); [|now intros [= <- <-]].
    destruct (findPlayer n s); [|discriminate].
    destruct (_ <? _); [now intros [= <- <-]|].
    match goal with |- context [findPlayer n ?s1] =>
      destruct (findPlayer n s1) end; [|discriminate].
    now intros [= <- <-]. }
  case_bool_decide; [|now intros [= <- <-]].
  intros E%on_chat_fst. subst s'. apply (on_chat_frame cfg n d clk s).
Qed.

Lemma auto_loop_shop rows s :
  shop_items (fold_left
                (fun acc r => if 0 <? snd r
                              then updatePlayerAfterAuto (snd r) (fst r) acc
                              else acc) rows s) = shop_items s.
Proof.
  revert s. induction rows as [|[n val] rows IH]; intros s; [reflexivity|].
  simpl. rewrite IH. now destruct (0 <? val).
Qed.

Lemma on_upload_shop req s :
  shop_items (fst (on_upload cfg req s)) = shop_items s.
Proof.
  unfold on_upload. destruct (file_ext req); [|reflexivity].
  case_bool_decide; [reflexivity|].
  match goal with |- context [negb ?b] => destruct b end; [|reflexivity].
  simpl. match goal with |- context [findPlayer ?n s] =>
    destruct (findPlayer n s) end; reflexivity.
Qed.

Lemma step_shop e s s' effs :
  step cfg e s = Some (s', effs) -> shop_items s' = shop_items s.
Proof.
  destruct e as [ws|ws r clk|ws| |req|]; unfold step;
    try apply on_message_shop; intros E%total_fst; subst s'.
  - reflexivity.
  - reflexivity.
  - apply auto_loop_shop.
  - apply on_upload_shop.
  - reflexivity.
Qed.

Lemma reachable_shop s :
  reachable cfg s -> shop_items s = shop_items init_state.
Proof.
  induction 1 as [|e s s' effs _ IH Hstep]; [reflexivity|].
  now rewrite (step_shop e s s' effs Hstep).
Qed.

End Catalog.

(** X7.  The catalog is read-only.  In every state reachable from an empty
    database, and after any further event, [shop_items] holds exactly the
    four rows of [SHOP_DEFAULTS], each under its [id]. *)
Theorem catalog_read_only cfg s :
  reachable cfg s ->
  (forall i, shop_items s !! i = JsMap.get i SHOP_DEFAULTS)
  /\ (forall e s' effs, step cfg e s = Some (s', effs) ->
      shop_items s' = shop_items s).
Proof.
  intros Hr. split.
  - intros i. rewrite (reachable_shop cfg s Hr). apply init_shop_lookup.
  - intros e s' effs. apply step_shop.
Qed.

Lemma catalog_read_only_witness :
  shop_items alice_ten_taps !! "auto1" = Some (mkItem "auto +1/s" 30 "auto" 1)
  /\ shop_items alice_state !! "gold" = None.
Proof.
  destruct (catalog_read_only cfg_index alice_state alice_state_reachable)
    as [Hl _].
  split; [reflexivity|]. rewrite (Hl "gold"). reflexivity.
Defined.

(** X8.  An unknown item.  In a reachable state a [buy] message of a named
    connection is answered [buyResult] with reason [invalid] exactly when
    [String(itemId)] is none of the four seeded ids, and then the state is
    unchanged. *)
Theorem buy_invalid_iff_unknown cfg ws nick d clk s s' effs :
  reachable cfg s -> named s ws nick -> d_type d = JStr "buy" ->
  on_message cfg ws (Parsed d) clk s = Some (s', effs) ->
  (exists i, String_ (itemId_arg cfg d) = Some i)
  /\ (effs = [SendTo ws (MBuyResult false None (Some "invalid"))]
      <-> forall i, String_ (itemId_arg cfg d) = Some i ->
            ~ In i ["cheapUp"; "midUp"; "auto1"; "auto5"])
  /\ (effs = [SendTo ws (MBuyResult false None (Some "invalid"))] -> s' = s).
Proof.
  intros Hr Hn Ht. rewrite (on_message_buy cfg ws nick d clk s Hn Ht).
  assert (Hcat : forall i, is_Some (shop_items s !! i)
                 <-> In i ["cheapUp"; "midUp"; "auto1"; "auto5"]).
  { intros i. rewrite (reachable_shop cfg s Hr), init_shop_lookup.
    split.
    - intros [x Hx]. unfold SHOP_DEFAULTS in Hx. simpl in Hx.
      repeat (case_decide; [subst i; simpl; auto 10|]). discriminate.
    - intros [<-|[<-|[<-|[<-|[]]]]]; eexists; reflexivity. }
  unfold on_buy.
  destruct (String_ (itemId_arg cfg d)) as [itemId|] eqn:Hstr; [|discriminate].
  intros Hm. split; [eauto|]. revert Hm.
  destruct (shop_items s !! itemId) as [item|] eqn:Hi.
  - assert (Hin : In itemId ["cheapUp"; "midUp"; "auto1"; "auto5"])
      by (apply Hcat; eauto).
    assert (Hno : ~ (forall i, Some itemId = Some i ->
                       ~ In i ["cheapUp"; "midUp"; "auto1"; "auto5"])).
    { intros Hall. now apply (Hall itemId). }
    destruct (findPlayer nick s); [|discriminate].
    destruct (_ <? _).
    { intros [= <- <-]. split; [split|]; [discriminate|tauto|discriminate]. }
    match goal with |- context [findPlayer nick ?s1] =>
      destruct (findPlayer nick s1) end; [|discriminate].
    intros [= <- <-]. split; [split|]; [discriminate|tauto|discriminate].
  - intros [= <- <-]. split; [split|]; auto.
    intros _ i [= <-] Hin. apply Hcat in Hin. destruct Hin. congruence.
Qed.

Lemma buy_invalid_iff_unknown_witness :
  on_message cfg_index 1%nat (Parsed (buy_data "gold")) a_clock alice_state
  = Some (alice_state, [SendTo 1%nat (MBuyResult false None (Some "invalid"))]).
Proof.
  assert (E : exists s' effs,
            on_message cfg_index 1%nat (Parsed (buy_data "gold")) a_clock
                       alice_state = Some (s', effs))
    by (eexists _, _; reflexivity).
  destruct E as (s' & effs & E). rewrite E.
  destruct (buy_invalid_iff_unknown cfg_index 1%nat "alice" (buy_data "gold")
              a_clock alice_state s' effs alice_state_reachable)
    as (_ & [_ Hback] & Hsame).
  - split; [reflexivity | discriminate].
  - reflexivity.
  - exact E.
  - assert (He : effs = [SendTo 1%nat (MBuyResult false None (Some "invalid"))]).
    { apply Hback. intros i [= <-]. simpl.
      intros [H|[H|[H|[H|[]]]]]; discriminate. }
    rewrite (Hsame He), He. reflexivity.
Defined.

(** ** The auto-income tick *)

Lemma auto_loop_chat_bans rows s :
  chat (fold_left
          (fun acc r => if 0 <? snd r
                        then updatePlayerAfterAuto (snd r) (fst r) acc
                        else acc) rows s) = chat s
  /\ bans (fold_left
          (fun acc r => if 0 <? snd r
                        then updatePlayerAfterAuto (snd r) (fst r) acc
                        else acc) rows s) = bans s.
Proof.
  revert s. induction rows as [|[n val] rows IH]; intros s; [auto|].
  simpl. destruct (IH (if 0 <? val then updatePlayerAfterAuto val n s else s))
    as [-> ->]. now destruct (0 <? val).
Qed.

Lemma auto_loop_lookup rows s m :
  List.NoDup (map fst rows) ->
  players (fold_left
             (fun acc r => if 0 <? snd r
                           then updatePlayerAfterAuto (snd r) (fst r) acc
                           else acc) rows s) !! m
  = match JsMap.get m rows with
    | Some val =>
      if 0 <? val
      then (fun p => mkPlayer (coins p + val) (tap_value p) (auto_per_sec p)
                              (taps p) (icon p)) <$> players s !! m
      else players s !! m
    | None => players s !! m
    end.
Proof.
  revert s. induction rows as [|[n val] rows IH]; intros s Hnd; [reflexivity|].
  inversion Hnd as [|? ? Hnotin Hnd']; subst. simpl.
  rewrite (IH _ Hnd'). destruct (decide (m = n)) as [->|Hne].
  - destruct (JsMap.get n rows) as [v|] eqn:Hg.
    { elim Hnotin. apply get_In in Hg. apply in_map_iff. now exists (n, v). }
    destruct (0 <? val); [|reflexivity]. simpl. apply lookup_alter_eq.
  - assert (Hsame : players (if 0 <? val
                             then updatePlayerAfterAuto val n s else s) !! m
                    = players s !! m).
    { destruct (0 <? val); [|reflexivity]. simpl.
      apply lookup_alter_ne. congruence. }
    now rewrite Hsame.
Qed.

Lemma auto_rows_NoDup s : List.NoDup (map fst (auto_rows s)).
Proof.
  unfold auto_rows.
  pose proof (NoDup_fst_map_to_list (players s)) as Hnd.
  apply NoDup_ListNoDup in Hnd. revert Hnd.
  induction (map_to_list (players s)) as [|[n p] l IH]; simpl; intros Hnd;
    [constructor|].
  inversion Hnd as [|? ? Hnotin Hnd']; subst.
  destruct (0 <? auto_per_sec p); simpl; [|now apply IH].
  constructor; [|now apply IH].
  intros Hin. apply Hnotin. apply in_map_iff in Hin.
  destruct Hin as ([n1 v1] & E & Hin). simpl in E. subst n1.
  apply list_elem_of_In, list_elem_of_omap in Hin.
  destruct Hin as ([n2 p2] & Hin & Hf). simpl in Hf.
  destruct (0 <? auto_per_sec p2); [|discriminate]. injection Hf as -> _.
  apply in_map_iff. exists (n, p2). split; [reflexivity|].
  now apply list_elem_of_In.
Qed.

Lemma auto_rows_In s n val :
  In (n, val) (auto_rows s)
  <-> exists p, players s !! n = Some p /\ 0 < auto_per_sec p
                /\ val = auto_per_sec p.
Proof.
  unfold auto_rows. rewrite <- list_elem_of_In, list_elem_of_omap. split.
  - intros ([n1 p] & Hin & Hf). simpl in Hf.
    destruct (0 <? auto_per_sec p) eqn:Hpos; [|discriminate].
    injection Hf as E1 E2. subst n1 val. apply elem_of_map_to_list in Hin.
    apply Z.ltb_lt in Hpos. eauto.
  - intros (p & Hp & Hpos & ->). exists (n, p). split.
    + now apply elem_of_map_to_list.
    + simpl. apply Z.ltb_lt in Hpos. now rewrite Hpos.
Qed.

Lemma on_tick_players s : players (fst (on_tick s)) = credited <$> players s.
Proof.
  apply map_eq. intros m. simpl.
  rewrite (auto_loop_lookup _ s m (auto_rows_NoDup s)), lookup_fmap.
  destruct (JsMap.get m (auto_rows s)) as [val|] eqn:Hg.
  - apply get_In, auto_rows_In in Hg. destruct Hg as (p & Hp & Hpos & ->).
    rewrite Hp. simpl. unfold credited.
    apply Z.ltb_lt in Hpos. now rewrite Hpos.
  - destruct (players s !! m) as [p|] eqn:Hp; [|reflexivity]. simpl.
    unfold credited. destruct (0 <? auto_per_sec p) eqn:Hpos; [|reflexivity].
    apply Z.ltb_lt in Hpos.
    assert (Hin : In (m, auto_per_sec p) (auto_rows s))
      by (apply auto_rows_In; eauto).
    apply (In_get_NoDup _ _ _ (auto_rows_NoDup s)) in Hin. congruence.
Qed.

(** *** The two queries of the broadcast *)

Lemma by_nickname_trans : Transitive by_nickname.
Proof. intros a b c. unfold by_nickname. apply transitivity. Qed.

Lemma by_nickname_total : Total by_nickname.
Proof. intros a b. unfold by_nickname. apply (total String.le). Qed.

Lemma by_taps_desc_trans : Transitive by_taps_desc.
Proof. intros a b c. unfold by_taps_desc. lia. Qed.

Lemma by_taps_desc_total : Total by_taps_desc.
Proof. intros a b. unfold by_taps_desc. lia. Qed.

Lemma selected_rows_In (tbl : gmap string Player) n r :
  In (n, r) (map_to_list (rank_row <$> tbl))
  <-> exists p, tbl !! n = Some p /\ r = rank_row p.
Proof.
  rewrite <- list_elem_of_In, elem_of_map_to_list, lookup_fmap_Some.
  split; intros (p & A & B); eauto.
Qed.

Lemma listPlayers_Permutation s :
  listPlayers s ≡ₚ map_to_list (rank_row <$> players s).
Proof. apply merge_sort_Permutation. Qed.

Lemma listPlayers_NoDup s : List.NoDup (map fst (listPlayers s)).
Proof.
  apply NoDup_ListNoDup.
  change (map fst (listPlayers s)) with ((listPlayers s).*1).
  rewrite listPlayers_Permutation. apply NoDup_fst_map_to_list.
Qed.

Lemma listPlayers_In s n r :
  In (n, r) (listPlayers s)
  <-> exists p, players s !! n = Some p /\ r = rank_row p.
Proof.
  rewrite <- selected_rows_In, <- !list_elem_of_In.
  now rewrite listPlayers_Permutation.
Qed.

Lemma listPlayers_length s : length (listPlayers s) = size (players s).
Proof.
  rewrite listPlayers_Permutation, length_map_to_list. apply map_size_fmap.
Qed.

Lemma listPlayers_spec s : player_list (players s) (listPlayers s).
Proof.
  split; [apply listPlayers_NoDup|]. split; [apply listPlayers_In|].
  apply (@StronglySorted_merge_sort _ by_nickname _
           by_nickname_trans by_nickname_total).
Qed.

Lemma getTopRank_spec s : top_ranking (players s) (getTopRank s).
Proof.
  unfold getTopRank.
  set (sorted := merge_sort by_taps_desc (listPlayers s)).
  assert (Hperm : sorted ≡ₚ listPlayers s) by apply merge_sort_Permutation.
  assert (Hsort : StronglySorted by_taps_desc sorted)
    by apply (@StronglySorted_merge_sort _ by_taps_desc _
                by_taps_desc_trans by_taps_desc_total).
  assert (Hnd : NoDup (sorted.*1)).
  { rewrite Hperm. apply NoDup_ListNoDup, listPlayers_NoDup. }
  rewrite <- (take_drop 100 sorted) in Hsort, Hnd.
  rewrite fmap_app in Hnd. apply NoDup_app in Hnd as (Hnd & _ & _).
  apply StronglySorted_app in Hsort as (Hcut & Hsort & _).
  assert (Hin : forall n r, In (n, r) (take 100 sorted) ->
            exists p, players s !! n = Some p /\ r = rank_row p).
  { intros n r Hi. apply listPlayers_In. apply list_elem_of_In.
    rewrite <- Hperm, <- (take_drop 100 sorted).
    apply elem_of_app. left. now apply list_elem_of_In. }
  split.
  { rewrite length_take. f_equal. rewrite Hperm. apply listPlayers_length. }
  split; [now apply NoDup_ListNoDup|].
  split; [exact Hin|]. split; [exact Hsort|].
  intros n p Hp Hout m r Hm.
  assert (Hall : (n, rank_row p) ∈ take 100 sorted ++ drop 100 sorted).
  { rewrite take_drop, Hperm. apply list_elem_of_In, listPlayers_In. eauto. }
  apply elem_of_app in Hall as [Hl|Hd].
  - elim Hout. apply in_map_iff. exists (n, rank_row p).
    split; [reflexivity|]. now apply list_elem_of_In.
  - apply list_elem_of_In in Hm. exact (Hcut _ _ Hm Hd).
Qed.

(** X9.  One tick.  As long as the coins stay integers that JavaScript
    numbers hold exactly, the tick adds [auto_per_sec] to the coins of every
    player whose [auto_per_sec] is positive, once, changes no other field
    and no other row, leaves sessions, catalog, chat and bans alone, and
    makes exactly one call: the broadcast of the ranking and of the player
    list of the updated table. *)
Theorem tick_credits_once s :
  (forall n p, players s !! n = Some p ->
     player_safe p /\ player_safe (credited p)) ->
  players (fst (on_tick s)) = credited <$> players s
  /\ clients (fst (on_tick s)) = clients s
  /\ shop_items (fst (on_tick s)) = shop_items s
  /\ chat (fst (on_tick s)) = chat s
  /\ bans (fst (on_tick s)) = bans s
  /\ exists ranks list,
       snd (on_tick s) = [Broadcast (MRanks ranks list)]
       /\ top_ranking (credited <$> players s) ranks
       /\ player_list (credited <$> players s) list.
Proof.
  intros _. pose proof (on_tick_players s) as Hpl.
  split; [exact Hpl|]. split; [apply auto_loop_clients|].
  split; [apply auto_loop_shop|].
  split; [apply auto_loop_chat_bans|]. split; [apply auto_loop_chat_bans|].
  exists (getTopRank (fst (on_tick s))), (listPlayers (fst (on_tick s))).
  split; [reflexivity|]. rewrite <- Hpl.
  split; [apply getTopRank_spec | apply listPlayers_spec].
Qed.

Lemma tick_credits_once_witness :
  players (fst (on_tick alice_earning)) !! "alice"
  = Some (mkPlayer 7 1 2 0 None).
Proof.
  destruct (tick_credits_once alice_earning) as [Hpl _].
  - intros n p Hp.
    assert (Hal : players alice_earning
                  = <["alice" := mkPlayer 5 1 2 0 None]> ∅) by reflexivity.
    rewrite Hal in Hp. apply lookup_insert_Some in Hp.
    destruct Hp as [[_ <-]|[_ Hp]]; [|now rewrite lookup_empty in Hp]. unfold player_safe, safe, MAX_SAFE_INTEGER. simpl. lia.
  - rewrite Hpl. reflexivity.
Defined.

(** ** A new connection *)

(** X10.  A new connection.  The handler sends the new socket one [init]
    message with the whole catalog, the ranking (the best hundred players by
    taps), and the chat rows in the order of their insertion, the last 200
    of them when there are more; it registers the socket without a nickname
    and changes nothing else. *)
Theorem connection_init ws s :
  (exists ranks,
     snd (on_connection ws s) =
       [SendTo ws (MInit (shop_items s) ranks
                         (skipn (length (chat s) - 200) (chat s)))]
     /\ top_ranking (players s) ranks)
  /\ (length (skipn (length (chat s) - 200) (chat s)) <= 200)%nat
  /\ JsMap.get ws (clients (fst (on_connection ws s))) = Some None
  /\ (forall c, c <> ws ->
        JsMap.get c (clients (fst (on_connection ws s)))
        = JsMap.get c (clients s))
  /\ players (fst (on_connection ws s)) = players s
  /\ shop_items (fst (on_connection ws s)) = shop_items s
  /\ chat (fst (on_connection ws s)) = chat s
  /\ bans (fst (on_connection ws s)) = bans s.
Proof.
  split.
  { exists (getTopRank s). split; [|apply getTopRank_spec].
    unfold on_connection, recentChats, shopAll. simpl.
    now rewrite firstn_rev, List.rev_involutive. }
  split; [rewrite length_skipn; lia|].
  split; [apply get_set_eq|].
  split; [intros c Hc; apply get_set_ne; congruence|].
  repeat split; reflexivity.
Qed.

(** ** The chat log and the ban table *)

Lemma on_upload_chat_bans cfg req s :
  chat (fst (on_upload cfg req s)) = chat s
  /\ bans (fst (on_upload cfg req s)) = bans s.
Proof.
  unfold on_upload. destruct (file_ext req); [|auto].
  case_bool_decide; [auto|].
  match goal with |- context [negb ?b] => destruct b end; [|auto].
  simpl. match goal with |- context [findPlayer ?n s] =>
    destruct (findPlayer n s) end; auto.
Qed.

Lemma target_of_nonempty parts t : target_of parts = Some t -> t <> "".
Proof.
  unfold target_of. destruct (nth_error parts 1); [|discriminate].
  case_bool_decide; [discriminate|]. now intros [= <-].
Qed.

Section Logs.
Variable cfg : Config.

Lemma on_message_chat_log ws r clk s s' effs :
  on_message cfg ws r clk s = Some (s', effs) ->
  chat s' = chat s
  \/ exists nick d,
       nick <> "" /\ chat_text d <> ""
       /\ (s', effs) = normal_chat nick (chat_text d) clk s.
Proof.
  unfold on_message. destruct r as [| |d]; [|discriminate|].
  { intros [= <- <-]. now left. }
  case_bool_decide.
  { intros E%on_setName_fst. subst s'. left. apply on_setName_chat. }
  destruct (JsMap.get ws (clients s)) as [[nick|]|];
    try (intros [= <- <-]; now left).
  case_bool_decide as Hne; [intros [= <- <-]; now left|].
  case_bool_decide.
  { intros E. left. eapply on_tap_chat; eauto. }
  case_bool_decide.
  { intros E. left. eapply on_buy_chat; eauto. }
  case_bool_decide; [|intros [= <- <-]; now left].
  intros [E _]%on_chat_Some.
  destruct (decide (chat_text d = "")) as [He|He].
  { rewrite (on_chat_empty cfg nick d clk s He) in E.
    injection E as -> ->. now left. }
  destruct (on_chat_cases cfg nick d clk s) as [Hs|Hs]; rewrite <- E in Hs.
  - now left.
  - right. exists nick, d. auto.
Qed.

Lemma step_chat_log e s s' effs :
  step cfg e s = Some (s', effs) ->
  chat s' = chat s
  \/ exists row, chat s' = chat s ++ [row] /\ chat_row_ok row.
Proof.
  destruct e as [ws|ws r clk|ws| |req|]; unfold step.
  - intros E%total_fst. subst s'. now left.
  - intros Hm. destruct (on_message_chat_log ws r clk s s' effs Hm)
      as [Hs|(nick & d & Hne & Ht & E)]; [now left|right].
    unfold normal_chat in E. injection E as -> _.
    eexists. split; [reflexivity|].
    repeat split; simpl; auto using chat_text_length, chat_text_trimmed.
  - intros E%total_fst. subst s'. now left.
  - intros E%total_fst. subst s'. left. apply auto_loop_chat_bans.
  - intros E%total_fst. subst s'. left. apply on_upload_chat_bans.
  - intros E%total_fst. subst s'. now left.
Qed.

Lemma admin_command_bans text s r :
  admin_command cfg text s = Some r ->
  bans (fst r) = bans s
  \/ exists t, t <> ""
       /\ (bans (fst r) = <[t := "banned by admin"]> (bans s)
           \/ bans (fst r) = delete t (bans s)).
Proof.
  unfold admin_command.
  destruct (variant cfg); repeat case_bool_decide;
    try match goal with
        | |- context [target_of ?l] =>
          destruct (target_of l) as [t|] eqn:Ht
        end;
    intros [= <-]; simpl; auto;
    right; exists t; (split; [exact (target_of_nonempty _ _ Ht)|]); auto.
Qed.

Lemma on_message_bans ws r clk s s' effs :
  on_message cfg ws r clk s = Some (s', effs) ->
  bans s' = bans s
  \/ (JsMap.get ws (clients s) = Some (Some "admin")
      /\ exists t, t <> ""
           /\ (bans s' = <[t := "banned by admin"]> (bans s)
               \/ bans s' = delete t (bans s))).
Proof.
  unfold on_message. destruct r as [| |d]; [|discriminate|].
  { intros [= <- <-]. now left. }
  case_bool_decide.
  { intros E%on_setName_fst. subst s'. left.
    pose proof (on_setName_outcome cfg ws d s) as Ho.
    destruct (setName_result cfg ws d s) as [s1 effs1]. simpl in *.
    inversion Ho; subst; auto. }
  destruct (JsMap.get ws (clients s)) as [[nick|]|];
    try (intros [= <- <-]; now left).
  case_bool_decide; [intros [= <- <-]; now left|].
  case_bool_decide.
  { unfold on_tap. destruct (findPlayer nick s); [|intros [= <- <-]; now left].
    match goal with |- context [findPlayer nick ?s1] =>
      destruct (findPlayer nick s1) end; [|discriminate].
    intros [= <- <-]. now left. }
  case_bool_decide.
  { unfold on_buy. destruct (String_ _); [|discriminate].
    destruct (shop_items s !! _); [|intros [= <- <-]; now left].
    destruct (findPlayer nick s); [|discriminate].
    destruct (_ <? _); [intros [= <- <-]; now left|].
    match goal with |- context [findPlayer nick ?s1] =>
      destruct (findPlayer nick s1) end; [|discriminate].
    intros [= <- <-]. now left. }
  case_bool_decide; [|intros [= <- <-]; now left].
  intros E%on_chat_fst. subst s'. unfold chat_result, chat_checks.
  case_bool_decide; [now left|].
  case_bool_decide as Ha; simpl; [|now left]. subst nick.
  destruct (startsWith "/" (chat_text d)); [|now left].
  destruct (admin_command cfg (chat_text d) s) as [r|] eqn:Hc; [|now left].
  destruct (admin_command_bans _ _ _ Hc) as [Hb|Hb]; [now left|right]. auto.
Qed.

Lemma step_bans e s s' effs :
  step cfg e s = Some (s', effs) ->
  bans s' = bans s
  \/ exists ws r clk t,
       e = Message ws r clk
       /\ JsMap.get ws (clients s) = Some (Some "admin") /\ t <> ""
       /\ (bans s' = <[t := "banned by admin"]> (bans s)
           \/ bans s' = delete t (bans s)).
Proof.
  destruct e as [ws|ws r clk|ws| |req|]; unfold step.
  - intros E%total_fst. subst s'. now left.
  - intros Hm. destruct (on_message_bans ws r clk s s' effs Hm)
      as [Hb|(Hg & t & Ht & Hb)]; [now left|right].
    exists ws, r, clk, t. auto.
  - intros E%total_fst. subst s'. now left.
  - intros E%total_fst. subst s'. left. apply auto_loop_chat_bans.
  - intros E%total_fst. subst s'. left. apply on_upload_chat_bans.
  - intros E%total_fst. subst s'. now left.
Qed.

End Logs.

(** X11.  The chat log is append-only and its rows are well formed.  Every
    event leaves the log as it is or appends one row to it; and every row of
    the log of a reachable state has a non-empty sender and a trimmed,
    non-empty text of at most 500 characters. *)
Theorem chat_log_append_only cfg s :
  reachable cfg s ->
  List.Forall chat_row_ok (chat s)
  /\ (forall e s' effs, step cfg e s = Some (s', effs) ->
      chat s' = chat s
      \/ exists row, chat s' = chat s ++ [row] /\ chat_row_ok row).
Proof.
  intros Hr. split; [|intros e s' effs; apply step_chat_log].
  induction Hr as [|e s s' effs _ IH Hstep]; [constructor|].
  destruct (step_chat_log cfg e s s' effs Hstep) as [->|(row & -> & Hrow)];
    [exact IH|].
  apply Forall_app. split; [exact IH|]. now constructor.
Qed.

Lemma chat_log_append_only_witness :
  List.Forall chat_row_ok
    (chat (insertChat (mkChat "alice" None "hello" 1700000000) alice_state)).
Proof.
  refine (proj1 (chat_log_append_only cfg_index _ _)).
  eapply (reachable_step cfg_index
            (Message 1%nat (Parsed (chat_data "  hello ")) a_clock));
    [exact alice_state_reachable | reflexivity].
Defined.

(** X12.  Only the administrator changes the ban table.  An event changes
    [bans] only if it is a message of the connection whose nickname is
    exactly "admin", and then by setting the row of one non-empty target to
    "banned by admin" or by deleting the row of one target; so every row
    of [bans] in a reachable state has a non-empty nickname and that
    reason. *)
Theorem bans_changed_only_by_admin cfg s :
  reachable cfg s ->
  (forall n r, bans s !! n = Some r -> n <> "" /\ r = "banned by admin")
  /\ (forall e s' effs, step cfg e s = Some (s', effs) ->
      bans s' = bans s
      \/ exists ws r clk t,
           e = Message ws r clk
           /\ JsMap.get ws (clients s) = Some (Some "admin") /\ t <> ""
           /\ (bans s' = <[t := "banned by admin"]> (bans s)
               \/ bans s' = delete t (bans s))).
Proof.
  intros Hr. split; [|intros e s' effs; apply step_bans].
  induction Hr as [|e s s' effs _ IH Hstep].
  { intros n r. simpl. rewrite lookup_empty. discriminate. }
  destruct (step_bans cfg e s s' effs Hstep)
    as [->|(ws & r0 & clk & t & _ & _ & Ht & [->| ->])]; [exact IH| |].
  - intros n r. rewrite lookup_insert. case_decide.
    + intros [= <-]. subst n. auto.
    + apply IH.
  - intros n r. rewrite lookup_delete. case_decide; [discriminate|apply IH].
Qed.

Lemma admin_and_bob_reachable : reachable cfg_index admin_and_bob.
Proof.
  eapply (reachable_step cfg_index
            (Message 2%nat (Parsed (setName_data (JStr "bob") JUndefined))
                     a_clock));
    [exact admin_state_reachable | reflexivity].
Qed.

Lemma bob_banned_reachable : reachable cfg_index bob_banned.
Proof.
  eapply (reachable_step cfg_index
            (Message 1%nat (Parsed (chat_data "/ban bob")) a_clock));
    [exact admin_and_bob_reachable | reflexivity].
Qed.

Lemma bans_changed_only_by_admin_witness :
  exists r, bans bob_banned !! "bob" = Some r /\ r = "banned by admin".
Proof.
  eexists. split; [reflexivity|].
  exact (proj2 (proj1 (bans_changed_only_by_admin cfg_index bob_banned
                         bob_banned_reachable) "bob" _ eq_refl)).
Defined.

(** ** Banning *)

Lemma kick_nobody target s :
  (forall c, ~ holds s c target) -> kick target s = [].
Proof.
  unfold kick, holds, JsMap.entries. induction (clients s) as [|[k v] l IH];
    intros Hno; [reflexivity|]. simpl.
  rewrite IH by (intros c Hc; apply (Hno c); now right).
  case_bool_decide as Hv; [|reflexivity]. simpl in Hv. subst v.
  elim (Hno k). now left.
Qed.

Lemma kick_one target s c :
  List.NoDup (map fst (clients s)) -> sessions_unique s ->
  holds s c target ->
  kick target s = [SendTo c (MBanned target); Close c].
Proof.
  unfold kick, sessions_unique, holds, JsMap.entries.
  induction (clients s) as [|[k v] l IH]; intros Hnd Hu Hh; [contradiction|].
  inversion Hnd as [|? ? Hnotin Hnd']; subst. simpl.
  case_bool_decide as Hv; simpl in Hv.
  - subst v. assert (k = c) by (apply (Hu k c target); [now left|exact Hh]).
    subst k. simpl. f_equal. f_equal.
    assert (Hrest : forall c', ~ In (c', Some target) l).
    { intros c' Hc'. assert (c' = c) by (apply (Hu c' c target); [now right|exact Hh]).
      subst c'. apply Hnotin. apply in_map_iff. now exists (c, Some target). }
    clear -Hrest. induction l as [|[k v] l IH]; [reflexivity|]. simpl.
    rewrite IH by (intros c' Hc'; apply (Hrest c'); now right).
    case_bool_decide as Hv; [|reflexivity]. simpl in Hv. subst v.
    elim (Hrest k). now left.
  - destruct Hh as [E|Hh]; [congruence|]. simpl. apply IH; auto.
    intros c1 c2 n H1 H2. apply (Hu c1 c2 n); now right.
Qed.

Lemma on_setName_banned cfg ws d s r :
  claimed_name cfg d <> "" ->
  credential_ok cfg (claimed_name cfg d) (d_adminToken d) ->
  bans s !! claimed_name cfg d = Some r ->
  setName_result cfg ws d s = (s, [setName_reject ws "banned"]).
Proof.
  intros Hne Hc Hb.
  pose proof (on_setName_outcome cfg ws d s) as Ho.
  destruct (setName_result cfg ws d s) as [s1 effs]. simpl in *.
  inversion Ho; subst; unfold findBan in *; try congruence.
  match goal with H : d_adminToken d <> _ |- _ => elim H end. now apply Hc.
Qed.

Lemma on_message_ban cfg ws d clk s target :
  named s ws "admin" -> d_type d = JStr "chat" ->
  startsWith "/" (chat_text d) = true ->
  toLowerCase (nth 0 (split_ws (chat_text d)) "") = "/ban" ->
  target_of (split_ws (chat_text d)) = Some target ->
  on_message cfg ws (Parsed d) clk s = Some (do_ban target s).
Proof.
  intros Hn Ht Hs Hc Htg.
  rewrite (on_message_chat cfg ws "admin" d clk s Hn Ht (slash_nonempty _ Hs)).
  rewrite (on_chat_admin cfg d clk s Hs). unfold admin_command.
  destruct (variant cfg); rewrite ?chat_text_trimmed, Hc, Htg; reflexivity.
Qed.

Lemma on_message_unban cfg ws d clk s target :
  named s ws "admin" -> d_type d = JStr "chat" ->
  startsWith "/" (chat_text d) = true ->
  toLowerCase (nth 0 (split_ws (chat_text d)) "") = "/bro" ->
  target_of (split_ws (chat_text d)) = Some target ->
  on_message cfg ws (Parsed d) clk s = Some (do_unban target s).
Proof.
  intros Hn Ht Hs Hc Htg.
  rewrite (on_message_chat cfg ws "admin" d clk s Hn Ht (slash_nonempty _ Hs)).
  rewrite (on_chat_admin cfg d clk s Hs). unfold admin_command.
  destruct (variant cfg); rewrite ?chat_text_trimmed, Hc, Htg; reflexivity.
Qed.

(** X13.  The command [/ban].  In a reachable state, [/ban] with a target
    from the connection named "admin" sets the ban row of the target to
    "banned by admin"; it sends [banned] to the connection holding the
    target and closes it, to that one connection only, and to none when
    nobody holds the target; then it broadcasts the notice.  It records no
    chat message and leaves [clients] as it is: the entry of the banned
    connection stays until its close event. *)
Theorem ban_command cfg ws d clk s target :
  reachable cfg s ->
  named s ws "admin" -> d_type d = JStr "chat" ->
  startsWith "/" (chat_text d) = true ->
  toLowerCase (nth 0 (split_ws (chat_text d)) "") = "/ban" ->
  target_of (split_ws (chat_text d)) = Some target ->
  exists s' kicked,
    on_message cfg ws (Parsed d) clk s =
      Some (s', kicked ++ [Broadcast (MSystem (target +:+ " is banned"))])
    /\ (forall c, holds s c target ->
          kicked = [SendTo c (MBanned target); Close c])
    /\ ((forall c, ~ holds s c target) -> kicked = [])
    /\ bans s' = <[target := "banned by admin"]> (bans s)
    /\ clients s' = clients s /\ chat s' = chat s
    /\ players s' = players s /\ shop_items s' = shop_items s.
Proof.
  intros Hr Hn Ht Hs Hc Htg.
  rewrite (on_message_ban cfg ws d clk s target Hn Ht Hs Hc Htg).
  exists (addBan target "banned by admin" s), (kick target s).
  split; [reflexivity|].
  destruct (reachable_wellformed cfg s Hr) as [Hnd _].
  pose proof (wf_unique _ (reachable_wf cfg s Hr)) as Hu.
  split; [intros c Hh; now apply kick_one|].
  split; [apply kick_nobody|].
  repeat split; reflexivity.
Qed.

Lemma ban_command_witness :
  on_message cfg_index 1%nat (Parsed (chat_data "/ban bob")) a_clock
             admin_and_bob
  = Some (bob_banned,
          [SendTo 2%nat (MBanned "bob"); Close 2%nat;
           Broadcast (MSystem "bob is banned")]).
Proof.
  destruct (ban_command cfg_index 1%nat (chat_data "/ban bob") a_clock
              admin_and_bob "bob" admin_and_bob_reachable)
    as (s' & kicked & Hrun & Hone & _).
  - split; [reflexivity | discriminate].
  - reflexivity.
  - reflexivity.
  - reflexivity.
  - reflexivity.
  - rewrite Hrun, (Hone 2%nat) by (right; now left).
    assert (E : Some s' = Some bob_banned).
    { change (Some s') with (fst <$> Some (s', kicked ++
        [Broadcast (MSystem ("bob" +:+ " is banned"))])).
      rewrite <- Hrun. reflexivity. }
    injection E as ->. reflexivity.
Defined.

(** X14.  A banned nickname cannot be claimed.  After [/ban] with a target
    from the administrator, every [setName] request for that nickname, from
    any connection and whether or not a connection still holds the name, is
    rejected and changes nothing: with reason [banned], or with reason
    [admin_auth] when the nickname is the reserved one and the credential of
    the request is not the secret. *)
Theorem ban_then_claim_rejected cfg ws d clk s target :
  named s ws "admin" -> d_type d = JStr "chat" ->
  startsWith "/" (chat_text d) = true ->
  toLowerCase (nth 0 (split_ws (chat_text d)) "") = "/ban" ->
  target_of (split_ws (chat_text d)) = Some target ->
  exists s' effs,
    on_message cfg ws (Parsed d) clk s = Some (s', effs)
    /\ forall ws2 d2,
         claimed_name cfg d2 = target ->
         (credential_ok cfg target (d_adminToken d2) ->
          on_setName cfg ws2 d2 s' = Some (s', [setName_reject ws2 "banned"]))
         /\ (toLowerCase target = "admin" ->
             d_adminToken d2 <> JStr (ADMIN_TOKEN cfg) ->
             on_setName cfg ws2 d2 s'
             = Some (s', [setName_reject ws2 "admin_auth"])).
Proof.
  intros Hn Ht Hs Hc Htg.
  rewrite (on_message_ban cfg ws d clk s target Hn Ht Hs Hc Htg).
  eexists _, _. split; [reflexivity|]. intros ws2 d2 Hname.
  assert (Hne : claimed_name cfg d2 <> "").
  { rewrite Hname. exact (target_of_nonempty _ _ Htg). }
  rewrite (on_setName_named cfg ws2 d2 _ Hne). split.
  - intros Hcred. f_equal.
    apply (on_setName_banned cfg ws2 d2 _ "banned by admin").
    + exact Hne.
    + now rewrite Hname.
    + rewrite Hname. simpl. apply lookup_insert_eq.
  - intros Hl Htok. f_equal. apply on_setName_admin_auth; auto.
    now rewrite Hname.
Qed.

Lemma ban_then_claim_rejected_witness :
  on_setName cfg_index 3%nat (setName_data (JStr " bob ") JUndefined) bob_banned
  = Some (bob_banned, [setName_reject 3%nat "banned"]).
Proof.
  destruct (ban_then_claim_rejected cfg_index 1%nat (chat_data "/ban bob")
              a_clock admin_and_bob "bob")
    as (s' & effs & Hrun & Hrej).
  - split; [reflexivity | discriminate].
  - reflexivity.
  - reflexivity.
  - reflexivity.
  - reflexivity.
  - assert (E : Some s' = Some bob_banned).
    { change (Some s') with (fst <$> Some (s', effs)). rewrite <- Hrun.
      reflexivity. }
    injection E as ->.
    apply (Hrej 3%nat (setName_data (JStr " bob ") JUndefined)); [reflexivity|].
    intros Hl. discriminate.
Defined.

Lemma kick_closes target s c :
  holds s c target ->
  In (SendTo c (MBanned target)) (kick target s)
  /\ In (Close c) (kick target s).
Proof.
  intros Hh. unfold kick. rewrite !in_flat_map.
  split; exists (c, Some target); (split; [exact Hh|]); simpl;
    rewrite bool_decide_eq_true_2 by reflexivity; simpl; auto.
Qed.

(** X15.  [/ban] followed by [/bro].  When the administrator bans a target
    and then unbans it, the first command sends [banned] to every connection
    that holds the target and closes it, which the second does not undo; the
    two commands leave no ban row for the target and change nothing else in
    the database or in [clients]; so when the target was not banned before,
    the database and [clients] are as they were before the two commands. *)
Theorem ban_then_unban cfg ws d1 d2 clk1 clk2 s target :
  named s ws "admin" ->
  d_type d1 = JStr "chat" -> startsWith "/" (chat_text d1) = true ->
  toLowerCase (nth 0 (split_ws (chat_text d1)) "") = "/ban" ->
  target_of (split_ws (chat_text d1)) = Some target ->
  d_type d2 = JStr "chat" -> startsWith "/" (chat_text d2) = true ->
  toLowerCase (nth 0 (split_ws (chat_text d2)) "") = "/bro" ->
  target_of (split_ws (chat_text d2)) = Some target ->
  exists s1 effs s2,
    on_message cfg ws (Parsed d1) clk1 s = Some (s1, effs)
    /\ (forall c, holds s c target ->
          In (SendTo c (MBanned target)) effs /\ In (Close c) effs)
    /\ on_message cfg ws (Parsed d2) clk2 s1 =
         Some (s2, [Broadcast (MSystem (target +:+ " is unbanned"))])
    /\ bans s2 = delete target (bans s)
    /\ clients s2 = clients s /\ players s2 = players s
    /\ shop_items s2 = shop_items s /\ chat s2 = chat s
    /\ (bans s !! target = None -> s2 = s).
Proof.
  intros Hn Ht1 Hs1 Hc1 Htg1 Ht2 Hs2 Hc2 Htg2.
  rewrite (on_message_ban cfg ws d1 clk1 s target Hn Ht1 Hs1 Hc1 Htg1).
  eexists _, _, _. split; [reflexivity|]. split.
  { intros c Hh. destruct (kick_closes target s c Hh) as [Hsend Hclose].
    split; apply in_or_app; left; assumption. }
  split.
  { apply (on_message_unban cfg ws d2 clk2 _ target); auto. }
  assert (Hb : delete target (<[target := "banned by admin"]> (bans s))
               = delete target (bans s)) by apply delete_insert_eq.
  split; [exact Hb|]. repeat split; try reflexivity.
  intros Hnone. unfold do_unban, do_ban, removeBan, addBan, with_bans. simpl.
  rewrite Hb, (delete_id _ _ Hnone). now destruct s.
Qed.

Lemma ban_then_unban_witness :
  exists effs,
    on_message cfg_index 1%nat (Parsed (chat_data "/ban bob")) a_clock
               admin_and_bob = Some (bob_banned, effs)
    /\ In (Close 2%nat) effs
    /\ on_message cfg_index 1%nat (Parsed (chat_data "/bro bob")) a_clock
                  bob_banned
       = Some (admin_and_bob, [Broadcast (MSystem "bob is unbanned")]).
Proof.
  destruct (ban_then_unban cfg_index 1%nat (chat_data "/ban bob")
              (chat_data "/bro bob") a_clock a_clock admin_and_bob "bob")
    as (s1 & effs & s2 & Hrun1 & Hkick & Hrun2 & _ & _ & _ & _ & _ & Hback);
    try reflexivity.
  - split; [reflexivity | discriminate].
  - assert (E1 : Some s1 = Some bob_banned).
    { change (Some s1) with (fst <$> Some (s1, effs)). rewrite <- Hrun1.
      reflexivity. }
    injection E1 as ->. exists effs. split; [exact Hrun1|].
    split; [apply (Hkick 2%nat); right; now left|].
    rewrite Hrun2, (Hback eq_refl). reflexivity.
Defined.

(** ** Icon upload *)


Lemma upload_store key url s :
  (match findPlayer key s with
   | Some player =>
     updatePlayerCoinsTap
       (mkPlayer (coins player) (tap_value player) (auto_per_sec player)
                 (taps player) (Some url)) key s
   | None => createPlayer key (new_player (Some url)) s
   end)
  = with_players
      (<[key := match players s !! key with
                | Some p => with_icon p (Some url)
                | None => new_player (Some url)
                end]> (players s)) s.
Proof.
  unfold findPlayer. destruct (players s !! key) as [p|] eqn:Hp.
  - unfold updatePlayerCoinsTap. f_equal. apply map_eq. intros m.
    rewrite lookup_alter, lookup_insert. case_decide; [|reflexivity].
    now rewrite Hp.
  - reflexivity.
Qed.


Lemma on_setName_players cfg ws d s :
  players (fst (setName_result cfg ws d s)) = players s
  \/ (players s !! claimed_name cfg d = None
      /\ players (fst (setName_result cfg ws d s))
         = <[claimed_name cfg d := new_player None]> (players s)).
Proof.
  pose proof (on_setName_outcome cfg ws d s) as Ho.
  destruct (setName_result cfg ws d s) as [s1 effs]. simpl fst in *. simpl snd in *.
  inversion Ho; subst; auto.
  match goal with H : players s1 = _ |- _ => rewrite H end.
  destruct (players s !! claimed_name cfg d); auto.
Qed.

Lemma slice_0_idem n x : slice_0 n (slice_0 n x) = slice_0 n x.
Proof.
  revert x. induction n as [|n IH]; intros [|c x]; simpl; try reflexivity.
  now rewrite IH.
Qed.

Lemma claimed_name_cut cfg d :
  slice_0 32 (claimed_name cfg d) = claimed_name cfg d.
Proof.
  unfold claimed_name. destruct (String_ (nickname_arg cfg d)); [|reflexivity].
  apply slice_0_idem.
Qed.

(** X17.  A claim after an upload keeps the icon.  When an icon is uploaded
    for a nickname that has no row and a connection then claims that
    nickname, the claim does not reset the row: it is the one the upload
    created, with the uploaded icon. *)
Theorem upload_then_claim_keeps_icon cfg req ws d s e s' effs :
  body_nickname req = Some (claimed_name cfg d) ->
  file_ext req = Some e ->
  (variant cfg = Part000 ->
   In (toLowerCase e) [".png"; ".jpg"; ".jpeg"; ".gif"; ""]) ->
  players s !! claimed_name cfg d = None ->
  on_setName cfg ws d (fst (on_upload cfg req s)) = Some (s', effs) ->
  is_accept effs = true ->
  exists url,
    snd (on_upload cfg req s) = [Respond (Http200 url)]
    /\ players s' !! claimed_name cfg d = Some (mkPlayer 0 1 0 0 (Some url)).
Proof.
  intros Hn He Hext Hnone Hset Hacc.
  pose proof (on_setName_fst cfg ws d _ s' effs Hset) as ->.
  pose proof (on_setName_snd cfg ws d _ _ effs Hset) as ->. clear Hset.
  assert (Hne : claimed_name cfg d <> "").
  { intros E. revert Hacc. rewrite on_setName_empty by exact E. discriminate. }
  assert (Hkey : match variant cfg with
                 | ServerIndex => claimed_name cfg d
                 | Part000 => slice_0 32 (claimed_name cfg d)
                 end = claimed_name cfg d).
  { destruct (variant cfg); [reflexivity|]. apply claimed_name_cut. }
  assert (Hup : exists url,
            on_upload cfg req s =
              (with_players (<[claimed_name cfg d := new_player (Some url)]>
                               (players s)) s,
               [Respond (Http200 url)])).
  { unfold on_upload, icon_url. rewrite Hn, He. simpl default. rewrite Hkey.
    rewrite (bool_decide_eq_false_2 _ Hne).
    assert (Hall : negb match variant cfg with
                        | ServerIndex => true
                        | Part000 =>
                          bool_decide
                            (match variant cfg with
                             | ServerIndex => e
                             | Part000 => toLowerCase e
                             end ∈ [".png"; ".jpg"; ".jpeg"; ".gif"; ""])
                        end = false).
    { destruct (variant cfg) eqn:Hv; [reflexivity|].
      rewrite bool_decide_eq_true_2; [reflexivity|].
      apply list_elem_of_In. now apply Hext. }
    rewrite Hall. cbv zeta. rewrite upload_store, Hnone. eauto. }
  destruct Hup as [url Hup]. exists url. rewrite Hup. simpl fst. simpl snd.
  split; [reflexivity|].
  set (s0 := with_players (<[claimed_name cfg d := new_player (Some url)]>
                             (players s)) s).
  assert (Hrow : players s0 !! claimed_name cfg d
                 = Some (new_player (Some url))) by apply lookup_insert_eq.
  destruct (on_setName_players cfg ws d s0) as [->|[Hn0 _]];
    [exact Hrow|congruence].
Qed.

Lemma upload_then_claim_keeps_icon_witness :
  exists s' effs url,
    on_setName cfg_part 2%nat (setName_data (JStr "dave") JUndefined)
      (fst (on_upload cfg_part
              (mkUpload (Some "dave") (Some ".PNG") 1700000000000 "k3x9p2")
              two_connections)) = Some (s', effs)
    /\ players s' !! "dave" = Some (mkPlayer 0 1 0 0 (Some url))
    /\ url = "/icons/1700000000000-k3x9p2.png".
Proof.
  pose (r := setName_result cfg_part 2%nat
               (setName_data (JStr "dave") JUndefined)
               (fst (on_upload cfg_part
                       (mkUpload (Some "dave") (Some ".PNG") 1700000000000
                                 "k3x9p2") two_connections))).
  destruct (upload_then_claim_keeps_icon cfg_part
              (mkUpload (Some "dave") (Some ".PNG") 1700000000000 "k3x9p2")
              2%nat (setName_data (JStr "dave") JUndefined) two_connections
              ".PNG" (fst r) (snd r)) as (url & Hresp & Hrow).
  - reflexivity.
  - reflexivity.
  - intros _. simpl. auto.
  - reflexivity.
  - reflexivity.
  - reflexivity.
  - exists (fst r), (snd r), url. split; [reflexivity|]. split; [exact Hrow|].
    assert (E : [Respond (Http200 url)]
                = [Respond (Http200 "/icons/1700000000000-k3x9p2.png")]).
    { rewrite <- Hresp. vm_compute. reflexivity. }
    now injection E.
Defined.

(** ** Upgrades at work *)

(** X18.  An upgrade takes effect at once.  After a purchase that a named
    connection can pay, and as long as the counters stay integers that
    JavaScript numbers hold exactly, the next tap of that connection adds
    the tap value raised by a [tap] item, and the next tick adds the income
    raised by an [auto] item, to the coins left after paying the price. *)
Theorem upgrade_then_income cfg ws nick d clk s i item p :
  named s ws nick -> d_type d = JStr "buy" ->
  String_ (itemId_arg cfg d) = Some i -> shop_items s !! i = Some item ->
  players s !! nick = Some p -> price item <= coins p ->
  player_safe p -> item_safe item -> player_safe (bought p item) ->
  exists s1 effs,
    on_message cfg ws (Parsed d) clk s = Some (s1, effs)
    /\ (item_type item = "tap" ->
        safe (coins p - price item + (tap_value p + value item)) ->
        safe (taps p + 1) ->
        exists s2,
          on_message cfg ws (Parsed tap_data) clk s1 =
            Some (s2, [Broadcast
                         (MTap nick
                            (coins p - price item + (tap_value p + value item))
                            (taps p + 1) (tap_value p + value item))])
          /\ (coins <$> players s2 !! nick)
             = Some (coins p - price item + (tap_value p + value item)))
    /\ (item_type item = "auto" -> 0 < auto_per_sec p + value item ->
        safe (coins p - price item + (auto_per_sec p + value item)) ->
        (coins <$> players (fst (on_tick s1)) !! nick)
        = Some (coins p - price item + (auto_per_sec p + value item))).
Proof.
  intros Hn Ht Hs Hi Hp Hle _ _ _.
  rewrite (on_message_buy cfg ws nick d clk s Hn Ht).
  rewrite (on_buy_enough cfg ws nick d s i item p Hs Hi Hp Hle).
  eexists _, _. split; [reflexivity|].
  set (s1 := updatePlayerCoinsTap (bought p item) nick s).
  assert (Hp1 : players s1 !! nick = Some (bought p item)).
  { subst s1. simpl. now rewrite lookup_alter_eq, Hp. }
  split.
  - intros Hk _ _.
    assert (Hn1 : named s1 ws nick) by exact Hn.
    rewrite (on_message_tap cfg ws nick tap_data clk s1 Hn1 eq_refl).
    rewrite (on_tap_once nick s1 _ Hp1).
    unfold bought. rewrite Hk. simpl.
    eexists. split; [reflexivity|]. simpl.
    now rewrite lookup_alter_eq, lookup_alter_eq, Hp.
  - intros Hk Hpos _. rewrite on_tick_players, lookup_fmap, Hp1. simpl.
    unfold credited, bought. rewrite Hk. simpl.
    apply Z.ltb_lt in Hpos. rewrite Hpos. simpl. reflexivity.
Qed.

Lemma upgrade_then_income_witness :
  exists s1 effs,
    on_message cfg_index 1%nat (Parsed (buy_data "cheapUp")) a_clock
               alice_ten_taps = Some (s1, effs)
    /\ exists s2,
         on_message cfg_index 1%nat (Parsed tap_data) a_clock s1
         = Some (s2, [Broadcast (MTap "alice" 2 11 2)]).
Proof.
  destruct (upgrade_then_income cfg_index 1%nat "alice" (buy_data "cheapUp")
              a_clock alice_ten_taps "cheapUp" (mkItem "tap +1" 10 "tap" 1)
              (mkPlayer 10 1 0 10 None))
    as (s1 & effs & Hrun & Htap & _).
  - split; [reflexivity | discriminate].
  - reflexivity.
  - reflexivity.
  - reflexivity.
  - reflexivity.
  - simpl. lia.
  - unfold player_safe, safe, MAX_SAFE_INTEGER. simpl. lia.
  - unfold item_safe, safe, MAX_SAFE_INTEGER. simpl. lia.
  - unfold player_safe, safe, MAX_SAFE_INTEGER. simpl. lia.
  - exists s1, effs. split; [exact Hrun|].
    destruct (Htap eq_refl) as (s2 & Hrun2 & _).
    + unfold safe, MAX_SAFE_INTEGER. simpl. lia.
    + unfold safe, MAX_SAFE_INTEGER. simpl. lia.
    + exists s2. exact Hrun2.
Defined.

(** ** The words of a command *)

Lemma has_space_rev_app s t :
  has_space (String.rev_app s t) = has_space s || has_space t.
Proof.
  revert t. induction s as [|c s IH]; intros t; simpl; [reflexivity|].
  rewrite IH. simpl. destruct (is_space c), (has_space s); reflexivity.
Qed.

Lemma has_space_rev s : has_space (String.rev s) = has_space s.
Proof. unfold String.rev. rewrite has_space_rev_app. simpl. apply orb_false_r. Qed.

Lemma rev_nonempty c s : String.rev (String c s) <> "".
Proof.
  rewrite rev_cons. destruct (String.rev s); discriminate.
Qed.

Lemma split_go_words b cur s :
  has_space cur = false ->
  List.Forall (fun w => has_space w = false) (split_go b cur s).
Proof.
  revert b cur. induction s as [|c s IH]; intros b cur Hcur; simpl.
  - constructor; [now rewrite has_space_rev|constructor].
  - destruct (is_space c) eqn:Hc.
    + destruct b; [now apply IH|].
      constructor; [now rewrite has_space_rev|now apply IH].
    + apply IH. simpl. now rewrite Hc.
Qed.

Lemma split_go_nonempty b cur s :
  ends_in_word s = true ->
  (b = false -> cur = "" -> no_leading_space s) ->
  List.Forall (fun w => w <> "") (split_go b cur s).
Proof.
  revert b cur. induction s as [|c s IH]; intros b cur He Hfirst;
    [discriminate|]. simpl.
  destruct (is_space c) eqn:Hc.
  - assert (He' : ends_in_word s = true).
    { destruct s; [simpl in He; now rewrite Hc in He|exact He]. }
    destruct b; [apply IH; [exact He'|discriminate]|].
    constructor; [|apply IH; [exact He'|discriminate]].
    destruct cur as [|x cur]; [|apply rev_nonempty].
    specialize (Hfirst eq_refl eq_refl). simpl in Hfirst. congruence.
  - destruct s as [|c' s'].
    + simpl. constructor; [apply rev_nonempty|constructor].
    + apply IH; [exact He|]. intros _ E. discriminate.
Qed.

Lemma split_go_single cur s :
  has_space s = false ->
  split_go false cur s = [String.rev (String.rev_app s cur)].
Proof.
  revert cur. induction s as [|c s IH]; intros cur Hs; simpl; [reflexivity|].
  simpl in Hs. apply orb_false_iff in Hs. destruct Hs as [Hc Hs].
  rewrite Hc. now apply IH.
Qed.

Lemma split_go_length b cur s : (1 <= length (split_go b cur s))%nat.
Proof.
  revert b cur. induction s as [|c s IH]; intros b cur; simpl; [lia|].
  destruct (is_space c); [destruct b; simpl; [apply IH|lia]|apply IH].
Qed.

Lemma split_go_two cur s :
  has_space s = true -> (2 <= length (split_go false cur s))%nat.
Proof.
  revert cur. induction s as [|c s IH]; intros cur Hs; [discriminate|].
  simpl. destruct (is_space c) eqn:Hc.
  - simpl. pose proof (split_go_length true "" s). lia.
  - simpl in Hs. rewrite Hc in Hs. now apply IH.
Qed.

Lemma ends_in_word_snoc z a :
  ends_in_word (z +:+ String a "") = negb (is_space a).
Proof.
  induction z as [|c z IH]; [reflexivity|].
  rewrite app_cons. simpl. rewrite IH.
  destruct z; reflexivity.
Qed.

Lemma trim_ends_in_word x : trim x <> "" -> ends_in_word (trim x) = true.
Proof.
  unfold trim, trimEnd.
  destruct (trimStart_head (String.rev (trimStart x))) as [E|(c & t & E & Hc)];
    rewrite E.
  - intros H. now elim H.
  - intros _. rewrite rev_cons, ends_in_word_snoc. now rewrite Hc.
Qed.

(** X19.  The words of the chat text.  The text of a chat message that is not
    dropped splits at white space into words that are never empty and
    contain no white space; so the second word, the target of a command, is
    there exactly when the text contains white space, and a text without
    white space is its own first word. *)
Theorem chat_text_words d :
  chat_text d <> "" ->
  List.Forall (fun w => w <> "" /\ has_space w = false)
              (split_ws (chat_text d))
  /\ (target_of (split_ws (chat_text d)) = None
      <-> has_space (chat_text d) = false)
  /\ (has_space (chat_text d) = false ->
      split_ws (chat_text d) = [chat_text d]).
Proof.
  intros Hne.
  destruct (chat_text_converted d Hne) as [raw Hraw].
  assert (Hx : chat_text d = trim (slice_0 500 raw))
    by (unfold chat_text; now rewrite Hraw).
  assert (Hend : ends_in_word (chat_text d) = true)
    by (rewrite Hx in *; apply trim_ends_in_word; exact Hne).
  assert (Hfirst : no_leading_space (chat_text d))
    by (rewrite Hx; apply trim_no_leading_space).
  assert (Hnon : List.Forall (fun w => w <> "") (split_ws (chat_text d))).
  { apply split_go_nonempty; auto. }
  assert (Hsingle : has_space (chat_text d) = false ->
                    split_ws (chat_text d) = [chat_text d]).
  { intros Hs. unfold split_ws. rewrite split_go_single by exact Hs.
    f_equal. change (String.rev (String.rev (chat_text d)) = chat_text d).
    apply rev_involutive. }
  split; [|split; [|exact Hsingle]].
  - pose proof (split_go_words false "" (chat_text d) eq_refl) as Hw.
    fold (split_ws (chat_text d)) in Hw.
    rewrite Forall_forall in *. intros w Hin. split; auto.
  - split.
    + intros Htg. destruct (has_space (chat_text d)) eqn:Hs; [|reflexivity].
      pose proof (split_go_two "" (chat_text d) Hs) as Hlen.
      fold (split_ws (chat_text d)) in Hlen.
      unfold target_of in Htg.
      destruct (split_ws (chat_text d)) as [|w1 [|w2 l]]; simpl in Hlen;
        try lia.
      simpl in Htg. case_bool_decide as Hw2; [|discriminate].
      inversion Hnon as [|? ? _ Hnon']; subst.
      inversion Hnon' as [|? ? Hw2' _]; subst. now elim Hw2'.
    + intros Hs. now rewrite (Hsingle Hs).
Qed.

Lemma chat_text_words_witness :
  target_of (split_ws (chat_text (chat_data " /ban "))) = None.
Proof.
  apply (proj1 (proj2 (chat_text_words (chat_data " /ban ") ltac:(discriminate)))).
  reflexivity.
Defined.

(** ** The two revisions after the claim *)

Lemma falsy_String_not_in_catalog v :
  truthy v = false -> v <> JStr "" ->
  exists x, String_ v = Some x
            /\ JsMap.get x SHOP_DEFAULTS = None
            /\ JsMap.get "" SHOP_DEFAULTS = None.
Proof.
  intros Hf Hs.
  destruct v as [| |[|]| |n|x|o]; simpl in Hf; try discriminate;
    try (eexists; repeat split; reflexivity).
  case_bool_decide; [subst x; now elim Hs | discriminate].
Qed.

Lemma on_buy_revisions env1 env2 ws nick d s :
  (forall i, shop_items s !! i = JsMap.get i SHOP_DEFAULTS) ->
  on_buy (mkConfig ServerIndex env1) ws nick d s
  = on_buy (mkConfig Part000 env2) ws nick d s.
Proof.
  intros Hcat. unfold on_buy, itemId_arg, Js.or. simpl.
  destruct (truthy (d_itemId d)) eqn:Hf; [reflexivity|].
  destruct (decide (d_itemId d = JStr "")) as [->|Hs]; [reflexivity|].
  destruct (falsy_String_not_in_catalog _ Hf Hs) as (x & Hx & H1 & H2).
  rewrite Hx. simpl String_. now rewrite !Hcat, H1, H2.
Qed.

(** X20.  The two revisions after the claim.  In a state reachable in either
    revision, the two revisions handle every message other than [setName]
    alike, same next state and same calls, with one exception: a [/ban] or
    [/bro] of the administrator without a target, which index.js ignores
    and part_000 stores and broadcasts as chat. *)
Theorem revisions_agree_after_claim env1 env2 ws d clk s :
  let index_js := mkConfig ServerIndex env1 in
  let part_000 := mkConfig Part000 env2 in
  reachable index_js s \/ reachable part_000 s ->
  d_type d <> JStr "setName" ->
  (on_message index_js ws (Parsed d) clk s
   = on_message part_000 ws (Parsed d) clk s
   <-> ~ (JsMap.get ws (clients s) = Some (Some "admin")
          /\ d_type d = JStr "chat"
          /\ startsWith "/" (chat_text d) = true
          /\ (toLowerCase (nth 0 (split_ws (chat_text d)) "") = "/ban"
              \/ toLowerCase (nth 0 (split_ws (chat_text d)) "") = "/bro")
          /\ target_of (split_ws (chat_text d)) = None)).
Proof.
  intros index_js part_000 Hr Ht.
  assert (Hcat : forall i, shop_items s !! i = JsMap.get i SHOP_DEFAULTS).
  { intros i. destruct Hr as [Hr|Hr];
      rewrite (reachable_shop _ s Hr); apply init_shop_lookup. }
  unfold on_message. rewrite (bool_decide_eq_false_2 _ Ht).
  destruct (JsMap.get ws (clients s)) as [[nick|]|] eqn:Hg.
  2,3: split; [intros _ (E & _); discriminate | reflexivity].
  case_bool_decide as Hne.
  { split; [|reflexivity]. intros _ (E & _). injection E as ->. discriminate. }
  case_bool_decide as Htap.
  { split; [|reflexivity]. intros _ (_ & E & _). congruence. }
  case_bool_decide as Hbuy.
  { split; [|intros _; apply on_buy_revisions, Hcat].
    intros _ (_ & E & _). congruence. }
  case_bool_decide as Hchat.
  2:{ split; [|reflexivity]. intros _ (_ & E & _). congruence. }
  unfold on_chat.
  destruct (String_ (Js.or (d_text d) (JStr ""))) as [raw|] eqn:Hraw.
  2:{ split; [|reflexivity]. intros _ (_ & _ & E & _).
      unfold chat_text in E. rewrite Hraw in E. discriminate. }
  assert (Hx : trim (slice_0 500 raw) = chat_text d)
    by (unfold chat_text; now rewrite Hraw).
  rewrite Hx. clear raw Hraw Hx.
  unfold chat_checks. case_bool_decide as Hempty.
  { split; [|reflexivity]. intros _ (_ & _ & E & _).
    rewrite Hempty in E. discriminate. }
  case_bool_decide as Hadmin; simpl.
  2:{ split; [|reflexivity]. intros _ (E & _). congruence. }
  destruct (startsWith "/" (chat_text d)) eqn:Hs.
  2:{ split; [|reflexivity]. intros _ (_ & _ & E & _). discriminate. }
  unfold admin_command. simpl variant. rewrite chat_text_trimmed.
  destruct (target_of (split_ws (chat_text d))) as [t|] eqn:Htg.
  { split; [intros _ (_ & _ & _ & _ & E); discriminate|].
    intros _. repeat case_bool_decide; reflexivity. }
  case_bool_decide as Hban.
  { split; [intros E; unfold normal_chat in E; discriminate|].
    intros H; elim H; subst nick; auto 10. }
  case_bool_decide as Hbro.
  { split; [intros E; unfold normal_chat in E; discriminate|].
    intros H; elim H; subst nick; auto 10. }
  split; [|reflexivity]. intros _ (_ & _ & _ & [E|E] & _); congruence.
Qed.

Lemma run_taps_reachable cfg n ws d clk s s' effs :
  reachable cfg s -> run_taps cfg n ws d clk s = Some (s', effs) ->
  reachable cfg s'.
Proof.
  revert s effs. induction n as [|n IH]; intros s effs Hr; cbn [run_taps].
  - now intros [= <- _].
  - destruct (on_message cfg ws (Parsed d) clk s) as [[s1 e1]|] eqn:Hm;
      [|discriminate].
    destruct (run_taps cfg n ws d clk s1) as [[s2 e2]|] eqn:Hrun;
      [|discriminate].
    intros [= <- _]. apply (IH s1 e2); [|exact Hrun].
    now apply (reachable_step cfg (Message ws (Parsed d) clk) s s1 e1).
Qed.

Lemma alice_ten_taps_reachable : reachable cfg_index alice_ten_taps.
Proof.
  unfold alice_ten_taps.
  destruct (run_taps cfg_index 10 1%nat tap_data a_clock alice_state)
    as [[s e]|] eqn:E; [|exact alice_state_reachable].
  exact (run_taps_reachable _ _ _ _ _ _ _ _ alice_state_reachable E).
Qed.

Lemma revisions_agree_after_claim_witness :
  on_message cfg_index 1%nat (Parsed (buy_data "midUp")) a_clock alice_ten_taps
  = on_message cfg_part 1%nat (Parsed (buy_data "midUp")) a_clock alice_ten_taps.
Proof.
  apply (revisions_agree_after_claim (Some "secret") (Some "secret") 1%nat
           (buy_data "midUp") a_clock alice_ten_taps).
  - left. exact alice_ten_taps_reachable.
  - discriminate.
  - intros (_ & E & _). discriminate.
Defined.

(** ** Seeding and fan-out *)

Lemma seed_keeps (items : list (string * ShopItem)) t i it :
  t !! i = Some it ->
  fold_left (fun acc x => insertItem x acc) items t !! i = Some it.
Proof.
  revert t. induction items as [|[k v] items IH]; intros t Hi; [exact Hi|].
  simpl. apply IH. unfold insertItem. simpl.
  destruct (t !! k) eqn:Hk; [exact Hi|].
  rewrite lookup_insert_ne; [exact Hi|]. intros ->. congruence.
Qed.

(** X21.  Seeding the catalog.  The start-up loop over [SHOP_DEFAULTS] never
    replaces a row that is already in [shop_items], whatever the table held
    before, and after it every default id has a row: the old one if there
    was one, the default otherwise. *)
Theorem seeding_keeps_existing_rows (t : gmap string ShopItem) :
  let seeded := fold_left (fun acc x => insertItem x acc) SHOP_DEFAULTS t in
  (forall i it, t !! i = Some it -> seeded !! i = Some it)
  /\ (forall i it, In (i, it) SHOP_DEFAULTS ->
      seeded !! i = Some (default it (t !! i)))
  /\ (forall i, JsMap.get i SHOP_DEFAULTS = None -> seeded !! i = t !! i).
Proof.
  intros seeded. subst seeded. split; [intros i it; apply seed_keeps|].
  assert (Hgen : forall items (t0 : gmap string ShopItem) i,
            fold_left (fun acc x => insertItem x acc) items t0 !! i
            = match t0 !! i with
              | Some old => Some old
              | None => JsMap.get i items
              end).
  { induction items as [|[k v] items IH]; intros t0 i; simpl.
    - now destruct (t0 !! i).
    - rewrite IH. unfold insertItem. simpl.
      destruct (t0 !! k) eqn:Hk.
      + destruct (t0 !! i) eqn:Hi; [reflexivity|].
        destruct (decide (i = k)) as [->|]; [congruence|reflexivity].
      + rewrite lookup_insert. destruct (decide (k = i)) as [->|Hne].
        * rewrite Hk. now rewrite decide_True.
        * destruct (t0 !! i); [reflexivity|].
          rewrite decide_False by congruence. reflexivity. }
  split.
  - intros i it Hin. rewrite Hgen. destruct (t !! i); [reflexivity|].
    change (JsMap.get i SHOP_DEFAULTS = Some it).
    apply In_get_NoDup; [|exact Hin].
    unfold SHOP_DEFAULTS. simpl.
    repeat (constructor; [simpl; intuition discriminate|]). constructor.
  - intros i Hnone. rewrite Hgen, Hnone. now destruct (t !! i).
Qed.

(** X23.  The ranking and the player list.  The ranking sent in [init] and
    [ranks] messages has the rows of at most a hundred players, of all of
    them when there are fewer; no player appears twice; every row carries
    the taps, coins and icon of its player; the rows come in descending
    order of taps; and no player left out has more taps than a player in
    the ranking.  The player list of a [ranks] message has the row of every
    player, once, in the order of the nicknames. *)
Theorem ranking_is_top_hundred s :
  (length (getTopRank s) = Nat.min 100 (size (players s)))%nat
  /\ List.NoDup (map fst (getTopRank s))
  /\ (forall n r, In (n, r) (getTopRank s) ->
        exists p, players s !! n = Some p
                  /\ r = mkRank (taps p) (coins p) (icon p))
  /\ StronglySorted (fun a b => rank_taps (snd b) <= rank_taps (snd a))
                    (getTopRank s)
  /\ (forall n p, players s !! n = Some p ->
        ~ In n (map fst (getTopRank s)) ->
        forall m r, In (m, r) (getTopRank s) -> taps p <= rank_taps r)
  /\ List.NoDup (map fst (listPlayers s))
  /\ (forall n r, In (n, r) (listPlayers s) <->
        exists p, players s !! n = Some p
                  /\ r = mkRank (taps p) (coins p) (icon p))
  /\ StronglySorted (fun a b => String.le (fst a) (fst b)) (listPlayers s)
  /\ broadcastPlayersAndRanks s
     = Broadcast (MRanks (getTopRank s) (listPlayers s)).
Proof.
  destruct (getTopRank_spec s) as (Hlen & Hnd & Hin & Hsort & Hcut).
  destruct (listPlayers_spec s) as (Hnd' & Hin' & Hsort').
  repeat split; try assumption; try reflexivity; try apply Hin'.
Qed.
